(** * LogHunter: the analysis pipeline, embedded and verified

    A shallow embedding of the parts of [kiranshivaraju/loghunter] that its
    specification makes claims about:

    - [internal/analysis/cluster.go]: message normalisation, fingerprints,
      clustering and the ordering of clusters;
    - the PostgreSQL store ([package store]): cluster upserts and the job
      state machine;
    - [internal/ai/service.go]: the background analysis task and the
      summarisation path;
    - the rate-limit middleware ([package middleware]).

    Go strings are byte sequences: they are modelled by [string], whose
    characters ([ascii]) are exactly the 256 byte values.  Go's [int] and
    [int64] are modelled by [Z]; where a wrap-around can matter it is written
    out with [wrap64].  The pieces of Go's standard library the code calls are
    modelled in the [go_*] modules below, from their documented behaviour. *)

From Stdlib Require Import ZArith List String Ascii Bool Lia.
From Stdlib Require Import Floats.SpecFloat.
From Stdlib Require Import Sorting.Sorted Sorting.Permutation.
From Stdlib Require Import Numbers.DecimalString.
From Stdlib Require Numbers.DecimalPos.
From stdpp Require Import gmap strings.

#[local] Open Scope Z_scope.
#[local] Arguments String.append !s1 s2 : simpl nomatch.

(** ** Go strings and integers *)

(** [len(s)] for a string. *)
Definition len (s : string) : Z := Z.of_nat (String.length s).

(** The numeric value of a byte. *)
Definition byte_val (b : ascii) : Z := Z.of_N (N_of_ascii b).

(** Two's-complement wrap-around of a 64-bit signed integer. *)
Definition wrap64 (z : Z) : Z := (z + 2 ^ 63) mod 2 ^ 64 - 2 ^ 63.

Definition max_int64 : Z := 2 ^ 63 - 1.
Definition min_int64 : Z := - 2 ^ 63.

(** [s[:n]] and [s[n:]] for an index within bounds. *)
Fixpoint take (n : nat) (s : string) : string :=
  match n, s with
  | S n', String c s' => String c (take n' s')
  | _, _ => EmptyString
  end.

Fixpoint drop (n : nat) (s : string) : string :=
  match n, s with
  | S n', String _ s' => drop n' s'
  | _, _ => s
  end.

(** A Go slice value is either [nil] or a (possibly empty) sequence. *)
Inductive slice (A : Type) : Type :=
| nil_slice
| mk_slice (elems : list A).
Arguments nil_slice {A}.
Arguments mk_slice {A} elems.

Definition slice_elems {A} (s : slice A) : list A :=
  match s with nil_slice => [] | mk_slice l => l end.

Definition is_nil {A} (s : slice A) : bool :=
  match s with nil_slice => true | mk_slice _ => false end.

(** ** unicode/utf8 *)

Module go_utf8.

(** [utf8.RuneSelf]: bytes below it are single-byte runes. *)
Definition RuneSelf : Z := 128.

(** [func RuneStart(b byte) bool { return b&0xC0 != 0x80 }] *)
Definition RuneStart (b : ascii) : bool :=
  negb (Z.land (byte_val b) 192 =? 128).

Definition in_range (lo hi : Z) (b : ascii) : bool :=
  (lo <=? byte_val b) && (byte_val b <=? hi).

(** [utf8.ValidString]: the well-formed byte sequences of the Unicode
    standard (table 3-7), which is what Go accepts: no overlong forms, no
    surrogates, nothing above U+10FFFF. *)
Fixpoint ValidString (s : string) : bool :=
  match s with
  | EmptyString => true
  | String b0 s1 =>
      if byte_val b0 <? RuneSelf then ValidString s1
      else
        match s1 with
        | String b1 s2 =>
            if in_range 194 223 b0 && in_range 128 191 b1
            then ValidString s2
            else
              match s2 with
              | String b2 s3 =>
                  if (in_range 224 224 b0 && in_range 160 191 b1
                      || in_range 225 236 b0 && in_range 128 191 b1
                      || in_range 237 237 b0 && in_range 128 159 b1
                      || in_range 238 239 b0 && in_range 128 191 b1)
                     && in_range 128 191 b2
                  then ValidString s3
                  else
                    match s3 with
                    | String b3 s4 =>
                        if (in_range 240 240 b0 && in_range 144 191 b1
                            || in_range 241 243 b0 && in_range 128 191 b1
                            || in_range 244 244 b0 && in_range 128 143 b1)
                           && in_range 128 191 b2 && in_range 128 191 b3
                        then ValidString s4
                        else false
                    | EmptyString => false
                    end
              | EmptyString => false
              end
        | EmptyString => false
        end
  end.

End go_utf8.

(** ** time, uuid, sort and the runtime *)

(** A [time.Time], as the number of nanoseconds since the Unix epoch (the
    location is always UTC in the code modelled here). *)
Definition Time : Type := Z.

(** The zero [time.Time]: January 1, year 1, 00:00:00 UTC. *)
Definition Time_zero : Time := -62135596800 * 10 ^ 9.

(** [t.UnixNano()]: an [int64]. *)
Definition UnixNano (t : Time) : Z := wrap64 t.

(** [t.Unix()]: seconds since the epoch. *)
Definition Unix (t : Time) : Z := t / 10 ^ 9.

(** [t.Add(d)], with [d] a [time.Duration] in nanoseconds. *)
Definition Time_Add (t : Time) (d : Z) : Time := t + d.

Definition Second : Z := 10 ^ 9.
Definition Minute : Z := 60 * Second.

(** A [uuid.UUID] is a 128-bit value; [uuid.Nil] is zero. *)
Definition uuid : Type := N.
Definition uuid_Nil : uuid := 0%N.

(** What the Go runtime decides: the order in which [range] visits the
    entries of a map (some permutation of them, which may change from one
    loop to the next), and the values [uuid.New] draws. *)
Class GoRuntime : Type := {
  map_range : forall {A : Type}, list (string * A) -> list (string * A);
  map_range_perm : forall A (l : list (string * A)), Permutation (map_range l) l;
  uuid_New : nat -> uuid
}.

(** How a call into a collaborator (the log backend, the inference
    provider) ends: with a value, with an error, or with a panic ([v] is the
    panic value as [%v] prints it). *)
Inductive outcome (E A : Type) : Type :=
| returns (a : A)
| fails (e : E)
| panics (v : string).
Arguments returns {E A} a.
Arguments fails {E A} e.
Arguments panics {E A} v.

(** [strings.Join(elems, sep)] *)
Fixpoint Join (elems : list string) (sep : string) : string :=
  match elems with
  | [] => ""
  | [e] => e
  | e :: rest => e +:+ sep +:+ Join rest sep
  end.

(** [strconv.Itoa] and the [%d] verb. *)
Definition Itoa (i : Z) : string := NilEmpty.string_of_int (Z.to_int i).

(** The double-quote and the back-tick characters. *)
Definition dquote : string := String "034" "".
Definition backtick : string := String "096" "".

Module go_sort.

(** The inner loop of insertion sort: [x] moves left past every element it
    is [less] than.  [prefix_rev] is the sorted prefix, last element
    first. *)
Fixpoint sift {A} (less : A -> A -> bool) (x : A) (prefix_rev : list A) : list A :=
  match prefix_rev with
  | [] => [x]
  | y :: rest => if less x y then y :: sift less x rest else x :: prefix_rev
  end.

(** [sort.Slice(x, less)].  Go sorts a slice of up to 12 elements by
    insertion sort, which is the algorithm here; a longer slice goes through
    pattern-defeating quicksort, which yields another ordering of the same
    elements that is sorted by [less] in the same sense (lemma
    [sorted_by_less_is_ordered] covers every such output). *)
Definition Slice {A} (less : A -> A -> bool) (x : list A) : list A :=
  rev (fold_left (fun prefix_rev e => sift less e prefix_rev) x []).

End go_sort.

(** The slice a loop builds by [append] from a nil slice: nil when the
    loop appends nothing. *)
Definition appended {A} (rows : list A) : slice A :=
  match rows with
  | [] => nil_slice
  | _ => mk_slice rows
  end.

(** ** regexp *)

Module go_regexp.

(** The fragment of Go's regular-expression syntax that the patterns of
    [cluster.go] use.  [Bol] is [^] (without the [m] flag: beginning of the
    text); a class is a predicate on bytes (every class of [cluster.go] holds
    ASCII characters only, so matching bytes and matching runes agree). *)
Inductive regex : Type :=
| Empty
| Bol
| Class (p : ascii -> bool)
| Cat (r1 r2 : regex)
| Alt (r1 r2 : regex)
| Star (r : regex).

Definition Lit (c : ascii) : regex := Class (Ascii.eqb c).
Definition Plus (r : regex) : regex := Cat r (Star r).
Definition Opt (r : regex) : regex := Alt r Empty.

Fixpoint Rep (n : nat) (r : regex) : regex :=
  match n with
  | O => Empty
  | S n' => Cat r (Rep n' r)
  end.

Fixpoint Seq (rs : list regex) : regex :=
  match rs with
  | [] => Empty
  | r :: rs' => Cat r (Seq rs')
  end.

(** Perl classes, as Go (RE2) defines them: [\d] is [[0-9]] and [\s] is
    [[\t\n\f\r ]]. *)
Definition perl_d (c : ascii) : bool := ("0" <=? c)%char && (c <=? "9")%char.

Definition perl_s (c : ascii) : bool :=
  (c =? "009")%char || (c =? "010")%char || (c =? "012")%char
  || (c =? "013")%char || (c =? " ")%char.

(** The iteration of a starred expression, greedy: match the body once
    more (an iteration must consume something) and go on, or, when that
    leads nowhere, stop here.  [body] matches the starred expression once;
    [fuel] bounds the number of iterations by the length of the text. *)
Definition star_loop
    (body : bool -> string -> (bool -> string -> option string) -> option string)
    (k : bool -> string -> option string)
    : nat -> bool -> string -> option string :=
  fix iterate (fuel : nat) (bot : bool) (s : string) {struct fuel}
    : option string :=
    match fuel with
    | O => k bot s
    | S fuel' =>
        match
          body bot s
            (fun bot' s' =>
               if (String.length s' <? String.length s)%nat
               then iterate fuel' bot' s'
               else None)
        with
        | Some rest => Some rest
        | None => k bot s
        end
    end.

(** Go's matches are leftmost-first: among the matches that start at the
    leftmost possible position, the one a backtracking matcher finds first
    (an alternation prefers its left branch, repetitions are greedy).  [run]
    is that backtracking matcher, in continuation-passing style: it matches
    [r] at the head of [s] and hands the rest of the text to [k], trying the
    next possibility when [k] fails.  [bot] tells whether the current
    position is the beginning of the text. *)
Fixpoint run (r : regex) (bot : bool) (s : string)
    (k : bool -> string -> option string) {struct r} : option string :=
  match r with
  | Empty => k bot s
  | Bol => if bot then k bot s else None
  | Class p =>
      match s with
      | String c s' => if p c then k false s' else None
      | EmptyString => None
      end
  | Cat r1 r2 => run r1 bot s (fun bot' s' => run r2 bot' s' k)
  | Alt r1 r2 =>
      match run r1 bot s k with
      | Some rest => Some rest
      | None => run r2 bot s k
      end
  | Star r1 => star_loop (run r1) k (String.length s) bot s
  end.

(** The match of [re] that starts at the head of [s], if any: what is left
    of [s] after it. *)
Definition match_prefix (re : regex) (bot : bool) (s : string) : option string :=
  run re bot s (fun _ rest => Some rest).

(** The loop of [Regexp.ReplaceAllString]: find the leftmost match from the
    current position, copy the text before it, write the replacement, go on
    after the match.  An empty match is replaced too, unless it directly
    follows another match, and the search then moves on by one character.
    [after_match] tells whether the previous match ended at the current
    position.  The replacement strings of [cluster.go] hold no [$], so they
    are written out literally. *)
Fixpoint replace_loop (fuel : nat) (re : regex) (repl : string)
    (bot after_match : bool) (s : string) : string :=
  match fuel with
  | O => s
  | S fuel' =>
      match match_prefix re bot s with
      | Some rest =>
          if (String.length rest <? String.length s)%nat
          then repl +:+ replace_loop fuel' re repl false true rest
          else
            (if after_match then "" else repl) +:+
            match s with
            | EmptyString => EmptyString
            | String c s' =>
                String c (replace_loop fuel' re repl false false s')
            end
      | None =>
          match s with
          | EmptyString => EmptyString
          | String c s' =>
              String c (replace_loop fuel' re repl false false s')
          end
      end
  end.

(** [re.ReplaceAllString(src, repl)] *)
Definition ReplaceAllString (re : regex) (src repl : string) : string :=
  replace_loop (S (String.length src)) re repl true false src.

(** [re.MatchString(s)]: whether [s] holds a match of [re], from the
    current position on. *)
Fixpoint match_from (re : regex) (bot : bool) (s : string) : bool :=
  match match_prefix re bot s with
  | Some _ => true
  | None =>
      match s with
      | EmptyString => false
      | String _ s' => match_from re false s'
      end
  end.

Definition MatchString (re : regex) (s : string) : bool := match_from re true s.

End go_regexp.

(** ** strings *)

(** [strings.ToLower], [strings.ToUpper] and [strings.TrimSpace] have a fast
    path for ASCII text, which is modelled in full, and fall back on the
    Unicode tables otherwise.  The tables are not part of the repository:
    the slow paths are the operations of this class. *)
Class GoUnicode : Type := {
  (** [strings.Map(unicode.ToLower, s)] *)
  Map_ToLower : string -> string;
  (** [strings.Map(unicode.ToUpper, s)] *)
  Map_ToUpper : string -> string;
  (** [strings.TrimFunc(s, unicode.IsSpace)] *)
  TrimFunc_IsSpace : string -> string;
  (** [strings.TrimRightFunc(s, unicode.IsSpace)] *)
  TrimRightFunc_IsSpace : string -> string
}.

Module go_strings.

Fixpoint map_bytes (f : ascii -> ascii) (s : string) : string :=
  match s with
  | EmptyString => EmptyString
  | String c s' => String (f c) (map_bytes f s')
  end.

Fixpoint all_bytes (p : ascii -> bool) (s : string) : bool :=
  match s with
  | EmptyString => true
  | String c s' => p c && all_bytes p s'
  end.

Definition is_ascii_byte (c : ascii) : bool := byte_val c <? go_utf8.RuneSelf.

Definition isASCII (s : string) : bool := all_bytes is_ascii_byte s.

Definition is_upper (c : ascii) : bool := ("A" <=? c)%char && (c <=? "Z")%char.
Definition is_lower (c : ascii) : bool := ("a" <=? c)%char && (c <=? "z")%char.

(** [c += 'a' - 'A'] and [c -= 'a' - 'A'] *)
Definition lower_byte (c : ascii) : ascii :=
  if is_upper c then ascii_of_N (N_of_ascii c + 32) else c.
Definition upper_byte (c : ascii) : ascii :=
  if is_lower c then ascii_of_N (N_of_ascii c - 32) else c.

Definition ToLower `{GoUnicode} (s : string) : string :=
  if isASCII s then map_bytes lower_byte s else Map_ToLower s.

Definition ToUpper `{GoUnicode} (s : string) : string :=
  if isASCII s then map_bytes upper_byte s else Map_ToUpper s.

(** The table [asciiSpace] of package strings:
    ['\t', '\n', '\v', '\f', '\r', ' ']. *)
Definition asciiSpace (c : ascii) : bool :=
  (c =? "009")%char || (c =? "010")%char || (c =? "011")%char
  || (c =? "012")%char || (c =? "013")%char || (c =? " ")%char.

(** [s] without its longest suffix of [asciiSpace] bytes. *)
Fixpoint drop_trailing_space (s : string) : string :=
  match s with
  | EmptyString => EmptyString
  | String c s' =>
      match drop_trailing_space s' with
      | EmptyString => if asciiSpace c then EmptyString else String c EmptyString
      | String _ _ as r => String c r
      end
  end.

Fixpoint last_byte (s : string) : option ascii :=
  match s with
  | EmptyString => None
  | String c EmptyString => Some c
  | String _ s' => last_byte s'
  end.

(** The second loop of [TrimSpace]: from the end, skip ASCII spaces; a
    non-ASCII byte hands over to [TrimRightFunc]. *)
Definition trim_right `{GoUnicode} (s : string) : string :=
  let r := drop_trailing_space s in
  match last_byte r with
  | Some c => if is_ascii_byte c then r else TrimRightFunc_IsSpace r
  | None => r
  end.

(** [strings.TrimSpace]: the first loop skips leading ASCII spaces; a
    non-ASCII byte hands over to [TrimFunc]. *)
Fixpoint TrimSpace `{GoUnicode} (s : string) : string :=
  match s with
  | EmptyString => EmptyString
  | String c s' =>
      if negb (is_ascii_byte c) then TrimFunc_IsSpace s
      else if asciiSpace c then TrimSpace s'
      else trim_right s
  end.

End go_strings.

(** ** crypto/sha256 and the [%x] verb of fmt *)

Module go_sha256.

(** Arithmetic on [uint32]. *)
Definition u32 (z : Z) : Z := z mod 2 ^ 32.

(** [bits.RotateLeft32(x, -n)] *)
Definition rotr (x n : Z) : Z :=
  Z.lor (Z.shiftr x n) (u32 (Z.shiftl x (32 - n))).

(** [^x] on [uint32] *)
Definition not32 (x : Z) : Z := Z.lxor x (2 ^ 32 - 1).

(** The constants of the algorithm are derived from the first primes
    (FIPS 180-4, 4.2.2 and 5.3.3): [_K] holds the first 32 bits of the
    fractional parts of the cube roots of the first 64 primes, the initial
    state those of the square roots of the first 8.  The known answers of
    [Sum256_known_answers] check them against the tables of Go. *)
Definition is_prime (n : nat) : bool :=
  forallb (fun d => negb (n mod d =? 0)%nat) (seq 2 (n - 2)).

Definition primes : list Z :=
  Eval vm_compute in map Z.of_nat (filter is_prime (seq 2 310)).

(** The integer cube root, bit by bit from the top. *)
Fixpoint cube_root (bits : nat) (n r : Z) : Z :=
  match bits with
  | O => r
  | S b =>
      let r' := r + 2 ^ Z.of_nat b in
      cube_root b n (if r' ^ 3 <=? n then r' else r)
  end.

Definition _K : list Z :=
  Eval vm_compute in map (fun p => u32 (cube_root 40 (p * 2 ^ 96) 0)) primes.

(** The state of a digest: [h0 .. h7]. *)
Definition state : Type := (Z * Z * Z * Z * Z * Z * Z * Z)%type.

Definition frac_sqrt (p : Z) : Z := u32 (Z.sqrt (p * 2 ^ 64)).

Definition init : state :=
  Eval vm_compute in
    (frac_sqrt 2, frac_sqrt 3, frac_sqrt 5, frac_sqrt 7,
     frac_sqrt 11, frac_sqrt 13, frac_sqrt 17, frac_sqrt 19).

(** The first 16 words of the schedule: the block read as big-endian
    [uint32]s. *)
Fixpoint block_words (p : list Z) : list Z :=
  match p with
  | b0 :: b1 :: b2 :: b3 :: p' =>
      Z.lor (Z.lor (Z.lor (Z.shiftl b0 24) (Z.shiftl b1 16)) (Z.shiftl b2 8)) b3
      :: block_words p'
  | _ => []
  end.

(** [w[i] = t1 + w[i-7] + t2 + w[i-16]] for the next [n] indices. *)
Fixpoint extend (n : nat) (w : list Z) : list Z :=
  match n with
  | O => w
  | S n' =>
      let i := length w in
      let v1 := nth (i - 2) w 0 in
      let t1 := Z.lxor (Z.lxor (rotr v1 17) (rotr v1 19)) (Z.shiftr v1 10) in
      let v2 := nth (i - 15) w 0 in
      let t2 := Z.lxor (Z.lxor (rotr v2 7) (rotr v2 18)) (Z.shiftr v2 3) in
      extend n' (w ++ [u32 (t1 + nth (i - 7) w 0 + t2 + nth (i - 16) w 0)])
  end.

(** One round of the compression loop. *)
Definition round (st : state) (kw : Z * Z) : state :=
  let '(a, b, c, d, e, f, g, h) := st in
  let '(k, w) := kw in
  let t1 :=
    u32 (h + Z.lxor (Z.lxor (rotr e 6) (rotr e 11)) (rotr e 25)
         + Z.lxor (Z.land e f) (Z.land (not32 e) g) + k + w) in
  let t2 :=
    u32 (Z.lxor (Z.lxor (rotr a 2) (rotr a 13)) (rotr a 22)
         + Z.lxor (Z.lxor (Z.land a b) (Z.land a c)) (Z.land b c)) in
  (u32 (t1 + t2), a, b, c, u32 (d + t1), e, f, g).

(** [blockGeneric] on one 64-byte chunk. *)
Definition block (dig : state) (p : list Z) : state :=
  let w := extend 48 (block_words p) in
  let '(h0, h1, h2, h3, h4, h5, h6, h7) := dig in
  let '(a, b, c, d, e, f, g, h) := fold_left round (combine _K w) dig in
  (u32 (h0 + a), u32 (h1 + b), u32 (h2 + c), u32 (h3 + d),
   u32 (h4 + e), u32 (h5 + f), u32 (h6 + g), u32 (h7 + h)).

Fixpoint blocks (fuel : nat) (dig : state) (p : list Z) : state :=
  match fuel with
  | O => dig
  | S fuel' =>
      match p with
      | [] => dig
      | _ => blocks fuel' (block dig (firstn 64 p)) (skipn 64 p)
      end
  end.

(** [binary.BigEndian.PutUint64] *)
Definition be_uint64 (v : Z) : list Z :=
  map (fun i => Z.shiftr v (8 * i) mod 256) [7; 6; 5; 4; 3; 2; 1; 0].

(** The padding of [checkSum]: a 1 bit, 0 bits up to 56 bytes mod 64, and
    the length in bits. *)
Definition padding (n : Z) : list Z :=
  let t := if n mod 64 <? 56 then 56 - n mod 64 else 64 + 56 - n mod 64 in
  128 :: repeat 0 (Z.to_nat (t - 1)) ++ be_uint64 ((n * 8) mod 2 ^ 64).

Definition be_uint32 (v : Z) : list ascii :=
  map (fun i => ascii_of_N (Z.to_N (Z.shiftr v (8 * i) mod 256))) [3; 2; 1; 0].

Fixpoint bytes_of (s : string) : list Z :=
  match s with
  | EmptyString => []
  | String c s' => byte_val c :: bytes_of s'
  end.

(** [sha256.Sum256(data)]: the 32 bytes of the checksum. *)
Definition Sum256 (data : string) : list ascii :=
  let p := bytes_of data ++ padding (len data) in
  let '(h0, h1, h2, h3, h4, h5, h6, h7) := blocks (length p) init p in
  be_uint32 h0 ++ be_uint32 h1 ++ be_uint32 h2 ++ be_uint32 h3
  ++ be_uint32 h4 ++ be_uint32 h5 ++ be_uint32 h6 ++ be_uint32 h7.

End go_sha256.

Module go_fmt.

(** The digits of the [%x] verb. *)
Definition ldigits : string := "0123456789abcdef".

Definition hex_digit (n : nat) : ascii :=
  match String.get n ldigits with
  | Some c => c
  | None => "0"%char
  end.

(** [fmt.Sprintf("%x", b)] for a byte array: two lower-case hexadecimal
    digits for every byte. *)
Fixpoint Sprintf_x (b : list ascii) : string :=
  match b with
  | [] => EmptyString
  | c :: b' =>
      String (hex_digit (nat_of_ascii c / 16))
        (String (hex_digit (nat_of_ascii c mod 16)) (Sprintf_x b'))
  end.

End go_fmt.

(** ** pkg/models *)

Module models.

(** A [float64] is a [spec_float]: a signed zero, a signed infinity, NaN,
    or a finite number [(-1)^s * m * 2^e].  The values of IEEE-754 binary64
    are those for which [valid_binary 53 1024] holds; comparisons are the
  IEEE ones ([SFltb], [SFleb]: false as soon as an operand is NaN). *)
Definition float64 : Type := spec_float.

Module LogLine.
Record t : Type := {
  Timestamp : Time;
  Message : string;
  Labels : gmap string string;
  Level : string
}.
End LogLine.

Module ErrorCluster.
Record t : Type := {
  ID : uuid;
  TenantID : uuid;
  Service : string;
  Namespace : string;
  Fingerprint : string;
  Level : string;
  FirstSeenAt : Time;
  LastSeenAt : Time;
  Count : Z;
  SampleMessage : string;
  CreatedAt : Time;
  UpdatedAt : Time
}.
End ErrorCluster.

Definition JobStatusPending : string := "pending".
Definition JobStatusRunning : string := "running".
Definition JobStatusCompleted : string := "completed".
Definition JobStatusFailed : string := "failed".

Module Job.
Record t : Type := {
  ID : uuid;
  TenantID : uuid;
  Type_ : string;
  Status : string;
  ClusterID : option uuid;
  ErrorMessage : option string;
  StartedAt : option Time;
  CompletedAt : option Time;
  CreatedAt : Time;
  UpdatedAt : Time
}.
End Job.

Module AnalysisResult.
Record t : Type := {
  ID : uuid;
  ClusterID : uuid;
  TenantID : uuid;
  JobID : uuid;
  Provider : string;
  Model : string;
  RootCause : string;
  Confidence : float64;
  Summary : string;
  SuggestedAction : option string;
  CreatedAt : Time
}.
End AnalysisResult.

Module AnalysisRequest.
Record t : Type := {
  Cluster : ErrorCluster.t;
  ContextLogs : list LogLine.t
}.
End AnalysisRequest.

(** [AIProvider] is the core interface that all AI integrations implement.
    An error of a provider is given by its message; the context handed to
    the calls (it carries the deadline) is left out: the outcome is what the
    call yields under it. *)
Module AIProvider.
Record t : Type := {
  Analyze : AnalysisRequest.t -> outcome string AnalysisResult.t;
  Summarize : list LogLine.t -> outcome string string;
  Name : string
}.
End AIProvider.

End models.

(** ** internal/analysis/cluster.go *)

Module analysis.

(** The loop of [truncateString]:
    [for maxBytes > 0 && !utf8.RuneStart(s[maxBytes]) { maxBytes-- }].
    An index outside the string is a run-time panic ([None]). *)
Fixpoint back_to_rune_start (s : string) (maxBytes : nat) : option nat :=
  match maxBytes with
  | O => Some O
  | S m =>
      match String.get maxBytes s with
      | None => None
      | Some b =>
          if go_utf8.RuneStart b then Some maxBytes
          else back_to_rune_start s m
      end
  end.

(** [truncateString] truncates [s] to [maxBytes] without splitting UTF-8
    runes.  With a negative [maxBytes] (and a longer [s]) the final
    [s[:maxBytes]] panics. *)
Definition truncateString (s : string) (maxBytes : Z) : option string :=
  if len s <=? maxBytes then Some s
  else if maxBytes <? 0 then None
  else
    match back_to_rune_start s (Z.to_nat maxBytes) with
    | Some n => Some (take n s)
    | None => None
    end.

(** The normalisation patterns, in the order of the source:
<<
reDatetime   = `^\d{4}-\d{2}-\d{2}[T ]\d{2}:\d{2}:\d{2}(\.\d+)?(Z|[+-]\d{2}:\d{2})?\s*`
reHexAddr    = `0x[0-9a-fA-F]+`
reUUID       = `(?i)[0-9a-f]{8}-[0-9a-f]{4}-[0-9a-f]{4}-[0-9a-f]{4}-[0-9a-f]{12}`
reBracketNum = `\[\d+\]`
reParenNum   = `\(\d+\)`
reWhitespace = `\s+`
>> *)
Import go_regexp.

Definition digit : regex := Class perl_d.

Definition is_hex (c : ascii) : bool :=
  perl_d c || ("a" <=? c)%char && (c <=? "f")%char
  || ("A" <=? c)%char && (c <=? "F")%char.

Definition hex : regex := Class is_hex.

(** The optional groups of [reDatetime]: [(\.\d+)?] and
    [(Z|[+-]\d{2}:\d{2})?]. *)
Definition fraction : regex := Opt (Seq [Lit "."; Plus digit]).

Definition offset : regex :=
  Seq [ Class (fun c => (c =? "+")%char || (c =? "-")%char);
        Rep 2 digit; Lit ":"; Rep 2 digit ].

Definition zone : regex := Opt (Alt (Lit "Z") offset).

Definition reDatetime : regex :=
  Seq [ Bol;
        Rep 4 digit; Lit "-"; Rep 2 digit; Lit "-"; Rep 2 digit;
        Class (fun c => (c =? "T")%char || (c =? " ")%char);
        Rep 2 digit; Lit ":"; Rep 2 digit; Lit ":"; Rep 2 digit;
        fraction; zone; Star (Class perl_s) ].

Definition reHexAddr : regex := Seq [Lit "0"; Lit "x"; Plus hex].

(** With [(?i)] the class [[0-9a-f]] also holds [A-F] (no other character
    folds onto these). *)
Definition reUUID : regex :=
  Seq [ Rep 8 hex; Lit "-"; Rep 4 hex; Lit "-"; Rep 4 hex; Lit "-";
        Rep 4 hex; Lit "-"; Rep 12 hex ].

Definition reBracketNum : regex := Seq [Lit "["; Plus digit; Lit "]"].
Definition reParenNum : regex := Seq [Lit "("; Plus digit; Lit ")"].
Definition reWhitespace : regex := Plus (Class perl_s).

(** [NormalizeMessage] applies all normalization rules to a log message.
    The bound 500 is not negative, so [truncateString] returns a string. *)
Definition NormalizeMessage `{GoUnicode} (msg : string) : string :=
  let msg := ReplaceAllString reDatetime msg "" in
  let msg := ReplaceAllString reHexAddr msg "0xADDR" in
  let msg := ReplaceAllString reUUID msg "UUID" in
  let msg := ReplaceAllString reBracketNum msg "[N]" in
  let msg := ReplaceAllString reParenNum msg "(N)" in
  let msg := ReplaceAllString reWhitespace msg " " in
  let msg := go_strings.ToLower msg in
  let msg := go_strings.TrimSpace msg in
  let msg := default msg (truncateString msg 500) in
  msg.

(** [Fingerprint] computes a stable SHA-256 fingerprint for a log message. *)
Definition Fingerprint `{GoUnicode} (message : string) : string :=
  let normalized := NormalizeMessage message in
  let hash := go_sha256.Sum256 normalized in
  go_fmt.Sprintf_x hash.

Import models.

(** [LevelSeverity] maps a log level string to a numeric severity. *)
Definition LevelSeverity `{GoUnicode} (level : string) : Z :=
  let u := go_strings.ToUpper level in
  if String.eqb u "FATAL" then 4
  else if String.eqb u "CRITICAL" then 3
  else if String.eqb u "ERROR" then 2
  else if String.eqb u "WARN" || String.eqb u "WARNING" then 1
  else 0.

Definition timeFromNano (ns : Z) : Time := ns.

(** The local type [clusterState] of [Cluster]. *)
Record clusterState : Type := {
  fingerprint : string;
  level : string;
  count : Z;
  firstSeen : Z;
  lastSeen : Z;
  sampleMessage : string
}.

(** The body of the loop over [lines]: look the fingerprint up, open a group
    when there is none, then update the group in place. *)
Definition observe `{GoUnicode} (groups : gmap string clusterState)
    (line : LogLine.t) : gmap string clusterState :=
  let fp := Fingerprint (LogLine.Message line) in
  let cs :=
    match groups !! fp with
    | Some cs => cs
    | None =>
        {| fingerprint := fp;
           level := LogLine.Level line;
           count := 0;
           firstSeen := UnixNano (LogLine.Timestamp line);
           lastSeen := UnixNano (LogLine.Timestamp line);
           sampleMessage :=
             default (LogLine.Message line)
               (truncateString (LogLine.Message line) 2000) |}
    end in
  let ts := UnixNano (LogLine.Timestamp line) in
  <[ fp :=
       {| fingerprint := fingerprint cs;
          level :=
            if LevelSeverity (level cs) <? LevelSeverity (LogLine.Level line)
            then LogLine.Level line else level cs;
          count := wrap64 (count cs + 1);
          firstSeen := if ts <? firstSeen cs then ts else firstSeen cs;
          lastSeen := if lastSeen cs <? ts then ts else lastSeen cs;
          sampleMessage := sampleMessage cs |} ]> groups.

(** The loop that turns the groups into clusters; the [n]-th cluster gets
    the [n]-th value of [uuid.New].  The fields the literal leaves out keep
    their zero values. *)
Fixpoint build `{GoRuntime} (service namespace : string) (n : nat)
    (groups : list (string * clusterState)) : list ErrorCluster.t :=
  match groups with
  | [] => []
  | (_, cs) :: rest =>
      {| ErrorCluster.ID := uuid_New n;
         ErrorCluster.TenantID := uuid_Nil;
         ErrorCluster.Service := service;
         ErrorCluster.Namespace := namespace;
         ErrorCluster.Fingerprint := fingerprint cs;
         ErrorCluster.Level := level cs;
         ErrorCluster.FirstSeenAt := timeFromNano (firstSeen cs);
         ErrorCluster.LastSeenAt := timeFromNano (lastSeen cs);
         ErrorCluster.Count := count cs;
         ErrorCluster.SampleMessage := sampleMessage cs;
         ErrorCluster.CreatedAt := Time_zero;
         ErrorCluster.UpdatedAt := Time_zero |}
      :: build service namespace (S n) rest
  end.

(** The [less] function handed to [sort.Slice]. *)
Definition less `{GoUnicode} (ci cj : ErrorCluster.t) : bool :=
  if negb (ErrorCluster.Count ci =? ErrorCluster.Count cj)
  then ErrorCluster.Count cj <? ErrorCluster.Count ci
  else LevelSeverity (ErrorCluster.Level cj) <? LevelSeverity (ErrorCluster.Level ci).

(** [Cluster] groups log lines into deduplicated ErrorClusters by
    fingerprint; [lines] is given by its elements (a nil and an empty slice
    both have length 0). *)
Definition Cluster `{GoUnicode} `{GoRuntime} (lines : list LogLine.t)
    (service namespace : string) : slice ErrorCluster.t :=
  if (length lines =? 0)%nat then mk_slice []
  else
    let groups := fold_left observe lines (∅ : gmap string clusterState) in
    let clusters := build service namespace 0 (map_range (map_to_list groups)) in
    mk_slice (go_sort.Slice less clusters).

End analysis.

(** ** package store: the PostgreSQL store *)

Module store.
Import models.

(** Errors: the two sentinels of [store.go], the errors built with
    [fmt.Errorf], and the errors of the database wrapped with a context
    ([fmt.Errorf("...: %w", err)]). *)
Inductive pg_error : Type :=
| check_violation
| unique_violation
| foreign_key_violation
| numeric_value_out_of_range.

Inductive error : Type :=
| ErrNotFound
| ErrDuplicateKey
| Errorf (msg : string)
| Wrap (context : string) (cause : pg_error).

(** The text of a database error, for which its SQLSTATE code stands. *)
Definition pg_text (e : pg_error) : string :=
  match e with
  | check_violation => "SQLSTATE 23514"
  | unique_violation => "SQLSTATE 23505"
  | foreign_key_violation => "SQLSTATE 23503"
  | numeric_value_out_of_range => "SQLSTATE 22003"
  end.

(** [err.Error()] *)
Definition Error (e : error) : string :=
  match e with
  | ErrNotFound => "resource not found"
  | ErrDuplicateKey => "duplicate key violation"
  | Errorf msg => msg
  | Wrap context cause => context +:+ ": " +:+ pg_text cause
  end.

(** [jobUpdateParams] and the functional options that fill it. *)
Record jobUpdateParams : Type := {
  ErrorMessage : option string;
  ClusterID : option uuid
}.

Definition JobUpdateOption : Type := jobUpdateParams -> jobUpdateParams.

Definition WithErrorMessage (msg : string) : JobUpdateOption :=
  fun p => {| ErrorMessage := Some msg; ClusterID := ClusterID p |}.

Definition WithClusterID (id : uuid) : JobUpdateOption :=
  fun p => {| ErrorMessage := ErrorMessage p; ClusterID := Some id |}.

(** The state of the database, for the three tables the operations below
    touch.  [error_clusters] is keyed by its composite unique index
    [(tenant_id, service, namespace, fingerprint)], [jobs] by its primary
    key.  Timestamps are taken at the resolution of the columns
    (microseconds), as the tests of the store do; references to tables that
    are not modelled (tenants) and the length limits of the columns are
    taken to hold, and the connection to be up. *)
Definition cluster_key : Type := (uuid * string * string * string)%type.

Record PostgresStore : Type := {
  error_clusters : gmap cluster_key ErrorCluster.t;
  analysis_results : list AnalysisResult.t;
  jobs : gmap uuid Job.t
}.

Definition key_of (c : ErrorCluster.t) : cluster_key :=
  (ErrorCluster.TenantID c, ErrorCluster.Service c,
   ErrorCluster.Namespace c, ErrorCluster.Fingerprint c).

(** The column constraints of [error_clusters]:
    [level VARCHAR(16) CHECK (level IN ('ERROR','WARN','FATAL','CRITICAL'))]
    and [count INTEGER]. *)
Definition level_check (l : string) : bool :=
  existsb (String.eqb l) ["ERROR"; "WARN"; "FATAL"; "CRITICAL"].

Definition int4 (z : Z) : bool := (- 2 ^ 31 <=? z) && (z <=? 2 ^ 31 - 1).

Definition cluster_ids (s : PostgresStore) : list uuid :=
  map (fun kc => ErrorCluster.ID (snd kc)) (map_to_list (error_clusters s)).

Definition cluster_exists (s : PostgresStore) (id : uuid) : bool :=
  existsb (N.eqb id) (cluster_ids s).

Definition set_error_clusters (s : PostgresStore)
    (m : gmap cluster_key ErrorCluster.t) : PostgresStore :=
  {| error_clusters := m;
     analysis_results := analysis_results s;
     jobs := jobs s |}.

(** [UpsertErrorCluster]:
<<
INSERT INTO error_clusters (id, tenant_id, service, namespace, fingerprint,
    level, first_seen_at, last_seen_at, count, sample_message, created_at, updated_at)
VALUES ($1, ..., $12)
ON CONFLICT (tenant_id, service, namespace, fingerprint) DO UPDATE SET
  count = error_clusters.count + EXCLUDED.count,
  last_seen_at = GREATEST(error_clusters.last_seen_at, EXCLUDED.last_seen_at),
  updated_at = NOW()
RETURNING id, tenant_id, ..., updated_at
>>
    The proposed row goes through the column constraints first; on a
    conflict the stored row is updated and returned, otherwise the proposed
    row is inserted (its [id] is the primary key) and returned.  [now] is
    the database's [NOW()]. *)
Definition UpsertErrorCluster (s : PostgresStore) (now : Time)
    (cluster : ErrorCluster.t) : PostgresStore * (ErrorCluster.t + error) :=
  if negb (level_check (ErrorCluster.Level cluster))
  then (s, inr (Wrap "upsert error cluster" check_violation))
  else if negb (int4 (ErrorCluster.Count cluster))
  then (s, inr (Wrap "upsert error cluster" numeric_value_out_of_range))
  else
    match error_clusters s !! key_of cluster with
    | Some row =>
        let count := ErrorCluster.Count row + ErrorCluster.Count cluster in
        if negb (int4 count)
        then (s, inr (Wrap "upsert error cluster" numeric_value_out_of_range))
        else
          let result :=
            {| ErrorCluster.ID := ErrorCluster.ID row;
               ErrorCluster.TenantID := ErrorCluster.TenantID row;
               ErrorCluster.Service := ErrorCluster.Service row;
               ErrorCluster.Namespace := ErrorCluster.Namespace row;
               ErrorCluster.Fingerprint := ErrorCluster.Fingerprint row;
               ErrorCluster.Level := ErrorCluster.Level row;
               ErrorCluster.FirstSeenAt := ErrorCluster.FirstSeenAt row;
               ErrorCluster.LastSeenAt :=
                 Z.max (ErrorCluster.LastSeenAt row)
                       (ErrorCluster.LastSeenAt cluster);
               ErrorCluster.Count := count;
               ErrorCluster.SampleMessage := ErrorCluster.SampleMessage row;
               ErrorCluster.CreatedAt := ErrorCluster.CreatedAt row;
               ErrorCluster.UpdatedAt := now |} in
          (set_error_clusters s (<[key_of cluster := result]> (error_clusters s)),
           inl result)
    | None =>
        if cluster_exists s (ErrorCluster.ID cluster)
        then (s, inr (Wrap "upsert error cluster" unique_violation))
        else
          (set_error_clusters s (<[key_of cluster := cluster]> (error_clusters s)),
           inl cluster)
    end.

(** [validTransitions] *)
Definition validTransitions : gmap string (list string) :=
  {[ "pending" := ["running"]; "running" := ["completed"; "failed"] ]}.

(** The loop that looks [status] up in [allowed]. *)
Fixpoint contains (allowed : list string) (status : string) : bool :=
  match allowed with
  | [] => false
  | a :: rest => if String.eqb a status then true else contains rest status
  end.

Definition set_jobs (s : PostgresStore) (m : gmap uuid Job.t) : PostgresStore :=
  {| error_clusters := error_clusters s;
     analysis_results := analysis_results s;
     jobs := m |}.

(** [UpdateJobStatus]: read the current status, validate the transition,
    then
<<
UPDATE jobs SET status = $2, updated_at = $3 [, started_at = $n]
    [, completed_at = $n] [, error_message = $n] [, cluster_id = $n] WHERE id = $1
>>
    ([cluster_id] references [error_clusters(id)]).  [now] is
    [time.Now().UTC()]; [None] is the nil error. *)
Definition UpdateJobStatus (s : PostgresStore) (now : Time) (id : uuid)
    (status : string) (opts : list JobUpdateOption)
    : PostgresStore * option error :=
  let params :=
    fold_left (fun p opt => opt p) opts
      {| ErrorMessage := None; ClusterID := None |} in
  match jobs s !! id with
  | None => (s, Some ErrNotFound)
  | Some job =>
      let currentStatus := Job.Status job in
      let allowed := default [] (validTransitions !! currentStatus) in
      if negb (contains allowed status)
      then
        (s, Some (Errorf ("invalid job status transition: " +:+ currentStatus
                          +:+ " -> " +:+ status)))
      else
        let references_ok :=
          match ClusterID params with
          | Some cid => cluster_exists s cid
          | None => true
          end in
        if negb references_ok
        then (s, Some (Wrap "update job status" foreign_key_violation))
        else
          let job' :=
            {| Job.ID := Job.ID job;
               Job.TenantID := Job.TenantID job;
               Job.Type_ := Job.Type_ job;
               Job.Status := status;
               Job.ClusterID :=
                 match ClusterID params with
                 | Some cid => Some cid
                 | None => Job.ClusterID job
                 end;
               Job.ErrorMessage :=
                 match ErrorMessage params with
                 | Some msg => Some msg
                 | None => Job.ErrorMessage job
                 end;
               Job.StartedAt :=
                 if String.eqb status "running" then Some now
                 else Job.StartedAt job;
               Job.CompletedAt :=
                 if String.eqb status "completed" || String.eqb status "failed"
                 then Some now
                 else Job.CompletedAt job;
               Job.CreatedAt := Job.CreatedAt job;
               Job.UpdatedAt := now |} in
          (set_jobs s (<[id := job']> (jobs s)), None)
  end.

(** PostgreSQL orders [float8] values with NaN equal to itself and above
    every other value. *)
Definition float8_cmp (a b : float64) : comparison :=
  match a, b with
  | S754_nan, S754_nan => Eq
  | S754_nan, _ => Gt
  | _, S754_nan => Lt
  | _, _ => default Eq (SFcompare a b)
  end.

Definition float8_ge (a b : float64) : bool :=
  match float8_cmp a b with Lt => false | _ => true end.

Definition float8_le (a b : float64) : bool :=
  match float8_cmp a b with Gt => false | _ => true end.

Definition float8_zero : float64 := S754_zero false.
Definition float8_one : float64 := S754_finite false (2 ^ 52) (-52).

(** [CHECK (confidence >= 0.0 AND confidence <= 1.0)] of
    [analysis_results]. *)
Definition confidence_check (c : float64) : bool :=
  float8_ge c float8_zero && float8_le c float8_one.

Definition set_analysis_results (s : PostgresStore)
    (l : list AnalysisResult.t) : PostgresStore :=
  {| error_clusters := error_clusters s;
     analysis_results := l;
     jobs := jobs s |}.

(** [CreateAnalysisResult]:
<<
INSERT INTO analysis_results (id, cluster_id, tenant_id, job_id, provider,
    model, root_cause, confidence, summary, suggested_action, created_at)
VALUES ($1, ..., $11)
>>
    under the constraints of the table: the check on [confidence], the
    primary key [id], [job_id UNIQUE], and [cluster_id REFERENCES
    error_clusters(id)]. *)
Definition CreateAnalysisResult (s : PostgresStore) (result : AnalysisResult.t)
    : PostgresStore * option error :=
  if negb (confidence_check (AnalysisResult.Confidence result))
  then (s, Some (Wrap "create analysis result" check_violation))
  else if existsb
            (fun r =>
               N.eqb (AnalysisResult.ID r) (AnalysisResult.ID result)
               || N.eqb (AnalysisResult.JobID r) (AnalysisResult.JobID result))
            (analysis_results s)
  then (s, Some (Wrap "create analysis result" unique_violation))
  else if negb (cluster_exists s (AnalysisResult.ClusterID result))
  then (s, Some (Wrap "create analysis result" foreign_key_violation))
  else (set_analysis_results s (analysis_results s ++ [result]), None).

(** [status VARCHAR(16) CHECK (status IN
    ('pending','running','completed','failed'))] of [jobs]. *)
Definition status_check (st : string) : bool :=
  existsb (String.eqb st) ["pending"; "running"; "completed"; "failed"].

(** [CreateJob]:
<<
INSERT INTO jobs (id, tenant_id, type, status, cluster_id, created_at, updated_at)
VALUES ($1, ..., $7)
>>
    under the constraints of the table: the check on [status], the primary
    key [id], and [cluster_id REFERENCES error_clusters(id)] (a nil
    [ClusterID] is NULL, which references nothing).  The columns the
    statement does not name ([error_message], [started_at],
    [completed_at]) are NULL in the new row. *)
Definition CreateJob (s : PostgresStore) (job : Job.t)
    : PostgresStore * option error :=
  if negb (status_check (Job.Status job))
  then (s, Some (Wrap "create job" check_violation))
  else
    match jobs s !! Job.ID job with
    | Some _ => (s, Some (Wrap "create job" unique_violation))
    | None =>
        let references_ok :=
          match Job.ClusterID job with
          | Some cid => cluster_exists s cid
          | None => true
          end in
        if negb references_ok
        then (s, Some (Wrap "create job" foreign_key_violation))
        else
          let row :=
            {| Job.ID := Job.ID job;
               Job.TenantID := Job.TenantID job;
               Job.Type_ := Job.Type_ job;
               Job.Status := Job.Status job;
               Job.ClusterID := Job.ClusterID job;
               Job.ErrorMessage := None;
               Job.StartedAt := None;
               Job.CompletedAt := None;
               Job.CreatedAt := Job.CreatedAt job;
               Job.UpdatedAt := Job.UpdatedAt job |} in
          (set_jobs s (<[Job.ID job := row]> (jobs s)), None)
    end.


(** [GetErrorCluster]:
    [SELECT ... FROM error_clusters WHERE id = $1 AND tenant_id = $2]
    ([id] is the primary key: at most one row has it). *)
Definition GetErrorCluster (s : PostgresStore) (id tenantID : uuid)
    : ErrorCluster.t + error :=
  match
    filter
      (fun c => N.eqb (ErrorCluster.ID c) id
                && N.eqb (ErrorCluster.TenantID c) tenantID)
      (map snd (map_to_list (error_clusters s)))
  with
  | c :: _ => inl c
  | [] => inr ErrNotFound
  end.


(** What the database decides: the order in which a query returns the rows
    that its [ORDER BY] clause, if it has one, does not order (some
    permutation of them, which may change from one query to the next). *)
Class Postgres : Type := {
  scan : forall {A : Type}, list A -> list A;
  scan_perm : forall A (l : list A), Permutation (scan l) l
}.

(** A text the database takes as a parameter: valid UTF-8 without a zero
    byte (else SQLSTATE 22021). *)
Definition valid_text (s : string) : bool :=
  go_utf8.ValidString s
  && go_strings.all_bytes (fun b => negb (b =? "000")%char) s.



(** The rows of [error_clusters]. *)
Definition cluster_rows (s : PostgresStore) : list ErrorCluster.t :=
  map snd (map_to_list (error_clusters s)).





(** [GetClustersByFingerprints]:
    [SELECT ... FROM error_clusters WHERE tenant_id = $1 AND fingerprint = ANY($2)];
    without fingerprints it returns an empty slice and asks nothing; the
    database refuses a fingerprint that is not valid text. *)
Definition GetClustersByFingerprints `{Postgres} (s : PostgresStore)
    (tenantID : uuid) (fingerprints : list string)
    : slice ErrorCluster.t * option error :=
  if (length fingerprints =? 0)%nat then (mk_slice [], None)
  else if negb (forallb valid_text fingerprints)
  then (nil_slice, Some (Errorf "get clusters by fingerprints: SQLSTATE 22021"))
  else
    (appended
       (scan
          (List.filter
             (fun c =>
                N.eqb (ErrorCluster.TenantID c) tenantID
                && existsb (String.eqb (ErrorCluster.Fingerprint c))
                     fingerprints)
             (cluster_rows s))),
     None).

End store.

(** ** pkg/logql and the log backend client *)

Module logql.

Record DetectionParams : Type := {
  DetectionParams_Service : string;
  DetectionParams_Namespace : string;
  DetectionParams_Levels : list string
}.

Record SearchParams : Type := {
  SearchParams_Service : string;
  SearchParams_Namespace : string;
  SearchParams_Levels : list string;
  SearchParams_Keyword : string
}.

Definition buildSelector (service namespace : string) : string :=
  if negb (String.eqb namespace "")
  then "{service=" +:+ dquote +:+ service +:+ dquote +:+ ", namespace="
       +:+ dquote +:+ namespace +:+ dquote +:+ "}"
  else "{service=" +:+ dquote +:+ service +:+ dquote +:+ "}".

Definition buildLevelFilter `{GoUnicode} (levels : list string) : string :=
  if (length levels =? 0)%nat then ""
  else
    "| level =~ " +:+ dquote +:+ "(?i)("
    +:+ Join (map go_strings.ToLower levels) "|" +:+ ")" +:+ dquote.

Definition buildKeywordFilter (keyword : string) : string :=
  if String.eqb keyword "" then ""
  else "|= " +:+ backtick +:+ keyword +:+ backtick.

Definition nonempty (part : string) : list string :=
  if String.eqb part "" then [] else [part].

(** [BuildDetectionQuery] returns a LogQL query for error/warning
    detection. *)
Definition BuildDetectionQuery `{GoUnicode} (p : DetectionParams) : string :=
  Join
    ([buildSelector (DetectionParams_Service p) (DetectionParams_Namespace p)]
     ++ nonempty (buildLevelFilter (DetectionParams_Levels p)))
    " ".

(** [BuildSearchQuery] returns a LogQL query for smart search. *)
Definition BuildSearchQuery `{GoUnicode} (p : SearchParams) : string :=
  Join
    ([buildSelector (SearchParams_Service p) (SearchParams_Namespace p)]
     ++ nonempty (buildKeywordFilter (SearchParams_Keyword p))
     ++ nonempty (buildLevelFilter (SearchParams_Levels p)))
    " ".

End logql.

Module loki.

Record QueryRangeRequest : Type := {
  Query : string;
  Start : Time;
  End_ : Time;
  Limit : Z;
  Direction : string
}.

(** The one method of [loki.Client] the service calls; an error is given by
    its message. *)
Definition Client : Type :=
  QueryRangeRequest -> outcome string (list models.LogLine.t).

End loki.

(** ** strconv.ParseInt and the HTTP client of the log backend *)

Module go_strconv.

Inductive NumError : Type :=
| ErrSyntax
| ErrRange.

Definition maxUint64 : Z := 2 ^ 64 - 1.

(** The loop of [ParseUint(s, 10, 64)] over the bytes of [s], [n] being
    the number read so far: a byte that is not a decimal digit ends it
    with a syntax error (a letter is a digit of 10 or more, which base 10
    has not), and a number that leaves 64 bits with a range error and the
    largest value. *)
Fixpoint digits (s : string) (n : Z) : Z * option NumError :=
  match s with
  | EmptyString => (n, None)
  | String c s' =>
      if negb (go_regexp.perl_d c) then (0, Some ErrSyntax)
      else
        let d := Z.of_N (N_of_ascii c) - 48 in
        let cutoff := maxUint64 / 10 + 1 in
        if cutoff <=? n then (maxUint64, Some ErrRange)
        else
          let n := (n * 10) mod 2 ^ 64 in
          let n1 := (n + d) mod 2 ^ 64 in
          if (n1 <? n) || (maxUint64 <? n1) then (maxUint64, Some ErrRange)
          else digits s' n1
  end.

(** [strconv.ParseUint(s, 10, 64)] *)
Definition ParseUint (s : string) : Z * option NumError :=
  if String.eqb s "" then (0, Some ErrSyntax) else digits s 0.

(** [strconv.ParseInt(s, 10, 64)]: an optional sign, then the digits; a
    number out of the range of [int64] comes back as the nearest bound,
    with a range error. *)
Definition ParseInt (s : string) : Z * option NumError :=
  match s with
  | EmptyString => (0, Some ErrSyntax)
  | String c rest =>
      let neg := (c =? "-")%char in
      let s := if (c =? "+")%char || (c =? "-")%char then rest else s in
      match ParseUint s with
      | (_, Some ErrSyntax) => (0, Some ErrSyntax)
      | (un, _) =>
          let cutoff := 2 ^ 63 in
          if negb neg && (cutoff <=? un) then (cutoff - 1, Some ErrRange)
          else if neg && (cutoff <? un) then (- cutoff, Some ErrRange)
          else
            let n := wrap64 un in
            (if neg then wrap64 (- n) else n, None)
      end
  end.

End go_strconv.

Module loki_http.
Import models.

(** [lokiStream]: the labels of a stream and its entries, each a time
    stamp in nanoseconds, written in decimal, and a line. *)
Record lokiStream : Type := {
  Stream : gmap string string;
  Values : list (string * string)
}.

(** [parseStreams] converts Loki stream results into LogLine slices; the
    error of [ParseInt] is dropped, and the slice is never nil. *)
Definition parseStreams (streams : list lokiStream) : slice LogLine.t :=
  let lines :=
    fold_left
      (fun lines stream =>
         let level := default "" (Stream stream !! "level") in
         fold_left
           (fun lines v =>
              let ts := fst (go_strconv.ParseInt (fst v)) in
              lines
              ++ [{| LogLine.Timestamp := ts;
                     LogLine.Message := snd v;
                     LogLine.Labels := Stream stream;
                     LogLine.Level := level |}])
           (Values stream) lines)
      streams [] in
  let lines := appended lines in
  if is_nil lines then mk_slice [] else lines.

End loki_http.

(** ** package cache *)

Module cache.

(** The two operations of the [Cache] interface that the code modelled here
    calls, over the state [C] of an implementation.  An error is given by
    its message; [None] is the nil error. *)
Class Cache (C : Type) : Type := {
  SetJobStatus : C -> uuid -> string -> Z -> C * option string;
  IncrWithExpiry : C -> string -> Z -> C * (Z * option string)
}.

(** [RateLimitKey] *)
Definition RateLimitKey (keyPrefix : string) : string :=
  "ratelimit:" +:+ keyPrefix.

(** A Redis value: a string, or a string that holds a 64-bit integer. *)
Inductive value : Type :=
| Str (s : string)
| Int (n : Z).

(** The state of the Redis server behind [RedisCache]: the values of the
    keys with their time to live; job statuses are kept by job (the key is
    [JobStatusKey(jobID)]). *)
Record RedisCache : Type := {
  keys : gmap string (value * Z);
  job_status : gmap uuid (string * Z)
}.

Definition Redis_SetJobStatus (c : RedisCache) (jobID : uuid) (status : string)
    (ttl : Z) : RedisCache * option string :=
  ({| keys := keys c; job_status := <[jobID := (status, ttl)]> (job_status c) |},
   None).

(** [IncrWithExpiry]: [INCR key] and [EXPIRE key expiry] in one
    transaction.  [INCR] starts a missing key at 0 and refuses a value that
    is not an integer or that would overflow. *)
Definition Redis_IncrWithExpiry (c : RedisCache) (key : string) (expiry : Z)
    : RedisCache * (Z * option string) :=
  let current :=
    match keys c !! key with
    | None => Some 0
    | Some (Int n, _) => Some n
    | Some (Str _, _) => None
    end in
  match current with
  | None => (c, (0, Some "ERR value is not an integer or out of range"))
  | Some n =>
      if max_int64 <=? n
      then (c, (0, Some "ERR increment or decrement would overflow"))
      else
        ({| keys := <[key := (Int (n + 1), expiry)]> (keys c);
            job_status := job_status c |},
         (n + 1, None))
  end.

#[global] Instance RedisCache_Cache : Cache RedisCache :=
  {| SetJobStatus := Redis_SetJobStatus;
     IncrWithExpiry := Redis_IncrWithExpiry |}.

End cache.

(** ** internal/ai/service.go *)

Module ai.

(** The package has its own copy of [truncateString], the same function
    body as in [internal/analysis/cluster.go]. *)
Fixpoint back_to_rune_start (s : string) (maxBytes : nat) : option nat :=
  match maxBytes with
  | O => Some O
  | S m =>
      match String.get maxBytes s with
      | None => None
      | Some b =>
          if go_utf8.RuneStart b then Some maxBytes
          else back_to_rune_start s m
      end
  end.

Definition truncateString (s : string) (maxBytes : Z) : option string :=
  if len s <=? maxBytes then Some s
  else if maxBytes <? 0 then None
  else
    match back_to_rune_start s (Z.to_nat maxBytes) with
    | Some n => Some (take n s)
    | None => None
    end.

Import models.

(** The sentinel [ErrNoLogsFound], the errors of the collaborators (given
    by their message) and the errors built with [fmt.Errorf("...: %w")]. *)
Inductive error : Type :=
| ErrNoLogsFound
| External (msg : string)
| Wrapf (context : string) (cause : error).

Record SummarizeParams : Type := {
  SummarizeParams_TenantID : uuid;
  SummarizeParams_Service : string;
  SummarizeParams_Namespace : string;
  SummarizeParams_Start : Time;
  SummarizeParams_End : Time;
  SummarizeParams_MaxLines : Z
}.

Record SummarizeResult : Type := {
  Summary : string;
  LinesAnalyzed : Z;
  From : Time;
  To : Time;
  Provider : string;
  Model : string
}.

(** [AnalysisService]: the provider, the log backend client and the
    inference timeout.  The store and the cache are the state the
    operations below run on. *)
Record AnalysisService : Type := {
  provider : AIProvider.t;
  loki_ : loki.Client;
  timeout : Z
}.

(** What a run of [runAnalysis] works on: the database and the cache. *)
Record world (C : Type) : Type := {
  db : store.PostgresStore;
  ca : C
}.
Arguments db {C} w.
Arguments ca {C} w.

(** The values [time.Now()] and [uuid.New()] yield during a run of
    [runAnalysis]: the time of the transition to running, the identifier
    and the creation time of the result, the time of the last
    transition. *)
Record draws : Type := {
  now_running : Time;
  result_id : uuid;
  now_result : Time;
  now_last : Time
}.

Definition float_zero : float64 := S754_zero false.
Definition float_one : float64 := S754_finite false (2 ^ 52) (-52).

(** The clamp of [runAnalysis]:
<<
if result.Confidence < 0 { result.Confidence = 0 }
if result.Confidence > 1.0 { result.Confidence = 1.0 }
>> *)
Definition clamp (confidence : float64) : float64 :=
  let confidence :=
    if SFltb confidence float_zero then float_zero else confidence in
  if SFltb float_one confidence then float_one else confidence.

(** A status update as [runAnalysis] does it: the store first, then the
    cache, with both errors dropped. *)
Definition mark {C} `{cache.Cache C} (w : world C) (now : Time) (jobID : uuid)
    (status : string) (opts : list store.JobUpdateOption) : world C :=
  {| db := fst (store.UpdateJobStatus (db w) now jobID status opts);
     ca := fst (cache.SetJobStatus (ca w) jobID status (30 * Minute)) |}.

(** The result as it is handed to the store: confidence clamped, texts
    truncated (the bounds are not negative, so [truncateString] returns a
    string), identifiers and creation time filled in. *)
Definition prepare (s : AnalysisService) (d : draws) (cluster : ErrorCluster.t)
    (jobID tenantID : uuid) (result : AnalysisResult.t) : AnalysisResult.t :=
  {| AnalysisResult.ID := result_id d;
     AnalysisResult.ClusterID := ErrorCluster.ID cluster;
     AnalysisResult.TenantID := tenantID;
     AnalysisResult.JobID := jobID;
     AnalysisResult.Provider := AIProvider.Name (provider s);
     AnalysisResult.Model := AnalysisResult.Model result;
     AnalysisResult.RootCause :=
       default (AnalysisResult.RootCause result)
         (truncateString (AnalysisResult.RootCause result) 4000);
     AnalysisResult.Confidence := clamp (AnalysisResult.Confidence result);
     AnalysisResult.Summary :=
       default (AnalysisResult.Summary result)
         (truncateString (AnalysisResult.Summary result) 2000);
     AnalysisResult.SuggestedAction := AnalysisResult.SuggestedAction result;
     AnalysisResult.CreatedAt := now_result d |}.

(** [runAnalysis] performs the actual AI analysis in a goroutine.  A panic
    of a collaborator is recovered by the deferred function, which marks the
    job as failed. *)
Definition runAnalysis {C} `{cache.Cache C} `{GoUnicode} (s : AnalysisService)
    (d : draws) (cluster : ErrorCluster.t) (jobID tenantID : uuid)
    (w : world C) : world C :=
  let w := mark w (now_running d) jobID JobStatusRunning [] in
  let query :=
    logql.BuildDetectionQuery
      {| logql.DetectionParams_Service := ErrorCluster.Service cluster;
         logql.DetectionParams_Namespace := ErrorCluster.Namespace cluster;
         logql.DetectionParams_Levels := [] |} in
  match
    loki_ s
      {| loki.Query := query;
         loki.Start := Time_Add (ErrorCluster.FirstSeenAt cluster) (-5 * Minute);
         loki.End_ := Time_Add (ErrorCluster.LastSeenAt cluster) (5 * Minute);
         loki.Limit := 1000;
         loki.Direction := "" |}
  with
  | panics v =>
      mark w (now_last d) jobID JobStatusFailed
        [store.WithErrorMessage ("panic: " +:+ v)]
  | fails err =>
      mark w (now_last d) jobID JobStatusFailed
        [store.WithErrorMessage ("fetching logs: " +:+ err)]
  | returns logs =>
      match
        AIProvider.Analyze (provider s)
          {| AnalysisRequest.Cluster := cluster;
             AnalysisRequest.ContextLogs := logs |}
      with
      | panics v =>
          mark w (now_last d) jobID JobStatusFailed
            [store.WithErrorMessage ("panic: " +:+ v)]
      | fails err =>
          mark w (now_last d) jobID JobStatusFailed [store.WithErrorMessage err]
      | returns result =>
          let result := prepare s d cluster jobID tenantID result in
          match store.CreateAnalysisResult (db w) result with
          | (db', Some err) =>
              mark {| db := db'; ca := ca w |} (now_last d) jobID JobStatusFailed
                [store.WithErrorMessage ("storing result: " +:+ store.Error err)]
          | (db', None) =>
              mark {| db := db'; ca := ca w |} (now_last d) jobID
                JobStatusCompleted
                [store.WithClusterID (ErrorCluster.ID cluster)]
          end
      end
  end.

Definition truncate_message (line : LogLine.t) : LogLine.t :=
  {| LogLine.Timestamp := LogLine.Timestamp line;
     LogLine.Message :=
       default (LogLine.Message line) (truncateString (LogLine.Message line) 500);
     LogLine.Labels := LogLine.Labels line;
     LogLine.Level := LogLine.Level line |}.

(** [Summarize] fetches logs from Loki and sends them to the AI provider
    for summarization.  Nothing recovers a panic here. *)
Definition Summarize `{GoUnicode} (s : AnalysisService) (params : SummarizeParams)
    : outcome error SummarizeResult :=
  let query :=
    logql.BuildSearchQuery
      {| logql.SearchParams_Service := SummarizeParams_Service params;
         logql.SearchParams_Namespace := SummarizeParams_Namespace params;
         logql.SearchParams_Levels := [];
         logql.SearchParams_Keyword := "" |} in
  match
    loki_ s
      {| loki.Query := query;
         loki.Start := SummarizeParams_Start params;
         loki.End_ := SummarizeParams_End params;
         loki.Limit := SummarizeParams_MaxLines params;
         loki.Direction := "" |}
  with
  | panics v => panics v
  | fails err => fails (Wrapf "querying logs" (External err))
  | returns logs =>
      if (length logs =? 0)%nat then fails ErrNoLogsFound
      else
        let logs := map truncate_message logs in
        match AIProvider.Summarize (provider s) logs with
        | panics v => panics v
        | fails err => fails (External err)
        | returns summary =>
            returns
              {| Summary := summary;
                 LinesAnalyzed := Z.of_nat (length logs);
                 From := SummarizeParams_Start params;
                 To := SummarizeParams_End params;
                 Provider := AIProvider.Name (provider s);
                 Model := "" |}
        end
  end.


(** The errors of [TriggerAnalysis]:
    [fmt.Errorf("invalid cluster: ID is required")] and
    [fmt.Errorf("creating job: %w", err)]. *)
Inductive trigger_error : Type :=
| invalid_cluster
| creating_job (cause : store.error).

Definition trigger_Error (e : trigger_error) : string :=
  match e with
  | invalid_cluster => "invalid cluster: ID is required"
  | creating_job cause => "creating job: " +:+ store.Error cause
  end.




End ai.

(** ** package middleware: rate limiting *)

Module middleware.

(** [textproto.CanonicalMIMEHeaderKey] on a key made of letters, digits and
    dashes: upper case for the first letter and for a letter after a dash,
    lower case for the others. *)
Fixpoint canonical (upper : bool) (key : string) : string :=
  match key with
  | EmptyString => EmptyString
  | String c key' =>
      let c :=
        if upper then go_strings.upper_byte c else go_strings.lower_byte c in
      String c (canonical (c =? "-")%char key')
  end.

Definition CanonicalMIMEHeaderKey (key : string) : string := canonical true key.

(** An [http.Header] with one value per key. *)
Abbreviation Header := (gmap string string).

Definition Header_Set (h : Header) (key value : string) : Header :=
  <[CanonicalMIMEHeaderKey key := value]> h.

Definition Header_Get (h : Header) (key : string) : string :=
  default "" (h !! CanonicalMIMEHeaderKey key).

(** The body [response.Error] writes. *)
Record errorBody : Type := {
  Code : string;
  Message : string
}.

(** What has been written to an [http.ResponseWriter]: the headers, and
    the status and the error body once [WriteHeader] was called. *)
Record ResponseWriter : Type := {
  header : Header;
  status : option Z;
  body : option errorBody
}.

(** [response.Error(w, status, code, message, nil)] *)
Definition response_Error (w : ResponseWriter) (st : Z) (code message : string)
    : ResponseWriter :=
  {| header := Header_Set (header w) "Content-Type" "application/json";
     status := Some st;
     body := Some {| Code := code; Message := message |} |}.

Definition defaultRequestsPerMinute : Z := 60.

(** [RateLimit]; its cache is the state [Limit] runs on. *)
Record RateLimit : Type := {
  requestsPerMin : Z
}.

Definition NewRateLimit (requestsPerMin : Z) : RateLimit :=
  {| requestsPerMin :=
       if requestsPerMin <=? 0 then defaultRequestsPerMinute
       else requestsPerMin |}.

(** How the middleware ends: it calls [next.ServeHTTP(w, r)] with the
    writer as it then is, or it has written the response itself. *)
Inductive verdict : Type :=
| next (w : ResponseWriter)
| rejected (w : ResponseWriter).

(** [Limit] applies rate limiting based on the key prefix the auth
    middleware left in the request context ([None]: there is none).  [now]
    is [time.Now()]; [int] has 64 bits. *)
Definition Limit {C} `{cache.Cache C} (rl : RateLimit) (c : C)
    (keyPrefix : option string) (now : Time) (w : ResponseWriter)
    : C * verdict :=
  match keyPrefix with
  | None => (c, next w)
  | Some prefix =>
      let key := cache.RateLimitKey prefix in
      match cache.IncrWithExpiry c key (60 * Second) with
      | (c', (_, Some _)) => (c', next w)
      | (c', (count, None)) =>
          let remaining := wrap64 (requestsPerMin rl - count) in
          let remaining := if remaining <? 0 then 0 else remaining in
          let resetTime := Unix (Time_Add now (60 * Second)) in
          let h := Header_Set (header w) "X-RateLimit-Limit"
                     (Itoa (requestsPerMin rl)) in
          let h := Header_Set h "X-RateLimit-Remaining" (Itoa remaining) in
          let h := Header_Set h "X-RateLimit-Reset" (Itoa resetTime) in
          let w := {| header := h; status := status w; body := body w |} in
          if requestsPerMin rl <? count
          then
            let w :=
              {| header := Header_Set (header w) "Retry-After" "60";
                 status := status w;
                 body := body w |} in
            (c', rejected
                   (response_Error w 429 "RATE_LIMIT_EXCEEDED" "Too many requests"))
          else (c', next w)
      end
  end.

End middleware.

(** ** package handler: POST /api/v1/summarize *)

Module handler.

(** [time.Parse(time.RFC3339, _)] ([None]: an error) and
    [t.UTC().Format(time.RFC3339)]. *)
Class GoTime : Type := {
  Parse_RFC3339 : string -> option Time;
  Format_RFC3339 : Time -> string
}.

(** The body of the request as [json.Decode] fills it in. *)
Record request : Type := {
  req_Service : string;
  req_Namespace : string;
  req_Start : string;
  req_End : string;
  req_MaxLines : Z
}.

Record SummarizeParams : Type := {
  TenantID : uuid;
  Service : string;
  Namespace : string;
  Start : Time;
  End_ : Time;
  MaxLines : Z
}.

Record SummarizeResult : Type := {
  Summary : string;
  LinesAnalyzed : Z;
  From : Time;
  To : Time;
  Provider : string;
  Model : string
}.

(** An error of the summarizer, by what [errors.Is] answers for the three
    sentinels the handler asks about. *)
Record error : Type := {
  is_ErrNoLogsFound : bool;
  is_ErrProviderUnavailable : bool;
  is_ErrInferenceTimeout : bool
}.

(** The [Summarizer] interface. *)
Definition Summarizer : Type := SummarizeParams -> SummarizeResult + error.

Record summarizeResponse : Type := {
  resp_Summary : string;
  resp_LinesAnalyzed : Z;
  resp_From : string;
  resp_To : string;
  resp_Provider : string;
  resp_Model : string
}.

(** What the handler writes: the status with the error or the data of the
    body ([response.Error] and [response.JSON]). *)
Inductive written : Type :=
| response_Error (status : Z) (code message : string)
| response_JSON (data : summarizeResponse).

Definition status_of (w : written) : Z :=
  match w with
  | response_Error status _ _ => status
  | response_JSON _ => 200
  end.

(** [NewSummarizeHandler(svc)], on the tenant the context holds ([None]:
    there is none) and the outcome of decoding the body ([None]: an
    error). *)
Definition NewSummarizeHandler `{GoTime} (svc : Summarizer)
    (tenant : option uuid) (body : option request) : written :=
  match tenant with
  | None => response_Error 401 "INVALID_TOKEN" "Missing tenant"
  | Some tenantID =>
      match body with
      | None => response_Error 400 "INVALID_REQUEST" "Invalid JSON body"
      | Some req =>
          if String.eqb (req_Service req) ""
          then response_Error 400 "INVALID_REQUEST" "service is required"
          else if String.eqb (req_Start req) ""
          then response_Error 400 "INVALID_REQUEST" "start is required"
          else
            match Parse_RFC3339 (req_Start req) with
            | None =>
                response_Error 400 "INVALID_REQUEST"
                  "start must be a valid RFC3339 timestamp"
            | Some startTime =>
                if String.eqb (req_End req) ""
                then response_Error 400 "INVALID_REQUEST" "end is required"
                else
                  match Parse_RFC3339 (req_End req) with
                  | None =>
                      response_Error 400 "INVALID_REQUEST"
                        "end must be a valid RFC3339 timestamp"
                  | Some endTime =>
                      let ns := req_Namespace req in
                      let ns := if String.eqb ns "" then "default" else ns in
                      let maxLines := req_MaxLines req in
                      let maxLines :=
                        if maxLines =? 0 then 500 else maxLines in
                      let maxLines :=
                        if maxLines <? 10 then 10 else maxLines in
                      let maxLines :=
                        if 1000 <? maxLines then 1000 else maxLines in
                      match
                        svc {| TenantID := tenantID;
                               Service := req_Service req;
                               Namespace := ns;
                               Start := startTime;
                               End_ := endTime;
                               MaxLines := maxLines |}
                      with
                      | inr err =>
                          if is_ErrNoLogsFound err
                          then response_Error 404 "NO_LOGS_FOUND"
                                 "No logs found for the given parameters"
                          else if is_ErrProviderUnavailable err
                          then response_Error 502 "AI_PROVIDER_UNAVAILABLE"
                                 "The AI provider is not available"
                          else if is_ErrInferenceTimeout err
                          then response_Error 504 "AI_INFERENCE_TIMEOUT"
                                 "AI summarization took too long and was cancelled"
                          else response_Error 500 "INTERNAL_ERROR"
                                 "An unexpected error occurred"
                      | inl result =>
                          response_JSON
                            {| resp_Summary := Summary result;
                               resp_LinesAnalyzed := LinesAnalyzed result;
                               resp_From := Format_RFC3339 (From result);
                               resp_To := Format_RFC3339 (To result);
                               resp_Provider := Provider result;
                               resp_Model := Model result |}
                      end
                  end
            end
      end
  end.

End handler.

(** ** API keys: the table, its store operations and the Authenticate
    middleware *)

(** [bcrypt.CompareHashAndPassword(hash, password) == nil], and the slow
    path of [strings.EqualFold], taken when a byte outside ASCII turns up
    (it folds by the Unicode tables). *)
Class GoCrypto : Type := {
  CompareHashAndPassword : string -> string -> bool;
  EqualFold_unicode : string -> string -> bool
}.

Module apikeys.

(** [models.APIKey] *)
Record APIKey : Type := {
  ID : uuid;
  TenantID : uuid;
  Name : string;
  KeyHash : string;
  KeyPrefix : string;
  Scopes : slice string;
  LastUsedAt : option Time;
  DeletedAt : option Time;
  CreatedAt : Time;
  UpdatedAt : Time
}.

(** The table [api_keys], by its primary key.  As for the other tables,
    the tenants referred to and the length limits of the columns are taken
    to hold, the texts written to be valid for them, and the connection to
    be up. *)
Abbreviation table := (gmap uuid APIKey).

Definition rows (t : table) : list APIKey := map snd (map_to_list t).

(** [CreateAPIKey]:
<<
INSERT INTO api_keys (id, tenant_id, name, key_hash, key_prefix, scopes,
    created_at, updated_at) VALUES ($1, ..., $8)
>>
    under the primary key [id] and [UNIQUE(tenant_id, name)], whose
    violation the function turns into [ErrDuplicateKey]; the columns the
    statement does not name are NULL in the new row.  A nil [Scopes] is
    sent as NULL, which [scopes TEXT[] NOT NULL] refuses (SQLSTATE
    23502). *)
Definition CreateAPIKey (t : table) (key : APIKey) : table * option store.error :=
  if is_nil (Scopes key)
  then (t, Some (store.Errorf "create api key: SQLSTATE 23502"))
  else
  match t !! ID key with
  | Some _ => (t, Some store.ErrDuplicateKey)
  | None =>
      if existsb
           (fun k => N.eqb (TenantID k) (TenantID key)
                     && String.eqb (Name k) (Name key))
           (rows t)
      then (t, Some store.ErrDuplicateKey)
      else
        (<[ID key :=
             {| ID := ID key;
                TenantID := TenantID key;
                Name := Name key;
                KeyHash := KeyHash key;
                KeyPrefix := KeyPrefix key;
                Scopes := Scopes key;
                LastUsedAt := None;
                DeletedAt := None;
                CreatedAt := CreatedAt key;
                UpdatedAt := UpdatedAt key |}]> t,
         None)
  end.

Definition live (k : APIKey) : bool :=
  match DeletedAt k with None => true | Some _ => false end.

(** [GetAPIKeyByPrefix]:
    [SELECT ... FROM api_keys WHERE key_prefix = $1 AND deleted_at IS NULL] *)
Definition GetAPIKeyByPrefix `{store.Postgres} (t : table) (prefix : string)
    : slice APIKey * option store.error :=
  if negb (store.valid_text prefix)
  then (nil_slice, Some (store.Errorf "get api key by prefix: SQLSTATE 22021"))
  else
    (appended
       (store.scan
          (List.filter (fun k => String.eqb (KeyPrefix k) prefix && live k)
             (rows t))),
     None).

(** [UpdateAPIKeyLastUsed]:
    [UPDATE api_keys SET last_used_at = NOW(), updated_at = NOW() WHERE id = $1] *)
Definition UpdateAPIKeyLastUsed (t : table) (now : Time) (id : uuid)
    : table * option store.error :=
  match t !! id with
  | Some k =>
      (<[id := {| ID := ID k;
                  TenantID := TenantID k;
                  Name := Name k;
                  KeyHash := KeyHash k;
                  KeyPrefix := KeyPrefix k;
                  Scopes := Scopes k;
                  LastUsedAt := Some now;
                  DeletedAt := DeletedAt k;
                  CreatedAt := CreatedAt k;
                  UpdatedAt := now |}]> t,
       None)
  | None => (t, None)
  end.

(** [ListAPIKeys]:
    [SELECT ... FROM api_keys WHERE tenant_id = $1 AND deleted_at IS NULL
     ORDER BY created_at DESC] *)
Definition newer (a b : APIKey) : bool := CreatedAt b <? CreatedAt a.

Definition ListAPIKeys `{store.Postgres} (t : table) (tenantID : uuid)
    : slice APIKey * option store.error :=
  (appended
     (go_sort.Slice newer
        (store.scan
           (List.filter (fun k => N.eqb (TenantID k) tenantID && live k)
              (rows t)))),
   None).

(** [RevokeAPIKey]:
<<
UPDATE api_keys SET deleted_at = NOW(), updated_at = NOW()
 WHERE id = $1 AND tenant_id = $2 AND deleted_at IS NULL
>>
    with [ErrNotFound] when no row is affected. *)
Definition RevokeAPIKey (t : table) (now : Time) (id tenantID : uuid)
    : table * option store.error :=
  match t !! id with
  | Some k =>
      if N.eqb (TenantID k) tenantID && live k
      then
        (<[id := {| ID := ID k;
                    TenantID := TenantID k;
                    Name := Name k;
                    KeyHash := KeyHash k;
                    KeyPrefix := KeyPrefix k;
                    Scopes := Scopes k;
                    LastUsedAt := LastUsedAt k;
                    DeletedAt := Some now;
                    CreatedAt := CreatedAt k;
                    UpdatedAt := now |}]> t,
         None)
      else (t, Some store.ErrNotFound)
  | None => (t, Some store.ErrNotFound)
  end.

(** [strings.SplitN(s, " ", 2)]: [s] cut at its first space, if it has
    one. *)
Fixpoint SplitN_space_2 (s : string) : list string :=
  match s with
  | EmptyString => [EmptyString]
  | String c s' =>
      if (c =? " ")%char then [EmptyString; s']
      else
        match SplitN_space_2 s' with
        | [a] => [String c a]
        | a :: rest => String c a :: rest
        | [] => []
        end
  end.

(** [strings.EqualFold]: byte by byte as long as both are ASCII, equal or
    an upper-case letter and its lower-case form; then the lengths must
    agree. *)
Fixpoint EqualFold `{GoCrypto} (s t : string) : bool :=
  match s, t with
  | String sr s', String tr t' =>
      if negb (go_strings.is_ascii_byte sr && go_strings.is_ascii_byte tr)
      then EqualFold_unicode s t
      else if (sr =? tr)%char then EqualFold s' t'
      else
        let lo := if (byte_val tr <? byte_val sr) then tr else sr in
        let hi := if (byte_val tr <? byte_val sr) then sr else tr in
        if go_strings.is_upper lo
           && (byte_val hi =? byte_val lo + 32)
        then EqualFold s' t'
        else false
  | EmptyString, EmptyString => true
  | _, _ => false
  end.

(** [extractBearerToken], on the value of the Authorization header (empty
    when there is none). *)
Definition extractBearerToken `{GoUnicode} `{GoCrypto} (auth : string) : string :=
  if String.eqb auth "" then ""
  else
    match SplitN_space_2 auth with
    | [scheme; rest] =>
        if negb (EqualFold scheme "Bearer") then ""
        else go_strings.TrimSpace rest
    | _ => ""
    end.

Definition keyPrefixLen : nat := 8.

(** What the middleware has done when it returns: written an error, or
    called the next handler with the tenant, the key prefix and the scopes
    in the context of the request, having started the goroutine that
    stamps the key as used. *)
Inductive outcome : Type :=
| refused (status : Z) (code message : string)
| next (tenantID : uuid) (keyPrefix : string) (scopes : slice string)
    (stamped : uuid).

(** The loop over the keys: the first one whose hash the raw key has. *)
Fixpoint first_match `{GoCrypto} (keys : list APIKey) (rawKey : string)
    : option APIKey :=
  match keys with
  | [] => None
  | key :: rest =>
      if CompareHashAndPassword (KeyHash key) rawKey then Some key
      else first_match rest rawKey
  end.

(** [Authenticate] validates the Bearer token, looks up the API key, and
    sets the tenant, the key prefix and the scopes in the request
    context. *)
Definition Authenticate `{GoUnicode} `{GoCrypto} `{store.Postgres}
    (t : table) (auth : string) : outcome :=
  let rawKey := extractBearerToken auth in
  if String.eqb rawKey ""
  then refused 401 "INVALID_TOKEN" "Missing or invalid Authorization header"
  else if (String.length rawKey <? keyPrefixLen)%nat
  then refused 401 "INVALID_TOKEN" "Invalid API key format"
  else
    let prefix := take keyPrefixLen rawKey in
    match GetAPIKeyByPrefix t prefix with
    | (_, Some _) =>
        refused 500 "INTERNAL_ERROR" "Failed to validate API key"
    | (keys, None) =>
        match first_match (slice_elems keys) rawKey with
        | Some key => next (TenantID key) prefix (Scopes key) (ID key)
        | None => refused 401 "INVALID_TOKEN" "Invalid API key"
        end
    end.

(** [RequireScope(scope)], on the scopes in the context: [true] when the
    next handler is called, [false] when 403 is written. *)
Fixpoint has_scope (scope : string) (scopes : list string) : bool :=
  match scopes with
  | [] => false
  | s :: rest => if String.eqb s scope then true else has_scope scope rest
  end.

Definition RequireScope (scope : string) (scopes : slice string) : bool :=
  has_scope scope (slice_elems scopes).

End apikeys.

(** ** Vocabulary of the properties *)

(** A cut position of [s] is a rune boundary when it is an end of the
    string or the byte there starts a rune. *)
Definition rune_boundary (s : string) (k : nat) : Prop :=
  k = O \/ k = String.length s
  \/ exists b, String.get k s = Some b /\ go_utf8.RuneStart b = true.

(** [x] may stand before [y] in a slice sorted by [less] when [y] is not
    [less] than [x]. *)
Definition may_precede {A} (less : A -> A -> bool) (x y : A) : Prop :=
  less y x = false.

(** The sort key of a cluster, and the order "not smaller", count first. *)
Definition key_ge `{GoUnicode} (a b : models.ErrorCluster.t) : Prop :=
  models.ErrorCluster.Count b < models.ErrorCluster.Count a
  \/ (models.ErrorCluster.Count a = models.ErrorCluster.Count b
      /\ analysis.LevelSeverity (models.ErrorCluster.Level b)
         <= analysis.LevelSeverity (models.ErrorCluster.Level a)).


(** The transitions of the job state machine. *)
Definition permitted (old new : string) : Prop :=
  (old = "pending" /\ new = "running")
  \/ (old = "running" /\ new = "completed")
  \/ (old = "running" /\ new = "failed").


(** A series of upserts, each at its own time; a failed upsert leaves the
    store as it was. *)
Definition upserts (s : store.PostgresStore)
    (calls : list (Time * models.ErrorCluster.t)) : store.PostgresStore :=
  fold_left (fun s call => fst (store.UpsertErrorCluster s (fst call) (snd call)))
    calls s.




(** [t] is what is left of [s] after some prefix. *)
Definition suffix (t s : string) : Prop := exists pre, s = pre +:+ t.

(** A string without a double quote. *)
Definition quote_free (s : string) : bool :=
  go_strings.all_bytes (fun b => negb (Ascii.eqb b "034")) s.

(** ** Vocabulary of the properties of normalisation *)

(** Whether [s] begins with a byte of [p]; [s] without its leading bytes
    of [p]. *)
Definition starts_with (p : ascii -> bool) (s : string) : bool :=
  match s with
  | String c _ => p c
  | EmptyString => false
  end.

Fixpoint skip (p : ascii -> bool) (s : string) : string :=
  match s with
  | String c s' => if p c then skip p s' else s
  | EmptyString => EmptyString
  end.

Definition not_empty (s : string) : bool :=
  match s with
  | String _ _ => true
  | EmptyString => false
  end.

(** [s] is as long as [ps] and its bytes are in the classes [ps], one by
    one. *)
Fixpoint fits (ps : list (ascii -> bool)) (s : string) : bool :=
  match ps, s with
  | [], EmptyString => true
  | p :: ps', String c s' => p c && fits ps' s'
  | _, _ => false
  end.

(** Three properties of an expression: no class of it accepts the byte
    [c]; it matches the empty text; it does not look at the beginning of
    the text. *)
Fixpoint rejects (c : ascii) (r : go_regexp.regex) : bool :=
  match r with
  | go_regexp.Empty | go_regexp.Bol => true
  | go_regexp.Class p => negb (p c)
  | go_regexp.Cat r1 r2 | go_regexp.Alt r1 r2 => rejects c r1 && rejects c r2
  | go_regexp.Star r1 => rejects c r1
  end.

Fixpoint nullable (r : go_regexp.regex) : bool :=
  match r with
  | go_regexp.Empty | go_regexp.Bol | go_regexp.Star _ => true
  | go_regexp.Class _ => false
  | go_regexp.Cat r1 r2 => nullable r1 && nullable r2
  | go_regexp.Alt r1 r2 => nullable r1 || nullable r2
  end.

Fixpoint bol_free (r : go_regexp.regex) : bool :=
  match r with
  | go_regexp.Empty | go_regexp.Class _ => true
  | go_regexp.Bol => false
  | go_regexp.Cat r1 r2 | go_regexp.Alt r1 r2 => bol_free r1 && bol_free r2
  | go_regexp.Star r1 => bol_free r1
  end.

(** The steps of [NormalizeMessage]: [strip] removes the leading
    timestamp, [scrub] writes the placeholders, [finish] does the rest. *)
Definition strip (msg : string) : string :=
  go_regexp.ReplaceAllString analysis.reDatetime msg "".

Definition scrub (msg : string) : string :=
  let msg := go_regexp.ReplaceAllString analysis.reHexAddr msg "0xADDR" in
  let msg := go_regexp.ReplaceAllString analysis.reUUID msg "UUID" in
  let msg := go_regexp.ReplaceAllString analysis.reBracketNum msg "[N]" in
  go_regexp.ReplaceAllString analysis.reParenNum msg "(N)".

Definition finish `{GoUnicode} (msg : string) : string :=
  let msg := go_regexp.ReplaceAllString analysis.reWhitespace msg " " in
  let msg := go_strings.ToLower msg in
  let msg := go_strings.TrimSpace msg in
  default msg (analysis.truncateString msg 500).

(** A separator is a byte that no class of the four placeholder patterns
    accepts: any byte but a hexadecimal digit and [x - [ ] ( )]. *)
Definition separator (c : ascii) : bool :=
  rejects c analysis.reHexAddr && rejects c analysis.reUUID
  && rejects c analysis.reBracketNum && rejects c analysis.reParenNum.

















(** Runs of white space written as one space each: what
    [reWhitespace.ReplaceAllString(s, " ")] computes.  [gap] tells whether
    the previous byte was white space. *)
Fixpoint collapse (gap : bool) (s : string) : string :=
  match s with
  | EmptyString => EmptyString
  | String c s' =>
      if go_regexp.perl_s c
      then if gap then collapse true s' else String " " (collapse true s')
      else String c (collapse false s')
  end.


(** The last byte of [s] is an [asciiSpace] byte. *)
Definition ends_with_space (s : string) : bool :=
  match go_strings.last_byte s with
  | Some c => go_strings.asciiSpace c
  | None => false
  end.

(** The class of the bytes other than [c]. *)
Definition other_than (c : ascii) : ascii -> bool :=
  fun d => negb (d =? c)%char.

Definition not_upper (c : ascii) : bool := negb (go_strings.is_upper c).


(** What is left of [t] after an integer between [opening] and [closing]
    at its head, if there is one. *)
Definition num_rest (opening closing : ascii) (t : string) : option string :=
  match t with
  | String a (String d t2) =>
      if (opening =? a)%char && go_regexp.perl_d d
      then match skip go_regexp.perl_d t2 with
           | String e r => if (closing =? e)%char then Some r else None
           | EmptyString => None
           end
      else None
  | _ => None
  end.

(** The placeholder of such an integer: [[N]] or [(N)]. *)
Definition num_placeholder (opening closing : ascii) : string :=
  String opening (String "N" (String closing EmptyString)).

(** The pattern of [reBracketNum] and [reParenNum], for any two
    delimiters. *)
Definition num_pattern (opening closing : ascii) : go_regexp.regex :=
  go_regexp.Seq [go_regexp.Lit opening; go_regexp.Plus analysis.digit;
                 go_regexp.Lit closing].

(** ** Vocabulary of the properties of the store *)

(** The constraints of the three tables: keys, checks and references. *)
Record constraints_hold (s : store.PostgresStore) : Prop := {
  clusters_keyed :
    forall k c, store.error_clusters s !! k = Some c ->
      store.key_of c = k
      /\ store.level_check (models.ErrorCluster.Level c) = true
      /\ store.int4 (models.ErrorCluster.Count c) = true;
  clusters_primary_key : NoDup (store.cluster_ids s);
  jobs_keyed :
    forall id j, store.jobs s !! id = Some j ->
      models.Job.ID j = id
      /\ store.status_check (models.Job.Status j) = true
      /\ (forall cid, models.Job.ClusterID j = Some cid ->
                      store.cluster_exists s cid = true);
  results_primary_key :
    NoDup (map models.AnalysisResult.ID (store.analysis_results s));
  results_job_unique :
    NoDup (map models.AnalysisResult.JobID (store.analysis_results s));
  results_checked :
    forall r, In r (store.analysis_results s) ->
      store.confidence_check (models.AnalysisResult.Confidence r) = true
      /\ store.cluster_exists s (models.AnalysisResult.ClusterID r) = true
}.

(** The identifiers of the rows of a table of clusters. *)
Definition ids_of (m : gmap store.cluster_key models.ErrorCluster.t)
    : list uuid :=
  map (fun kc => models.ErrorCluster.ID (snd kc)) (map_to_list m).

(** A call into the store that writes. *)
Inductive call : Type :=
| call_UpsertErrorCluster (now : Time) (cluster : models.ErrorCluster.t)
| call_CreateJob (job : models.Job.t)
| call_UpdateJobStatus (now : Time) (id : uuid) (status : string)
    (opts : list store.JobUpdateOption)
| call_CreateAnalysisResult (result : models.AnalysisResult.t).

(** The store after a call, whether the call succeeds or not. *)
Definition after (s : store.PostgresStore) (c : call) : store.PostgresStore :=
  match c with
  | call_UpsertErrorCluster now cluster =>
      fst (store.UpsertErrorCluster s now cluster)
  | call_CreateJob job => fst (store.CreateJob s job)
  | call_UpdateJobStatus now id status opts =>
      fst (store.UpdateJobStatus s now id status opts)
  | call_CreateAnalysisResult result =>
      fst (store.CreateAnalysisResult s result)
  end.

(** The times at which a series of calls updates the status of job
    [id]. *)
Fixpoint update_times (id : uuid) (calls : list call) : list Time :=
  match calls with
  | [] => []
  | call_UpdateJobStatus now id' _ _ :: rest =>
      if N.eqb id' id then now :: update_times id rest else update_times id rest
  | _ :: rest => update_times id rest
  end.

(** A job is where its time stamps say: not started while pending, started
    and not completed while running, completed after it started once it
    is completed or failed. *)
Definition stamps_coherent (j : models.Job.t) : Prop :=
  (models.Job.Status j = "pending"
   /\ models.Job.StartedAt j = None /\ models.Job.CompletedAt j = None)
  \/ (models.Job.Status j = "running"
      /\ (exists t, models.Job.StartedAt j = Some t)
      /\ models.Job.CompletedAt j = None)
  \/ ((models.Job.Status j = "completed" \/ models.Job.Status j = "failed")
      /\ exists t1 t2,
           models.Job.StartedAt j = Some t1
           /\ models.Job.CompletedAt j = Some t2 /\ t1 <= t2).




(** ** Vocabulary of the properties of the summarize handler *)

(** The parameters are what the handler makes of a request: the service as
    given, the namespace or default, the period as parsed, and the number of
    lines brought into 10..1000 (500 when none is given). *)
Definition made_of `{handler.GoTime} (tenantID : uuid) (req : handler.request)
    (p : handler.SummarizeParams) : Prop :=
  handler.TenantID p = tenantID
  /\ handler.Service p = handler.req_Service req
  /\ handler.Service p <> ""
  /\ handler.Namespace p
     = (if String.eqb (handler.req_Namespace req) "" then "default"
        else handler.req_Namespace req)
  /\ handler.Namespace p <> ""
  /\ handler.Parse_RFC3339 (handler.req_Start req) = Some (handler.Start p)
  /\ handler.Parse_RFC3339 (handler.req_End req) = Some (handler.End_ p)
  /\ 10 <= handler.MaxLines p <= 1000
  /\ (10 <= handler.req_MaxLines req <= 1000 ->
      handler.MaxLines p = handler.req_MaxLines req)
  /\ (handler.req_MaxLines req = 0 -> handler.MaxLines p = 500)
  /\ (handler.req_MaxLines req < 10 -> handler.req_MaxLines req <> 0 ->
      handler.MaxLines p = 10)
  /\ (1000 < handler.req_MaxLines req -> handler.MaxLines p = 1000).

(** ** Vocabulary of the properties of the API keys *)

(** Each row of the table of keys is filed under its identifier. *)
Definition keyed (t : apikeys.table) : Prop :=
  forall id k, t !! id = Some k -> apikeys.ID k = id.

(** A call into the store that writes to the table of keys. *)
Inductive key_call : Type :=
| call_CreateAPIKey (key : apikeys.APIKey)
| call_UpdateAPIKeyLastUsed (now : Time) (id : uuid)
| call_RevokeAPIKey (now : Time) (id tenantID : uuid).

Definition key_after (t : apikeys.table) (c : key_call) : apikeys.table :=
  match c with
  | call_CreateAPIKey key => fst (apikeys.CreateAPIKey t key)
  | call_UpdateAPIKeyLastUsed now id =>
      fst (apikeys.UpdateAPIKeyLastUsed t now id)
  | call_RevokeAPIKey now id tenantID =>
      fst (apikeys.RevokeAPIKey t now id tenantID)
  end.

(** The key [k] opens the door to the raw key [rawKey]: it is in the
    table, not revoked, has the first eight bytes of the raw key as its
    prefix, and its hash is the hash of the raw key. *)
Definition opens `{GoCrypto} (t : apikeys.table) (k : apikeys.APIKey)
    (rawKey : string) : Prop :=
  t !! apikeys.ID k = Some k
  /\ apikeys.DeletedAt k = None
  /\ apikeys.KeyPrefix k = take apikeys.keyPrefixLen rawKey
  /\ CompareHashAndPassword (apikeys.KeyHash k) rawKey = true.

(** ** Vocabulary of the properties of [Cluster] *)

(** The lines of a batch that have fingerprint [fp], in the order of the
    batch. *)
Definition in_group `{GoUnicode} (fp : string) (line : models.LogLine.t)
    : bool :=
  String.eqb (analysis.Fingerprint (models.LogLine.Message line)) fp.

Definition group_of `{GoUnicode} (fp : string) (lines : list models.LogLine.t)
    : list models.LogLine.t :=
  List.filter (in_group fp) lines.

Definition seen_at (line : models.LogLine.t) : Z :=
  UnixNano (models.LogLine.Timestamp line).

(** The sample kept for a group: the message of its first line, cut to
    2000 bytes. *)
Definition sample_of (line : models.LogLine.t) : string :=
  default (models.LogLine.Message line)
    (analysis.truncateString (models.LogLine.Message line) 2000).

(** What a group of lines (not empty) comes to: how many they are, when
    the first and the last were seen, the most severe level among them and
    the sample. *)
Record summarises `{GoUnicode} (count first last : Z) (level sample : string)
    (g : list models.LogLine.t) : Prop := {
  group_count : count = Z.of_nat (length g);
  group_sample : exists line rest, g = line :: rest /\ sample = sample_of line;
  group_first_least : forall line, In line g -> first <= seen_at line;
  group_first_seen : exists line, In line g /\ first = seen_at line;
  group_last_greatest : forall line, In line g -> seen_at line <= last;
  group_last_seen : exists line, In line g /\ last = seen_at line;
  group_level_highest :
    forall line, In line g ->
      analysis.LevelSeverity (models.LogLine.Level line)
      <= analysis.LevelSeverity level;
  group_level_seen : exists line, In line g /\ level = models.LogLine.Level line
}.

(** ** Vocabulary of the properties of [ParseInt] *)

(** The number a decimal numeral stands for, read from the left. *)
Fixpoint uint_value (d : Decimal.uint) (acc : Z) : Z :=
  match d with
  | Decimal.Nil => acc
  | Decimal.D0 d => uint_value d (10 * acc)
  | Decimal.D1 d => uint_value d (10 * acc + 1)
  | Decimal.D2 d => uint_value d (10 * acc + 2)
  | Decimal.D3 d => uint_value d (10 * acc + 3)
  | Decimal.D4 d => uint_value d (10 * acc + 4)
  | Decimal.D5 d => uint_value d (10 * acc + 5)
  | Decimal.D6 d => uint_value d (10 * acc + 6)
  | Decimal.D7 d => uint_value d (10 * acc + 7)
  | Decimal.D8 d => uint_value d (10 * acc + 8)
  | Decimal.D9 d => uint_value d (10 * acc + 9)
  end.


(** The line [parseStreams] makes of an entry of a stream. *)
Definition entry_line (stream : loki_http.lokiStream) (v : string * string)
    : models.LogLine.t :=
  {| models.LogLine.Timestamp := fst (go_strconv.ParseInt (fst v));
     models.LogLine.Message := snd v;
     models.LogLine.Labels := loki_http.Stream stream;
     models.LogLine.Level := default "" (loki_http.Stream stream !! "level") |}.

(** ** Values for the examples *)

(** A stand-in for the Unicode tables, for examples on ASCII text (the fast
    paths of package strings never consult the tables there). *)
Definition ascii_tables : GoUnicode :=
  {| Map_ToLower := fun s => s;
     Map_ToUpper := fun s => s;
     TrimFunc_IsSpace := fun s => s;
     TrimRightFunc_IsSpace := fun s => s |}.

(** A runtime that visits map entries in the order [map_to_list] gives and
    numbers the UUIDs it draws. *)
Definition plain_runtime : GoRuntime :=
  {| map_range := fun A l => l;
     map_range_perm := fun A l => Permutation_refl l;
     uuid_New := fun n => N.of_nat (100 + n) |}.

Definition empty_store : store.PostgresStore :=
  {| store.error_clusters := ∅;
     store.analysis_results := [];
     store.jobs := ∅ |}.

(** The clusters of [TestErrorCluster_UpsertMerge]: same tenant, service,
    namespace and fingerprint. *)
Definition merge_cluster (id : uuid) (level : string) (seen : Time) (count : Z)
    : models.ErrorCluster.t :=
  {| models.ErrorCluster.ID := id;
     models.ErrorCluster.TenantID := 1%N;
     models.ErrorCluster.Service := "api-server";
     models.ErrorCluster.Namespace := "default";
     models.ErrorCluster.Fingerprint := "fp-merge";
     models.ErrorCluster.Level := level;
     models.ErrorCluster.FirstSeenAt := seen;
     models.ErrorCluster.LastSeenAt := seen;
     models.ErrorCluster.Count := count;
     models.ErrorCluster.SampleMessage := "first error";
     models.ErrorCluster.CreatedAt := seen;
     models.ErrorCluster.UpdatedAt := seen |}.

(** The store after the first upsert of that test, at level ERROR. *)
Definition store_with_error_row : store.PostgresStore :=
  upserts empty_store [(1000, merge_cluster 11%N "ERROR" 1000 3)].

(** A pending job, as [TriggerAnalysis] creates it. *)
Definition pending_job : models.Job.t :=
  {| models.Job.ID := 7%N;
     models.Job.TenantID := 1%N;
     models.Job.Type_ := "analysis";
     models.Job.Status := models.JobStatusPending;
     models.Job.ClusterID := Some 11%N;
     models.Job.ErrorMessage := None;
     models.Job.StartedAt := None;
     models.Job.CompletedAt := None;
     models.Job.CreatedAt := 900;
     models.Job.UpdatedAt := 900 |}.

Definition store_with_pending_job : store.PostgresStore :=
  store.set_jobs store_with_error_row {[ 7%N := pending_job ]}.

(** The float64 1.5. *)
Definition float_1_5 : models.float64 := S754_finite false (3 * 2 ^ 51) (-52).

(** A log backend with one line and a provider that answers at once, as
    the mocks of the service tests. *)
Definition one_line : models.LogLine.t :=
  {| models.LogLine.Timestamp := 1000;
     models.LogLine.Message := "log line 1";
     models.LogLine.Labels := ∅;
     models.LogLine.Level := "error" |}.

Definition mock_provider (confidence : models.float64) : models.AIProvider.t :=
  {| models.AIProvider.Analyze := fun _ =>
       returns
         {| models.AnalysisResult.ID := 0%N;
            models.AnalysisResult.ClusterID := 0%N;
            models.AnalysisResult.TenantID := 0%N;
            models.AnalysisResult.JobID := 0%N;
            models.AnalysisResult.Provider := "";
            models.AnalysisResult.Model := "";
            models.AnalysisResult.RootCause := "cause";
            models.AnalysisResult.Confidence := confidence;
            models.AnalysisResult.Summary := "summary";
            models.AnalysisResult.SuggestedAction := None;
            models.AnalysisResult.CreatedAt := Time_zero |};
     models.AIProvider.Summarize := fun _ => returns "Summary of 1 log line";
     models.AIProvider.Name := "mock" |}.

Definition mock_service (confidence : models.float64) : ai.AnalysisService :=
  {| ai.provider := mock_provider confidence;
     ai.loki_ := fun _ => returns [one_line];
     ai.timeout := 30 * Second |}.

Definition mock_params : ai.SummarizeParams :=
  {| ai.SummarizeParams_TenantID := 1%N;
     ai.SummarizeParams_Service := "api";
     ai.SummarizeParams_Namespace := "prod";
     ai.SummarizeParams_Start := 0;
     ai.SummarizeParams_End := 3600 * Second;
     ai.SummarizeParams_MaxLines := 500 |}.

Definition empty_cache : cache.RedisCache :=
  {| cache.keys := ∅; cache.job_status := ∅ |}.

Definition empty_writer : middleware.ResponseWriter :=
  {| middleware.header := ∅;
     middleware.status := None;
     middleware.body := None |}.


(** Job 7 once it has run and completed. *)
Definition completed_job : models.Job.t :=
  {| models.Job.ID := 7%N;
     models.Job.TenantID := 1%N;
     models.Job.Type_ := "analysis";
     models.Job.Status := models.JobStatusCompleted;
     models.Job.ClusterID := Some 11%N;
     models.Job.ErrorMessage := None;
     models.Job.StartedAt := Some 1100;
     models.Job.CompletedAt := Some 1200;
     models.Job.CreatedAt := 900;
     models.Job.UpdatedAt := 1200 |}.

Definition store_with_completed_job : store.PostgresStore :=
  store.set_jobs store_with_error_row {[ 7%N := completed_job ]}.



(** A database that returns rows in the order of the table, and a
    stand-in for bcrypt under which the hash of a key is the key. *)
Definition plain_postgres : store.Postgres :=
  {| store.scan := fun A l => l;
     store.scan_perm := fun A l => Permutation_refl l |}.

Definition plain_crypto : GoCrypto :=
  {| CompareHashAndPassword := String.eqb;
     EqualFold_unicode := fun _ _ => false |}.

(** An API key of tenant 1 for the raw key [lh_test1_secret]. *)
Definition test_key : apikeys.APIKey :=
  {| apikeys.ID := 31%N;
     apikeys.TenantID := 1%N;
     apikeys.Name := "ci";
     apikeys.KeyHash := "lh_test1_secret";
     apikeys.KeyPrefix := "lh_test1";
     apikeys.Scopes := mk_slice ["read"];
     apikeys.LastUsedAt := None;
     apikeys.DeletedAt := None;
     apikeys.CreatedAt := 900;
     apikeys.UpdatedAt := 900 |}.

(** * Part II: properties *)

(** ** Strings, prefixes and UTF-8 *)

Lemma len_nonneg s : 0 <= len s.
Proof. unfold len. lia. Qed.

Lemma take_drop n s : take n s +:+ drop n s = s.
Proof.
  revert s. induction n as [|n IH]; intros [|c s]; simpl; try reflexivity.
  now rewrite IH.
Qed.

Lemma take_length n s : String.length (take n s) = Nat.min n (String.length s).
Proof.
  revert s. induction n as [|n IH]; intros [|c s]; simpl; try reflexivity.
  now rewrite IH.
Qed.

Lemma take_all n s : (String.length s <= n)%nat -> take n s = s.
Proof.
  revert s. induction n as [|n IH]; intros [|c s]; simpl; intros H;
    try reflexivity; try lia.
  rewrite IH; [reflexivity | lia].
Qed.

Lemma app_length_string s t :
  String.length (s +:+ t) = (String.length s + String.length t)%nat.
Proof. induction s as [|c s IH]; simpl; [reflexivity | now rewrite IH]. Qed.

Lemma app_assoc_string (s t u : string) : (s +:+ t) +:+ u = s +:+ (t +:+ u).
Proof. induction s as [|c s IH]; simpl; [reflexivity | now rewrite IH]. Qed.


(** A continuation byte (10xxxxxx) is not the start of a rune. *)
Lemma continuation_not_RuneStart b :
  go_utf8.in_range 128 191 b = true -> go_utf8.RuneStart b = false.
Proof.
  destruct b as [[] [] [] [] [] [] [] []]; vm_compute; congruence.
Qed.

Lemma ValidString_unfold s :
  go_utf8.ValidString s =
  match s with
  | EmptyString => true
  | String b0 s1 =>
      if byte_val b0 <? go_utf8.RuneSelf then go_utf8.ValidString s1
      else
        match s1 with
        | String b1 s2 =>
            if go_utf8.in_range 194 223 b0 && go_utf8.in_range 128 191 b1
            then go_utf8.ValidString s2
            else
              match s2 with
              | String b2 s3 =>
                  if (go_utf8.in_range 224 224 b0 && go_utf8.in_range 160 191 b1
                      || go_utf8.in_range 225 236 b0 && go_utf8.in_range 128 191 b1
                      || go_utf8.in_range 237 237 b0 && go_utf8.in_range 128 159 b1
                      || go_utf8.in_range 238 239 b0 && go_utf8.in_range 128 191 b1)
                     && go_utf8.in_range 128 191 b2
                  then go_utf8.ValidString s3
                  else
                    match s3 with
                    | String b3 s4 =>
                        if (go_utf8.in_range 240 240 b0 && go_utf8.in_range 144 191 b1
                            || go_utf8.in_range 241 243 b0 && go_utf8.in_range 128 191 b1
                            || go_utf8.in_range 244 244 b0 && go_utf8.in_range 128 143 b1)
                           && go_utf8.in_range 128 191 b2 && go_utf8.in_range 128 191 b3
                        then go_utf8.ValidString s4
                        else false
                    | EmptyString => false
                    end
              | EmptyString => false
              end
        | EmptyString => false
        end
  end.
Proof. destruct s; reflexivity. Qed.

(** The second byte of every multi-byte form is a continuation byte. *)
Lemma second_byte_continuation b :
  go_utf8.in_range 160 191 b = true \/ go_utf8.in_range 128 159 b = true
  \/ go_utf8.in_range 144 191 b = true \/ go_utf8.in_range 128 143 b = true ->
  go_utf8.in_range 128 191 b = true.
Proof.
  unfold go_utf8.in_range. intros H.
  repeat match goal with
         | H : _ \/ _ |- _ => destruct H as [H|H]
         | H : _ && _ = true |- _ => apply andb_prop in H; destruct H
         end;
    apply andb_true_intro; split; lia.
Qed.

(** Cutting a valid UTF-8 string at a rune boundary yields two valid
    strings: no rune is split. *)
Lemma ValidString_cut (n : nat) :
  forall s k, (String.length s <= n)%nat ->
    go_utf8.ValidString s = true -> (k <= String.length s)%nat ->
    rune_boundary s k ->
    go_utf8.ValidString (take k s) = true /\ go_utf8.ValidString (drop k s) = true.
Proof.
  induction n as [|n IH]; intros s k Hn Hv Hk Hb.
  { destruct s; simpl in *; [|lia]. destruct k; simpl; auto. }
  destruct k as [|k]; [simpl; destruct s; auto|].
  destruct s as [|b0 s1]; [simpl in Hk; lia|].
  rewrite ValidString_unfold in Hv.
  assert (Hget : forall j t c, String.get (S j) (String c t) = String.get j t)
    by reflexivity.
  assert (Hstep : forall s' k', (String.length s' <= n)%nat ->
             go_utf8.ValidString s' = true -> (k' <= String.length s')%nat ->
             (k' = String.length s' \/
              exists b, String.get k' s' = Some b /\ go_utf8.RuneStart b = true) ->
             go_utf8.ValidString (take k' s') = true
             /\ go_utf8.ValidString (drop k' s') = true).
  { intros s' k' H1 H2 H3 H4. apply IH; auto. right. exact H4. }
  assert (Hb' : forall j, k = j ->
             S j = String.length (String b0 s1)
             \/ exists b, String.get (S j) (String b0 s1) = Some b
                          /\ go_utf8.RuneStart b = true).
  { intros j ->. destruct Hb as [Hb|[Hb|Hb]]; [discriminate|auto|auto]. }
  destruct (byte_val b0 <? go_utf8.RuneSelf) eqn:E0.
  - (* one byte *)
    simpl take. simpl drop. rewrite (ValidString_unfold (String b0 _)), E0.
    apply Hstep; simpl in *; try lia; auto.
    destruct (Hb' k eq_refl) as [H|H]; [left; simpl in H; lia | right; exact H].
  - destruct s1 as [|b1 s2]; [discriminate|].
    destruct (go_utf8.in_range 194 223 b0 && go_utf8.in_range 128 191 b1) eqn:E1.
    + (* two bytes *)
      apply andb_prop in E1 as E1'. destruct E1' as [_ Hc1].
      destruct k as [|k].
      { exfalso. destruct (Hb' O eq_refl) as [H|[b [H1 H2]]].
        - simpl in H. lia.
        - simpl in H1. injection H1 as <-.
          rewrite continuation_not_RuneStart in H2; [discriminate|exact Hc1]. }
      simpl take. simpl drop.
      rewrite (ValidString_unfold (String b0 _)), E0, E1.
      apply Hstep; simpl in *; try lia; auto.
      destruct (Hb' (S k) eq_refl) as [H|H]; [left; simpl in H; lia | right; exact H].
    + destruct s2 as [|b2 s3]; [discriminate|].
      match type of Hv with (if ?c then _ else _) = true => destruct c eqn:E2 end.
      * (* three bytes *)
        apply andb_prop in E2 as E2'. destruct E2' as [Hc1 Hc2].
        assert (Hc1' : go_utf8.in_range 128 191 b1 = true).
        { repeat (apply orb_prop in Hc1; destruct Hc1 as [Hc1|Hc1]);
            apply andb_prop in Hc1; destruct Hc1 as [_ Hc1];
            first [exact Hc1 | apply second_byte_continuation; auto 6]. }
        destruct k as [|[|k]].
        { exfalso. destruct (Hb' O eq_refl) as [H|[b [H1 H2]]].
          - simpl in H. lia.
          - simpl in H1. injection H1 as <-.
            rewrite continuation_not_RuneStart in H2; [discriminate|exact Hc1']. }
        { exfalso. destruct (Hb' 1%nat eq_refl) as [H|[b [H1 H2]]].
          - simpl in H. lia.
          - simpl in H1. injection H1 as <-.
            rewrite continuation_not_RuneStart in H2; [discriminate|exact Hc2]. }
        simpl take. simpl drop.
        rewrite (ValidString_unfold (String b0 _)), E0, E1, E2.
        apply Hstep; simpl in *; try lia; auto.
        destruct (Hb' (S (S k)) eq_refl) as [H|H];
          [left; simpl in H; lia | right; exact H].
      * destruct s3 as [|b3 s4]; [discriminate|].
        match type of Hv with (if ?c then _ else _) = true => destruct c eqn:E3 end;
          [|discriminate].
        (* four bytes *)
        apply andb_prop in E3 as E3'. destruct E3' as [Hc12 Hc3].
        apply andb_prop in Hc12. destruct Hc12 as [Hc1 Hc2].
        assert (Hc1' : go_utf8.in_range 128 191 b1 = true).
        { repeat (apply orb_prop in Hc1; destruct Hc1 as [Hc1|Hc1]);
            apply andb_prop in Hc1; destruct Hc1 as [_ Hc1];
            first [exact Hc1 | apply second_byte_continuation; auto 6]. }
        destruct k as [|[|[|k]]].
        { exfalso. destruct (Hb' O eq_refl) as [H|[b [H1 H2]]].
          - simpl in H. lia.
          - simpl in H1. injection H1 as <-.
            rewrite continuation_not_RuneStart in H2; [discriminate|exact Hc1']. }
        { exfalso. destruct (Hb' 1%nat eq_refl) as [H|[b [H1 H2]]].
          - simpl in H. lia.
          - simpl in H1. injection H1 as <-.
            rewrite continuation_not_RuneStart in H2; [discriminate|exact Hc2]. }
        { exfalso. destruct (Hb' 2%nat eq_refl) as [H|[b [H1 H2]]].
          - simpl in H. lia.
          - simpl in H1. injection H1 as <-.
            rewrite continuation_not_RuneStart in H2; [discriminate|exact Hc3]. }
        simpl take. simpl drop.
        rewrite (ValidString_unfold (String b0 _)), E0, E1, E2, E3.
        apply Hstep; simpl in *; try lia; auto.
        destruct (Hb' (S (S (S k))) eq_refl) as [H|H];
          [left; simpl in H; lia | right; exact H].
Qed.

(** ** truncateString *)

Lemma get_in_range n s :
  (n < String.length s)%nat -> exists b, String.get n s = Some b.
Proof.
  revert n. induction s as [|c s IH]; intros n H; simpl in H; [lia|].
  destruct n as [|n]; simpl; [eauto|]. apply IH. lia.
Qed.

(** The loop stops at an index that is 0 or holds the first byte of a rune,
    and never indexes outside the string. *)
Lemma back_to_rune_start_spec s n :
  (n < String.length s)%nat ->
  exists k, analysis.back_to_rune_start s n = Some k
            /\ (k <= n)%nat /\ rune_boundary s k.
Proof.
  induction n as [|n IH]; intros Hn.
  - exists O. simpl. repeat split; [lia | left; reflexivity].
  - cbn [analysis.back_to_rune_start].
    destruct (get_in_range (S n) s Hn) as [b Hb]. rewrite Hb.
    destruct (go_utf8.RuneStart b) eqn:Hr.
    + exists (S n). repeat split; [lia|]. right. right. eauto.
    + destruct IH as (k & Hk & Hle & Hbd); [lia|].
      exists k. repeat split; [exact Hk | lia | exact Hbd].
Qed.

(** Both packages carry the same function. *)
Lemma ai_truncateString_eq : ai.truncateString = analysis.truncateString.
Proof. reflexivity. Qed.

(** What [truncateString] returns for a non-negative bound: a prefix of at
    most [maxBytes] bytes, cut at a rune boundary, the whole string when it
    is short enough. *)
Lemma truncateString_spec (s : string) (maxBytes : Z) :
  0 <= maxBytes ->
  exists k, analysis.truncateString s maxBytes = Some (take k s)
    /\ (k <= String.length s)%nat
    /\ Z.of_nat k <= maxBytes
    /\ rune_boundary s k
    /\ (len s <= maxBytes -> k = String.length s).
Proof.
  intros Hm. unfold analysis.truncateString, len.
  destruct (Z.of_nat (String.length s) <=? maxBytes) eqn:E.
  - apply Z.leb_le in E. exists (String.length s).
    rewrite take_all by lia.
    repeat split; [lia | lia | right; left; reflexivity].
  - apply Z.leb_gt in E.
    destruct (maxBytes <? 0) eqn:E0; [apply Z.ltb_lt in E0; lia|].
    destruct (back_to_rune_start_spec s (Z.to_nat maxBytes)) as (k & Hk & Hle & Hb);
      [lia|].
    rewrite Hk. exists k. repeat split; [lia | lia | exact Hb | lia].
Qed.

(** C9. For every valid-UTF-8 string [s] and every [maxBytes >= 0], both
    copies of [truncateString] return a prefix [r] of [s] ([s = r ++ t]) of
    at most [maxBytes] bytes; the cut falls between two runes, so that both
    [r] and the dropped part [t] are valid UTF-8; and [r] is [s] itself when
    [s] is at most [maxBytes] bytes long. *)
Theorem truncateString_prefix_at_rune_boundary (s : string) (maxBytes : Z) :
  go_utf8.ValidString s = true ->
  0 <= maxBytes ->
  exists r t,
    analysis.truncateString s maxBytes = Some r
    /\ ai.truncateString s maxBytes = Some r
    /\ s = r +:+ t
    /\ len r <= maxBytes
    /\ go_utf8.ValidString r = true
    /\ go_utf8.ValidString t = true
    /\ (len s <= maxBytes -> r = s).
Proof.
  intros Hv Hm.
  destruct (truncateString_spec s maxBytes Hm) as (k & Hk & Hle & Hkm & Hb & Hall).
  destruct (ValidString_cut (String.length s) s k (Nat.le_refl _) Hv Hle Hb)
    as [Hr Ht].
  exists (take k s), (drop k s).
  rewrite ai_truncateString_eq.
  repeat split; auto.
  - symmetry. apply take_drop.
  - unfold len. rewrite take_length. lia.
  - intros H. apply take_all. specialize (Hall H). lia.
Qed.

(** The theorem at ["h\xc3\xa9llo"] (the two bytes 195 169 encode U+00E9)
    with a bound of 2 bytes, which falls inside the two-byte rune. *)
Lemma truncateString_prefix_at_rune_boundary_witness :
  exists r t,
    analysis.truncateString (String "h" (String "195" (String "169" "llo"))) 2
      = Some r
    /\ ai.truncateString (String "h" (String "195" (String "169" "llo"))) 2
       = Some r
    /\ String "h" (String "195" (String "169" "llo")) = r +:+ t
    /\ len r <= 2
    /\ go_utf8.ValidString r = true
    /\ go_utf8.ValidString t = true
    /\ (len (String "h" (String "195" (String "169" "llo"))) <= 2 ->
        r = String "h" (String "195" (String "169" "llo"))).
Proof.
  apply truncateString_prefix_at_rune_boundary; [reflexivity | lia].
Defined.

Example truncateString_inside_rune :
  analysis.truncateString (String "h" (String "195" (String "169" "llo"))) 2
  = Some "h".
Proof. reflexivity. Qed.

Example truncateString_negative_bound_panics :
  analysis.truncateString "abc" (-1) = None.
Proof. reflexivity. Qed.

(** ** NormalizeMessage *)

(** The table of [TestNormalizeMessage]. *)
Example NormalizeMessage_tests `{GoUnicode} :
  analysis.NormalizeMessage "2024-02-17T01:47:32.123Z connection refused"
    = "connection refused"
  /\ analysis.NormalizeMessage "2024-02-17 01:47:32 connection refused"
     = "connection refused"
  /\ analysis.NormalizeMessage "2024-02-17T01:47:32+05:30 connection refused"
     = "connection refused"
  /\ analysis.NormalizeMessage "segfault at 0x7fff5fc00000 in main"
     = "segfault at 0xaddr in main"
  /\ analysis.NormalizeMessage "request 550e8400-e29b-41d4-a716-446655440000 failed"
     = "request uuid failed"
  /\ analysis.NormalizeMessage "goroutine [42] panic" = "goroutine [n] panic"
  /\ analysis.NormalizeMessage "error code (500) at line (42)"
     = "error code (n) at line (n)"
  /\ analysis.NormalizeMessage "too   many    spaces" = "too many spaces"
  /\ analysis.NormalizeMessage "Connection REFUSED" = "connection refused"
  /\ analysis.NormalizeMessage
       "2024-02-17T01:47:32.123Z ERROR at 0xFF addr 550e8400-e29b-41d4-a716-446655440000 goroutine [42]  panic (500)"
     = "error at 0xaddr addr uuid goroutine [n] panic (n)".
Proof. repeat split; vm_compute; reflexivity. Qed.

(** ** The matcher *)

Lemma suffix_refl s : suffix s s.
Proof. exists "". reflexivity. Qed.

Lemma suffix_trans a b c : suffix a b -> suffix b c -> suffix a c.
Proof.
  intros [p ->] [q ->]. exists (q +:+ p). now rewrite app_assoc_string.
Qed.

Lemma suffix_cons c s : suffix s (String c s).
Proof. exists (String c ""). reflexivity. Qed.

Lemma suffix_length t s : suffix t s -> (String.length t <= String.length s)%nat.
Proof. intros [p ->]. rewrite app_length_string. lia. Qed.

Lemma star_loop_unfold body k fuel bot s :
  go_regexp.star_loop body k fuel bot s =
  match fuel with
  | O => k bot s
  | S fuel' =>
      match
        body bot s
          (fun bot' s' =>
             if (String.length s' <? String.length s)%nat
             then go_regexp.star_loop body k fuel' bot' s'
             else None)
      with
      | Some rest => Some rest
      | None => k bot s
      end
  end.
Proof. destruct fuel; reflexivity. Qed.

(** The matcher only looks at what its continuation answers. *)
Lemma run_ext r :
  forall bot s k1 k2,
    (forall b t, k1 b t = k2 b t) ->
    go_regexp.run r bot s k1 = go_regexp.run r bot s k2.
Proof.
  induction r as [| |p|r1 IH1 r2 IH2|r1 IH1 r2 IH2|r1 IH1];
    intros bot s k1 k2 Hk; cbn [go_regexp.run].
  - apply Hk.
  - destruct bot; [apply Hk | reflexivity].
  - destruct s as [|c s]; [reflexivity|]. destruct (p c); [apply Hk | reflexivity].
  - apply IH1. intros b t. apply IH2. exact Hk.
  - rewrite (IH1 bot s k1 k2 Hk), (IH2 bot s k1 k2 Hk). reflexivity.
  - generalize (String.length s) as fuel. intros fuel. revert bot s.
    induction fuel as [|fuel IHf]; intros bot s; rewrite !star_loop_unfold.
    + apply Hk.
    + rewrite Hk.
      erewrite IH1; [reflexivity|].
      intros b t. cbn beta. destruct (String.length t <? String.length s)%nat;
        [apply IHf | reflexivity].
Qed.

(** A match ends at a suffix of the text: whatever the matcher returns, its
    continuation returned for some suffix. *)
Lemma run_suffix r :
  forall bot s k x,
    go_regexp.run r bot s k = Some x ->
    exists b t, suffix t s /\ k b t = Some x.
Proof.
  induction r as [| |p|r1 IH1 r2 IH2|r1 IH1 r2 IH2|r1 IH1];
    intros bot s k x; cbn [go_regexp.run].
  - intros H. exists bot, s. split; [apply suffix_refl | exact H].
  - destruct bot; [|discriminate]. intros H.
    exists true, s. split; [apply suffix_refl | exact H].
  - destruct s as [|c s]; [discriminate|]. destruct (p c); [|discriminate].
    intros H. exists false, s. split; [apply suffix_cons | exact H].
  - intros H. apply IH1 in H. destruct H as (b1 & t1 & Hs1 & H).
    apply IH2 in H. destruct H as (b2 & t2 & Hs2 & H).
    exists b2, t2. split; [eapply suffix_trans; eassumption | exact H].
  - destruct (go_regexp.run r1 bot s k) eqn:E.
    + intros H. inversion H; subst. apply IH1 in E. exact E.
    + apply IH2.
  - generalize (String.length s) as fuel. intros fuel. revert bot s.
    induction fuel as [|fuel IHf]; intros bot s; rewrite star_loop_unfold.
    + intros H. exists bot, s. split; [apply suffix_refl | exact H].
    + match goal with
      | |- match ?m with _ => _ end = _ -> _ => destruct m eqn:E
      end.
      * intros H. inversion H; subst. apply IH1 in E.
        destruct E as (b1 & t1 & Hs1 & E).
        destruct (String.length t1 <? String.length s)%nat; [|discriminate].
        apply IHf in E. destruct E as (b2 & t2 & Hs2 & E).
        exists b2, t2. split; [eapply suffix_trans; eassumption | exact E].
      * intros H. exists bot, s. split; [apply suffix_refl | exact H].
Qed.

Lemma match_prefix_suffix re bot s rest :
  go_regexp.match_prefix re bot s = Some rest -> suffix rest s.
Proof.
  unfold go_regexp.match_prefix. intros H. apply run_suffix in H.
  destruct H as (b & t & Hs & H). inversion H; subst. exact Hs.
Qed.

(** When no suffix of the text lets the continuation succeed, the matcher
    fails. *)
Lemma run_none r bot s k :
  (forall b t, suffix t s -> k b t = None) ->
  go_regexp.run r bot s k = None.
Proof.
  intros Hk. destruct (go_regexp.run r bot s k) eqn:E; [|reflexivity].
  apply run_suffix in E. destruct E as (b & t & Hs & E).
  rewrite Hk in E by exact Hs. discriminate.
Qed.

Lemma replace_loop_unfold fuel re repl bot am s :
  go_regexp.replace_loop fuel re repl bot am s =
  match fuel with
  | O => s
  | S fuel' =>
      match go_regexp.match_prefix re bot s with
      | Some rest =>
          if (String.length rest <? String.length s)%nat
          then repl +:+ go_regexp.replace_loop fuel' re repl false true rest
          else
            (if am then "" else repl) +:+
            match s with
            | EmptyString => EmptyString
            | String c s' =>
                String c (go_regexp.replace_loop fuel' re repl false false s')
            end
      | None =>
          match s with
          | EmptyString => EmptyString
          | String c s' =>
              String c (go_regexp.replace_loop fuel' re repl false false s')
          end
      end
  end.
Proof. destruct fuel; reflexivity. Qed.

(** A text without a match is left as it is. *)
Lemma replace_loop_no_match re repl fuel :
  forall bot am s,
    go_regexp.match_from re bot s = false ->
    go_regexp.replace_loop fuel re repl bot am s = s.
Proof.
  induction fuel as [|fuel IH]; intros bot am s Hm; [reflexivity|].
  rewrite replace_loop_unfold.
  destruct s as [|c s]; cbn [go_regexp.match_from] in Hm;
    destruct (go_regexp.match_prefix re bot _); try discriminate; [reflexivity|].
  rewrite IH by exact Hm. reflexivity.
Qed.


(** Enough fuel is enough: the loop does not depend on it. *)
Lemma replace_loop_fuel re repl fuel1 :
  forall fuel2 bot am s,
    (String.length s < fuel1)%nat -> (String.length s < fuel2)%nat ->
    go_regexp.replace_loop fuel1 re repl bot am s
    = go_regexp.replace_loop fuel2 re repl bot am s.
Proof.
  induction fuel1 as [|fuel1 IH]; intros fuel2 bot am s H1 H2; [lia|].
  destruct fuel2 as [|fuel2]; [lia|].
  rewrite !replace_loop_unfold.
  destruct (go_regexp.match_prefix re bot s) as [rest|] eqn:E.
  - destruct (String.length rest <? String.length s)%nat eqn:El.
    + apply Nat.ltb_lt in El. rewrite (IH fuel2) by lia. reflexivity.
    + destruct s as [|c s]; [reflexivity|]. cbn in H1, H2.
      rewrite (IH fuel2) by lia. reflexivity.
  - destruct s as [|c s]; [reflexivity|]. cbn in H1, H2.
    rewrite (IH fuel2) by lia. reflexivity.
Qed.

Lemma all_bytes_app p s t :
  go_strings.all_bytes p (s +:+ t)
  = go_strings.all_bytes p s && go_strings.all_bytes p t.
Proof.
  induction s as [|c s IH]; cbn; [reflexivity|].
  rewrite IH. now rewrite andb_assoc.
Qed.

Lemma all_bytes_suffix p t s :
  suffix t s -> go_strings.all_bytes p s = true -> go_strings.all_bytes p t = true.
Proof.
  intros [pre ->]. rewrite all_bytes_app. intros H.
  apply andb_prop in H. tauto.
Qed.

(** Replacing matches by [repl] keeps a property that all bytes of the
    text and of [repl] have. *)
Lemma replace_loop_all_bytes p re repl fuel :
  forall bot am s,
    go_strings.all_bytes p repl = true ->
    go_strings.all_bytes p s = true ->
    go_strings.all_bytes p (go_regexp.replace_loop fuel re repl bot am s) = true.
Proof.
  induction fuel as [|fuel IH]; intros bot am s Hr Hs; [exact Hs|].
  rewrite replace_loop_unfold.
  assert (Htail : forall c s', s = String c s' ->
            go_strings.all_bytes p
              (String c (go_regexp.replace_loop fuel re repl false false s')) = true).
  { intros c s' ->. cbn in Hs |- *. apply andb_prop in Hs. destruct Hs as [Hc Hs'].
    rewrite Hc. cbn. apply IH; assumption. }
  destruct (go_regexp.match_prefix re bot s) as [rest|] eqn:E.
  - destruct (String.length rest <? String.length s)%nat.
    + rewrite all_bytes_app, Hr. cbn. apply IH; [exact Hr|].
      eapply all_bytes_suffix; [|exact Hs]. eapply match_prefix_suffix. exact E.
    + rewrite all_bytes_app.
      assert (Ham : go_strings.all_bytes p (if am then "" else repl) = true)
        by (destruct am; [reflexivity | exact Hr]).
      rewrite Ham. cbn. destruct s as [|c s']; [reflexivity|]. now apply Htail.
  - destruct s as [|c s']; [reflexivity|]. now apply Htail.
Qed.

Lemma ReplaceAllString_all_bytes p re s repl :
  go_strings.all_bytes p repl = true ->
  go_strings.all_bytes p s = true ->
  go_strings.all_bytes p (go_regexp.ReplaceAllString re s repl) = true.
Proof. apply replace_loop_all_bytes. Qed.

Lemma all_bytes_impl (p q : ascii -> bool) s :
  (forall c, p c = true -> q c = true) ->
  go_strings.all_bytes p s = true -> go_strings.all_bytes q s = true.
Proof.
  intros Hpq. induction s as [|c s IH]; cbn; [reflexivity|].
  intros H. apply andb_prop in H. destruct H as [Hc Hs].
  now rewrite (Hpq c Hc), IH.
Qed.

Lemma all_bytes_tail p c s :
  go_strings.all_bytes p (String c s) = true -> go_strings.all_bytes p s = true.
Proof. cbn. intros H. apply andb_prop in H. tauto. Qed.

(** The fuel of a starred expression: the length of the text is enough. *)
Lemma star_loop_fuel r k fuel1 :
  forall fuel2 bot s,
    (String.length s <= fuel1)%nat -> (String.length s <= fuel2)%nat ->
    go_regexp.star_loop (go_regexp.run r) k fuel1 bot s
    = go_regexp.star_loop (go_regexp.run r) k fuel2 bot s.
Proof.
  induction fuel1 as [|fuel1 IH]; intros fuel2 bot s H1 H2.
  - destruct fuel2 as [|fuel2]; [reflexivity|].
    rewrite !star_loop_unfold. rewrite run_none; [reflexivity|].
    intros b t _. destruct (Nat.ltb_spec (String.length t) (String.length s));
      [lia | reflexivity].
  - destruct fuel2 as [|fuel2].
    + rewrite !star_loop_unfold. rewrite run_none; [reflexivity|].
      intros b t _. destruct (Nat.ltb_spec (String.length t) (String.length s));
        [lia | reflexivity].
    + rewrite !star_loop_unfold.
      erewrite run_ext; [reflexivity|].
      intros b t. cbn beta.
      destruct (Nat.ltb_spec (String.length t) (String.length s));
        [apply IH; lia | reflexivity].
Qed.

(** What the continuation does to its result can be done afterwards. *)
Lemma run_map (f : string -> string) r :
  forall bot s k,
    go_regexp.run r bot s (fun b t => option_map f (k b t))
    = option_map f (go_regexp.run r bot s k).
Proof.
  induction r as [| |p|r1 IH1 r2 IH2|r1 IH1 r2 IH2|r1 IH1];
    intros bot s k; cbn [go_regexp.run].
  - reflexivity.
  - destruct bot; reflexivity.
  - destruct s as [|c s]; [reflexivity|]. destruct (p c); reflexivity.
  - rewrite <- IH1. apply run_ext. intros b t. apply IH2.
  - rewrite IH1, IH2. destruct (go_regexp.run r1 bot s k); reflexivity.
  - generalize (String.length s) as fuel. intros fuel. revert bot s.
    induction fuel as [|fuel IHf]; intros bot s; rewrite !star_loop_unfold.
    + reflexivity.
    + rewrite (run_ext r1 bot s _
                 (fun b t =>
                    option_map f
                      (if (String.length t <? String.length s)%nat
                       then go_regexp.star_loop (go_regexp.run r1) k fuel b t
                       else None))).
      * rewrite IH1.
        match goal with
        | |- context [go_regexp.run r1 bot s ?kk] =>
            destruct (go_regexp.run r1 bot s kk)
        end; reflexivity.
      * intros b t. cbn beta.
        destruct (String.length t <? String.length s)%nat;
          [apply IHf | reflexivity].
Qed.

(** A byte that no class of [r] accepts is a barrier: matching [r] in a
    text that goes on with such a byte is matching it in the text before
    the byte. *)
Lemma run_barrier r c b' :
  rejects c r = true ->
  forall bot a k,
    go_regexp.run r bot (a +:+ String c b') k
    = go_regexp.run r bot a (fun b t => k b (t +:+ String c b')).
Proof.
  induction r as [| |p|r1 IH1 r2 IH2|r1 IH1 r2 IH2|r1 IH1];
    cbn [rejects]; intros Hr bot a k; cbn [go_regexp.run].
  - reflexivity.
  - reflexivity.
  - destruct a as [|d a]; cbn.
    + apply negb_true_iff in Hr. now rewrite Hr.
    + reflexivity.
  - apply andb_prop in Hr. destruct Hr as [H1 H2].
    rewrite IH1 by exact H1. apply run_ext. intros b t. now apply IH2.
  - apply andb_prop in Hr. destruct Hr as [H1 H2].
    rewrite IH1, IH2 by assumption. reflexivity.
  - rewrite (star_loop_fuel r1 k _ (String.length a + S (String.length b')))
      by (rewrite ?app_length_string; cbn; lia).
    rewrite (star_loop_fuel r1 _ (String.length a)
               (String.length a + S (String.length b'))) by lia.
    generalize (String.length a + S (String.length b'))%nat as fuel.
    intros fuel. revert bot a.
    induction fuel as [|fuel IHf]; intros bot a; rewrite !star_loop_unfold.
    + reflexivity.
    + rewrite IH1 by exact Hr.
      erewrite run_ext; [reflexivity|].
      intros b t. cbn beta. rewrite !app_length_string.
      destruct (Nat.ltb_spec (String.length t) (String.length a)).
      * destruct (Nat.ltb_spec (String.length t + String.length (String c b'))
                    (String.length a + String.length (String c b'))); [|lia].
        apply IHf.
      * destruct (Nat.ltb_spec (String.length t + String.length (String c b'))
                    (String.length a + String.length (String c b'))); [lia|].
        reflexivity.
Qed.

(** An expression that does not match the empty text consumes
    something. *)
Lemma run_consumes r :
  nullable r = false ->
  forall bot s k x,
    go_regexp.run r bot s k = Some x ->
    exists b t,
      suffix t s /\ (String.length t < String.length s)%nat /\ k b t = Some x.
Proof.
  induction r as [| |p|r1 IH1 r2 IH2|r1 IH1 r2 IH2|r1 IH1];
    cbn [nullable]; intros Hn bot s k x; try discriminate; cbn [go_regexp.run].
  - destruct s as [|c s]; [discriminate|]. destruct (p c); [|discriminate].
    intros H. exists false, s. split; [apply suffix_cons|]. split; [cbn; lia | exact H].
  - intros H. apply andb_false_iff in Hn. destruct Hn as [Hn|Hn].
    + apply (IH1 Hn) in H. destruct H as (b1 & t1 & Hs1 & Hl1 & H).
      apply run_suffix in H. destruct H as (b2 & t2 & Hs2 & H).
      exists b2, t2. split; [eapply suffix_trans; eassumption|].
      split; [|exact H]. apply suffix_length in Hs2. lia.
    + apply run_suffix in H. destruct H as (b1 & t1 & Hs1 & H).
      apply (IH2 Hn) in H. destruct H as (b2 & t2 & Hs2 & Hl2 & H).
      exists b2, t2. split; [eapply suffix_trans; eassumption|].
      split; [|exact H]. apply suffix_length in Hs1. lia.
  - apply orb_false_iff in Hn. destruct Hn as [Hn1 Hn2].
    destruct (go_regexp.run r1 bot s k) eqn:E.
    + intros H. inversion H; subst. now apply (IH1 Hn1) in E.
    + now apply IH2.
Qed.

Lemma match_prefix_consumes re bot s rest :
  nullable re = false ->
  go_regexp.match_prefix re bot s = Some rest ->
  suffix rest s /\ (String.length rest < String.length s)%nat.
Proof.
  intros Hn H. apply (run_consumes _ Hn) in H.
  destruct H as (b & t & Hs & Hl & H). inversion H; subst. now split.
Qed.


(** An expression without [^] does not care where the text begins. *)
Lemma run_bot r :
  bol_free r = true ->
  forall b1 b2 s k1 k2,
    (forall c1 c2 t, k1 c1 t = k2 c2 t) ->
    go_regexp.run r b1 s k1 = go_regexp.run r b2 s k2.
Proof.
  induction r as [| |p|r1 IH1 r2 IH2|r1 IH1 r2 IH2|r1 IH1];
    cbn [bol_free]; intros Hf b1 b2 s k1 k2 Hk; try discriminate;
    cbn [go_regexp.run].
  - apply Hk.
  - destruct s as [|c s]; [reflexivity|]. destruct (p c); [apply Hk | reflexivity].
  - apply andb_prop in Hf. destruct Hf as [H1 H2].
    apply IH1; [exact H1|]. intros c1 c2 t. now apply IH2.
  - apply andb_prop in Hf. destruct Hf as [H1 H2].
    rewrite (IH1 H1 b1 b2 s k1 k2 Hk), (IH2 H2 b1 b2 s k1 k2 Hk). reflexivity.
  - generalize (String.length s) as fuel. intros fuel. revert b1 b2 s.
    induction fuel as [|fuel IHf]; intros b1 b2 s; rewrite !star_loop_unfold.
    + apply Hk.
    + rewrite (Hk b1 b2).
      erewrite (IH1 Hf b1 b2); [reflexivity|].
      intros c1 c2 t. cbn beta.
      destruct (String.length t <? String.length s)%nat; [apply IHf | reflexivity].
Qed.

Lemma match_prefix_bot re b1 b2 s :
  bol_free re = true ->
  go_regexp.match_prefix re b1 s = go_regexp.match_prefix re b2 s.
Proof. intros Hf. apply run_bot; [exact Hf | reflexivity]. Qed.

Lemma replace_loop_bot re repl fuel b1 b2 am s :
  bol_free re = true ->
  go_regexp.replace_loop fuel re repl b1 am s
  = go_regexp.replace_loop fuel re repl b2 am s.
Proof.
  intros Hf. destruct fuel as [|fuel]; [reflexivity|].
  rewrite !replace_loop_unfold. now rewrite (match_prefix_bot re b1 b2 s Hf).
Qed.

(** For an expression that consumes something, the flag for an empty match
    plays no part. *)
Lemma replace_loop_after re repl fuel bot am1 am2 s :
  nullable re = false ->
  go_regexp.replace_loop fuel re repl bot am1 s
  = go_regexp.replace_loop fuel re repl bot am2 s.
Proof.
  intros Hn. destruct fuel as [|fuel]; [reflexivity|].
  rewrite !replace_loop_unfold.
  destruct (go_regexp.match_prefix re bot s) as [rest|] eqn:E; [|reflexivity].
  apply (match_prefix_consumes _ _ _ _ Hn) in E. destruct E as [_ E].
  apply Nat.ltb_lt in E. now rewrite E.
Qed.

(** ** ReplaceAllString *)


(** Matching before a barrier, in terms of the text before it. *)
Lemma match_prefix_barrier re c b bot a :
  rejects c re = true ->
  go_regexp.match_prefix re bot (a +:+ String c b)
  = option_map (fun t => t +:+ String c b) (go_regexp.match_prefix re bot a).
Proof.
  intros Hr. unfold go_regexp.match_prefix.
  rewrite (run_barrier re c b Hr).
  apply (run_map (fun t => t +:+ String c b) re bot a (fun _ t => Some t)).
Qed.

(** Replacement stops at a barrier and starts afresh behind it. *)
Lemma replace_loop_barrier re repl c b :
  rejects c re = true -> nullable re = false ->
  forall fuel1 fuel2 fuel3 bot am a,
    (String.length (a +:+ String c b) < fuel1)%nat ->
    (String.length a < fuel2)%nat ->
    (String.length b < fuel3)%nat ->
    go_regexp.replace_loop fuel1 re repl bot am (a +:+ String c b)
    = go_regexp.replace_loop fuel2 re repl bot am a
      +:+ String c (go_regexp.replace_loop fuel3 re repl false false b).
Proof.
  intros Hr Hn. induction fuel1 as [|fuel1 IH];
    intros fuel2 fuel3 bot am a H1 H2 H3; [lia|].
  destruct fuel2 as [|fuel2]; [lia|].
  rewrite app_length_string in H1. cbn [String.length] in H1.
  rewrite (replace_loop_unfold (S fuel1)), (replace_loop_unfold (S fuel2)),
    match_prefix_barrier by exact Hr.
  destruct (go_regexp.match_prefix re bot a) as [rest|] eqn:E; cbn [option_map].
  - apply (match_prefix_consumes _ _ _ _ Hn) in E. destruct E as [_ El].
    rewrite !app_length_string.
    destruct (Nat.ltb_spec (String.length rest + String.length (String c b))
                (String.length a + String.length (String c b))); [|lia].
    destruct (Nat.ltb_spec (String.length rest) (String.length a)); [|lia].
    rewrite (IH fuel2 fuel3)
      by (rewrite ?app_length_string; cbn [String.length]; lia).
    now rewrite app_assoc_string.
  - destruct a as [|d a]; cbn [String.append].
    + f_equal. apply replace_loop_fuel; lia.
    + cbn [String.length] in H1, H2.
      rewrite (IH fuel2 fuel3)
        by (rewrite ?app_length_string; cbn [String.length]; lia).
      reflexivity.
Qed.

Lemma ReplaceAllString_barrier re repl c a b :
  rejects c re = true -> nullable re = false -> bol_free re = true ->
  go_regexp.ReplaceAllString re (a +:+ String c b) repl
  = go_regexp.ReplaceAllString re a repl
    +:+ String c (go_regexp.ReplaceAllString re b repl).
Proof.
  intros Hr Hn Hf. unfold go_regexp.ReplaceAllString.
  rewrite (replace_loop_barrier re repl c b Hr Hn _
             (S (String.length a)) (S (String.length b))) by lia.
  now rewrite (replace_loop_bot re repl _ false true false b Hf).
Qed.


(** ** Classes, starred *)

Lemma skip_suffix p s : suffix (skip p s) s.
Proof.
  induction s as [|c s IH]; cbn; [apply suffix_refl|].
  destruct (p c); [|apply suffix_refl].
  eapply suffix_trans; [exact IH | apply suffix_cons].
Qed.



Lemma skip_app p ds rest :
  go_strings.all_bytes p ds = true -> skip p (ds +:+ rest) = skip p rest.
Proof.
  induction ds as [|d ds IH]; cbn; [reflexivity|].
  intros H. apply andb_prop in H. destruct H as [-> H]. now apply IH.
Qed.

(** A starred class is greedy: it takes the bytes of the class, and when
    the continuation accepts what follows them, that is the match. *)
Lemma star_class_greedy p k x :
  forall s bot,
    (forall b, k b (skip p s) = Some x) ->
    go_regexp.run (go_regexp.Star (go_regexp.Class p)) bot s k = Some x.
Proof.
  intros s bot Hk. cbn [go_regexp.run].
  generalize (Nat.le_refl (String.length s)).
  generalize (String.length s) at 2 3 as fuel. intros fuel. revert s bot Hk.
  induction fuel as [|fuel IH]; intros s bot Hk Hl; rewrite star_loop_unfold.
  - destruct s; [|cbn in Hl; lia]. apply Hk.
  - cbn [go_regexp.run]. destruct s as [|c s]; [apply Hk|].
    cbn [skip] in Hk. destruct (p c) eqn:E; [|apply Hk].
    cbn [String.length] in Hl |- *.
    destruct (Nat.ltb_spec (String.length s) (S (String.length s))); [|lia].
    rewrite IH; [reflexivity | exact Hk | lia].
Qed.

Lemma match_prefix_star_class p bot s :
  go_regexp.match_prefix (go_regexp.Star (go_regexp.Class p)) bot s
  = Some (skip p s).
Proof. apply star_class_greedy. reflexivity. Qed.


(** ** White space *)

Lemma match_prefix_reWhitespace bot s :
  go_regexp.match_prefix analysis.reWhitespace bot s
  = match s with
    | String c s' =>
        if go_regexp.perl_s c then Some (skip go_regexp.perl_s s') else None
    | EmptyString => None
    end.
Proof.
  unfold go_regexp.match_prefix, analysis.reWhitespace, go_regexp.Plus.
  cbn [go_regexp.run]. destruct s as [|c s]; [reflexivity|].
  destruct (go_regexp.perl_s c); [|reflexivity].
  apply (match_prefix_star_class go_regexp.perl_s false s).
Qed.

Lemma collapse_gap s :
  collapse true s = collapse false (skip go_regexp.perl_s s).
Proof.
  induction s as [|c s IH]; [reflexivity|]. cbn [collapse skip].
  destruct (go_regexp.perl_s c) eqn:E; [exact IH|].
  cbn [collapse]. now rewrite E.
Qed.

(** [reWhitespace.ReplaceAllString(s, " ")] writes one space for every run
    of white space. *)
Lemma replace_loop_collapse fuel :
  forall bot am s,
    (String.length s < fuel)%nat ->
    go_regexp.replace_loop fuel analysis.reWhitespace " " bot am s
    = collapse false s.
Proof.
  induction fuel as [|fuel IH]; intros bot am s Hl; [lia|].
  rewrite replace_loop_unfold, match_prefix_reWhitespace.
  destruct s as [|c s]; [reflexivity|]. cbn [String.length] in Hl.
  cbn [collapse]. destruct (go_regexp.perl_s c).
  - pose proof (suffix_length _ _ (skip_suffix go_regexp.perl_s s)) as Hs.
    cbn [String.length].
    destruct (Nat.ltb_spec (String.length (skip go_regexp.perl_s s))
                (S (String.length s))); [|lia].
    rewrite IH by lia. now rewrite collapse_gap.
  - rewrite IH by lia. reflexivity.
Qed.

Lemma ReplaceAllString_reWhitespace s :
  go_regexp.ReplaceAllString analysis.reWhitespace s " " = collapse false s.
Proof. apply replace_loop_collapse. lia. Qed.







(** ** ToLower and TrimSpace on ASCII text *)

Lemma lower_byte_facts c :
  go_regexp.perl_s (go_strings.lower_byte c) = go_regexp.perl_s c
  /\ (go_strings.lower_byte c =? " ")%char = (c =? " ")%char
  /\ not_upper (go_strings.lower_byte c) = true
  /\ go_strings.is_ascii_byte (go_strings.lower_byte c)
     = go_strings.is_ascii_byte c.
Proof.
  destruct c as [[] [] [] [] [] [] [] []]; vm_compute; repeat split.
Qed.

Lemma ToLower_ascii `{GoUnicode} s :
  go_strings.isASCII s = true ->
  go_strings.ToLower s = go_strings.map_bytes go_strings.lower_byte s.
Proof. unfold go_strings.ToLower. now intros ->. Qed.

Lemma map_lower_ascii s :
  go_strings.isASCII (go_strings.map_bytes go_strings.lower_byte s)
  = go_strings.isASCII s.
Proof.
  unfold go_strings.isASCII.
  induction s as [|c s IH]; [reflexivity|].
  cbn [go_strings.map_bytes go_strings.all_bytes].
  destruct (lower_byte_facts c) as (_ & _ & _ & ->). now rewrite IH.
Qed.




(** [drop_trailing_space] returns a prefix that does not end in white
    space. *)
Lemma drop_trailing_space_prefix s :
  exists tail, s = go_strings.drop_trailing_space s +:+ tail.
Proof.
  induction s as [|c s [tail IH]]; [exists ""; reflexivity|].
  cbn [go_strings.drop_trailing_space].
  destruct (go_strings.drop_trailing_space s) as [|d r].
  - destruct (go_strings.asciiSpace c).
    + exists (String c s). reflexivity.
    + exists s. reflexivity.
  - exists tail. change (String c s = String c (String d r +:+ tail)).
    now f_equal.
Qed.

Lemma last_byte_cons c d s :
  go_strings.last_byte (String c (String d s))
  = go_strings.last_byte (String d s).
Proof. reflexivity. Qed.

Lemma drop_trailing_space_end s :
  ends_with_space (go_strings.drop_trailing_space s) = false.
Proof.
  unfold ends_with_space.
  induction s as [|c s IH]; [reflexivity|].
  cbn [go_strings.drop_trailing_space].
  destruct (go_strings.drop_trailing_space s) as [|d r].
  - destruct (go_strings.asciiSpace c) eqn:E; [reflexivity|].
    cbn [go_strings.last_byte]. exact E.
  - rewrite last_byte_cons. exact IH.
Qed.


Lemma last_byte_all_bytes p s c :
  go_strings.last_byte s = Some c ->
  go_strings.all_bytes p s = true -> p c = true.
Proof.
  induction s as [|a s IH]; [discriminate|].
  destruct s as [|d s].
  - cbn. intros [= ->] H. apply andb_prop in H. tauto.
  - rewrite last_byte_cons. intros Hl H. apply IH; [exact Hl|].
    eapply all_bytes_tail. exact H.
Qed.

Lemma trim_right_ascii `{GoUnicode} r :
  go_strings.isASCII r = true ->
  go_strings.trim_right r = go_strings.drop_trailing_space r.
Proof.
  intros Ha. unfold go_strings.trim_right. cbv zeta.
  destruct (go_strings.last_byte (go_strings.drop_trailing_space r))
    as [c|] eqn:E; [|reflexivity].
  destruct (drop_trailing_space_prefix r) as [tail Hr].
  unfold go_strings.isASCII in Ha. rewrite Hr, all_bytes_app in Ha.
  apply andb_prop in Ha. destruct Ha as [Ha _].
  now rewrite (last_byte_all_bytes _ _ _ E Ha).
Qed.

(** On ASCII text [TrimSpace] drops the leading and the trailing
    [asciiSpace] bytes. *)
Lemma TrimSpace_ascii `{GoUnicode} s :
  go_strings.isASCII s = true ->
  go_strings.TrimSpace s
  = go_strings.drop_trailing_space (skip go_strings.asciiSpace s).
Proof.
  unfold go_strings.isASCII.
  induction s as [|c s IH]; [reflexivity|]. intros Ha.
  cbn [go_strings.TrimSpace skip].
  pose proof Ha as Ha'. cbn [go_strings.all_bytes] in Ha'.
  apply andb_prop in Ha'. destruct Ha' as [Hc Hs]. rewrite Hc. cbn [negb].
  destruct (go_strings.asciiSpace c); [now apply IH|].
  now apply trim_right_ascii.
Qed.



Lemma lower_byte_digit c :
  go_regexp.perl_d (go_strings.lower_byte c) = go_regexp.perl_d c.
Proof. destruct c as [[] [] [] [] [] [] [] []]; reflexivity. Qed.

(** [finish] on ASCII text, step by step. *)
Lemma finish_ascii `{GoUnicode} z :
  go_strings.isASCII z = true ->
  exists k,
    finish z
    = take k
        (go_strings.drop_trailing_space
           (skip go_strings.asciiSpace
              (go_strings.map_bytes go_strings.lower_byte (collapse false z)))).
Proof.
  intros Hz. unfold finish. cbv zeta.
  rewrite ReplaceAllString_reWhitespace.
  assert (Hv : go_strings.isASCII (collapse false z) = true).
  { rewrite <- ReplaceAllString_reWhitespace.
    apply ReplaceAllString_all_bytes; [reflexivity | exact Hz]. }
  rewrite ToLower_ascii by exact Hv.
  rewrite TrimSpace_ascii by now rewrite map_lower_ascii.
  destruct (truncateString_spec
              (go_strings.drop_trailing_space
                 (skip go_strings.asciiSpace
                    (go_strings.map_bytes go_strings.lower_byte
                       (collapse false z)))) 500) as (k & -> & _); [lia|].
  now exists k.
Qed.

(** ** SHA-256 and Fingerprint *)

(** Known answers (FIPS 180-4 examples and a message of several blocks). *)
Example Sum256_known_answers :
  go_fmt.Sprintf_x (go_sha256.Sum256 "")
    = "e3b0c44298fc1c149afbf4c8996fb92427ae41e4649b934ca495991b7852b855"
  /\ go_fmt.Sprintf_x (go_sha256.Sum256 "abc")
     = "ba7816bf8f01cfea414140de5dae2223b00361a396177a9cb410ff61f20015ad"
  /\ go_fmt.Sprintf_x
       (go_sha256.Sum256
          "abcdbcdecdefdefgefghfghighijhijkijkljklmklmnlmnomnopnopq")
     = "248d6a61d20638b8e5c026930c3e6039a33ce45964ff2167f6ecedd419db06c1".
Proof. repeat split; vm_compute; reflexivity. Qed.

Example Fingerprint_connection_refused `{GoUnicode} :
  analysis.Fingerprint "2024-02-17T01:47:32.123Z connection refused"
  = "25a84382140b11ac6f9e02f767c8af75143f2739b8fcb7130e5c77206b2bd53e".
Proof. vm_compute. reflexivity. Qed.

(** ** The placeholders *)

Lemma NormalizeMessage_steps `{GoUnicode} msg :
  analysis.NormalizeMessage msg = finish (scrub (strip msg)).
Proof.
  cbv beta zeta delta [analysis.NormalizeMessage finish scrub strip].
  reflexivity.
Qed.

Lemma placeholder_patterns :
  Forall (fun re => nullable re = false /\ bol_free re = true)
    [analysis.reHexAddr; analysis.reUUID; analysis.reBracketNum;
     analysis.reParenNum].
Proof. repeat constructor. Qed.

(** [scrub] works field by field. *)
Lemma scrub_separator c a b :
  separator c = true ->
  scrub (a +:+ String c b) = scrub a +:+ String c (scrub b).
Proof.
  unfold separator. intros H.
  apply andb_prop in H. destruct H as [H H4].
  apply andb_prop in H. destruct H as [H H3].
  apply andb_prop in H. destruct H as [H1 H2].
  unfold scrub. cbv zeta.
  rewrite (ReplaceAllString_barrier analysis.reHexAddr) by (exact H1 || reflexivity).
  rewrite (ReplaceAllString_barrier analysis.reUUID) by (exact H2 || reflexivity).
  rewrite (ReplaceAllString_barrier analysis.reBracketNum) by (exact H3 || reflexivity).
  rewrite (ReplaceAllString_barrier analysis.reParenNum) by (exact H4 || reflexivity).
  reflexivity.
Qed.





(** ** Where a pattern cannot match *)



Lemma fits_app ps qs s t :
  fits ps s = true -> fits qs t = true -> fits (ps ++ qs) (s +:+ t) = true.
Proof.
  revert s. induction ps as [|p ps IH]; intros s Hs Ht.
  - destruct s; [exact Ht | discriminate].
  - destruct s as [|c s]; [discriminate|]. cbn in Hs |- *.
    apply andb_prop in Hs. destruct Hs as [-> Hs]. now apply IH.
Qed.




Lemma perl_d_is_hex c : go_regexp.perl_d c = true -> analysis.is_hex c = true.
Proof. unfold analysis.is_hex. now intros ->. Qed.

Lemma perl_d_not_dash c :
  go_regexp.perl_d c = true -> other_than "-" c = true.
Proof.
  unfold other_than. destruct (Ascii.eqb_spec c "-") as [->|]; [|reflexivity].
  vm_compute. discriminate.
Qed.

Lemma perl_d_not_bracket c :
  go_regexp.perl_d c = true -> other_than "[" c = true.
Proof.
  unfold other_than. destruct (Ascii.eqb_spec c "[") as [->|]; [|reflexivity].
  vm_compute. discriminate.
Qed.


(** *** Hexadecimal addresses *)



(** *** UUIDs *)





(** *** Integers in brackets and in parentheses *)










(** ** The leading timestamp *)

Lemma run_Cat r1 r2 bot s k :
  go_regexp.run (go_regexp.Cat r1 r2) bot s k
  = go_regexp.run r1 bot s (fun b t => go_regexp.run r2 b t k).
Proof. reflexivity. Qed.


Lemma run_Class p bot c s k :
  go_regexp.run (go_regexp.Class p) bot (String c s) k
  = if p c then k false s else None.
Proof. reflexivity. Qed.

(** [reDatetime] begins with [^]: it matches at the beginning of the text
    only. *)
Lemma reDatetime_not_inside s :
  go_regexp.match_from analysis.reDatetime false s = false.
Proof. induction s as [|c s IH]; cbn [go_regexp.match_from]; [reflexivity | exact IH]. Qed.

(** [strip] removes the match of [reDatetime] at the head of the message,
    if there is one. *)
Lemma strip_spec m :
  strip m
  = match go_regexp.match_prefix analysis.reDatetime true m with
    | Some rest => rest
    | None => m
    end.
Proof.
  unfold strip, go_regexp.ReplaceAllString. rewrite replace_loop_unfold.
  destruct (go_regexp.match_prefix analysis.reDatetime true m) as [rest|] eqn:E.
  - apply match_prefix_consumes in E; [|reflexivity]. destruct E as [_ E].
    apply Nat.ltb_lt in E. rewrite E. cbn [String.append].
    apply replace_loop_no_match, reDatetime_not_inside.
  - destruct m as [|c m]; [reflexivity|]. f_equal.
    apply replace_loop_no_match, reDatetime_not_inside.
Qed.

Lemma strip_no_digit m : starts_with go_regexp.perl_d m = false -> strip m = m.
Proof.
  intros H. rewrite strip_spec.
  replace (go_regexp.match_prefix analysis.reDatetime true m) with (@None string);
    [reflexivity|].
  unfold go_regexp.match_prefix, analysis.reDatetime, analysis.digit.
  cbn [go_regexp.Seq go_regexp.Rep]. rewrite !run_Cat.
  cbn [go_regexp.run]. destruct m as [|c m]; [reflexivity|].
  cbn [starts_with] in H. now rewrite H.
Qed.

Lemma perl_s_cases c :
  go_regexp.perl_s c = true ->
  c = "009"%char \/ c = "010"%char \/ c = "012"%char \/ c = "013"%char
  \/ c = " "%char.
Proof.
  unfold go_regexp.perl_s. intros H.
  repeat (apply orb_prop in H; destruct H as [H|H]);
    apply Ascii.eqb_eq in H; tauto.
Qed.

(** White space is none of the bytes a timestamp goes on with. *)
Lemma perl_s_no_stamp c :
  go_regexp.perl_s c = true ->
  go_regexp.perl_d c = false /\ ("." =? c)%char = false
  /\ ("Z" =? c)%char = false /\ ((c =? "+")%char || (c =? "-")%char) = false.
Proof.
  intros H. apply perl_s_cases in H.
  destruct H as [->|[->|[->|[->| ->]]]]; repeat split; reflexivity.
Qed.









(** ** The format of a fingerprint *)





(** ** Fingerprints of messages that differ in tokens *)




Example NormalizeMessage_embedded_timestamp `{GoUnicode} :
  analysis.NormalizeMessage "job started at 2024-02-17T01:47:32Z"
  = "job started at 2024-02-17t01:47:32z".
Proof. vm_compute. reflexivity. Qed.

(** ** Integers in brackets and parentheses do not come back *)

Lemma match_from_unfold re bot s :
  go_regexp.match_from re bot s
  = match go_regexp.match_prefix re bot s with
    | Some _ => true
    | None =>
        match s with
        | EmptyString => false
        | String _ s' => go_regexp.match_from re false s'
        end
    end.
Proof. destruct s; reflexivity. Qed.

Lemma match_from_bot re b1 b2 s :
  bol_free re = true ->
  go_regexp.match_from re b1 s = go_regexp.match_from re b2 s.
Proof.
  intros Hf. rewrite (match_from_unfold re b1), (match_from_unfold re b2).
  now rewrite (match_prefix_bot re b1 b2 s Hf).
Qed.

(** A match in what is left of a text is a match in the text. *)
Lemma match_from_suffix re t s b1 b2 :
  bol_free re = true -> suffix t s ->
  go_regexp.match_from re b1 t = true -> go_regexp.match_from re b2 s = true.
Proof.
  intros Hf [pre ->]. revert b2.
  induction pre as [|c pre IH]; intros b2 H.
  - now rewrite (match_from_bot re b2 b1).
  - cbn [String.append]. rewrite match_from_unfold.
    destruct (go_regexp.match_prefix re b2 _); [reflexivity|]. now apply IH.
Qed.

(** After the digits, a starred class of digits hands over to the closing
    byte. *)
Lemma star_digits_then closing s k bot :
  go_regexp.perl_d closing = false ->
  go_regexp.run (go_regexp.Star (go_regexp.Class go_regexp.perl_d)) bot s
    (fun b t => go_regexp.run (go_regexp.Lit closing) b t k)
  = match skip go_regexp.perl_d s with
    | String e r => if (closing =? e)%char then k false r else None
    | EmptyString => None
    end.
Proof.
  intros Hc. cbn [go_regexp.run].
  generalize (Nat.le_refl (String.length s)).
  generalize (String.length s) at 2 3 as fuel. intros fuel. revert s bot.
  induction fuel as [|fuel IH]; intros s bot Hl; rewrite star_loop_unfold.
  - destruct s; [reflexivity | cbn in Hl; lia].
  - destruct s as [|d s]; [reflexivity|].
    cbn [skip]. destruct (go_regexp.perl_d d) eqn:Ed; [|reflexivity].
    cbn [String.length] in Hl |- *.
    destruct (Nat.ltb_spec (String.length s) (S (String.length s))); [|lia].
    rewrite IH by lia.
    assert (Hd : (closing =? d)%char = false).
    { destruct (Ascii.eqb_spec closing d); [congruence | reflexivity]. }
    unfold go_regexp.Lit. rewrite run_Class, Hd.
    destruct (skip go_regexp.perl_d s) as [|e r]; [reflexivity|].
    destruct (closing =? e)%char; [|reflexivity].
    destruct (k false r); reflexivity.
Qed.

(** The two patterns for integers, in closed form. *)
Lemma match_prefix_num opening closing bot t :
  go_regexp.perl_d closing = false ->
  go_regexp.match_prefix
    (go_regexp.Seq [go_regexp.Lit opening; go_regexp.Plus analysis.digit;
                    go_regexp.Lit closing]) bot t
  = num_rest opening closing t.
Proof.
  intros Hc. unfold go_regexp.match_prefix, go_regexp.Plus, analysis.digit.
  cbn [go_regexp.Seq]. rewrite !run_Cat.
  destruct t as [|a [|d t2]]; cbn [num_rest].
  - reflexivity.
  - unfold go_regexp.Lit. rewrite run_Class.
    destruct (opening =? a)%char; reflexivity.
  - unfold go_regexp.Lit at 1. rewrite run_Class.
    destruct (opening =? a)%char; [|reflexivity]. cbn [andb].
    rewrite !run_Cat, run_Class. destruct (go_regexp.perl_d d); [|reflexivity].
    rewrite (run_ext (go_regexp.Star (go_regexp.Class go_regexp.perl_d)) false t2 _
               (fun b t => go_regexp.run (go_regexp.Lit closing) b t
                             (fun _ rest => Some rest)))
      by reflexivity.
    now rewrite star_digits_then.
Qed.

Lemma skip_split p s :
  exists ds, s = ds +:+ skip p s /\ go_strings.all_bytes p ds = true.
Proof.
  induction s as [|c s (ds & Hs & Hd)]; [exists ""; split; reflexivity|].
  cbn [skip]. destruct (p c) eqn:E.
  - exists (String c ds). cbn [String.append go_strings.all_bytes].
    rewrite E, Hd. split; [now f_equal | reflexivity].
  - exists "". split; reflexivity.
Qed.

Lemma digits_other_than x ds :
  go_regexp.perl_d x = false ->
  go_strings.all_bytes go_regexp.perl_d ds = true ->
  go_strings.all_bytes (other_than x) ds = true.
Proof.
  intros Hx. apply all_bytes_impl. intros c Hc. unfold other_than.
  destruct (Ascii.eqb_spec c x); [congruence | reflexivity].
Qed.

Lemma other_than_neq x c : c <> x -> other_than x c = true.
Proof.
  intros Hc. unfold other_than.
  destruct (Ascii.eqb_spec c x); [contradiction | reflexivity].
Qed.

(** The output of a replacement begins with the bytes the input begins
    with, as far as they differ from the first byte of the replacement. *)
Lemma replace_loop_copies re repl x :
  nullable re = false -> starts_with (Ascii.eqb x) repl = true ->
  forall w fuel bot am s out,
    go_strings.all_bytes (other_than x) w = true ->
    go_regexp.replace_loop fuel re repl bot am s = w +:+ out ->
    exists s2, s = w +:+ s2.
Proof.
  intros Hn Hx. induction w as [|e w IH]; intros fuel bot am s out Hw Ho.
  - exists s. reflexivity.
  - destruct fuel as [|fuel]; [exists out; exact Ho|].
    cbn [go_strings.all_bytes] in Hw. apply andb_prop in Hw.
    destruct Hw as [He Hw]. rewrite replace_loop_unfold in Ho.
    destruct (go_regexp.match_prefix re bot s) as [rest|] eqn:E.
    + apply (match_prefix_consumes _ _ _ _ Hn) in E. destruct E as [_ E].
      apply Nat.ltb_lt in E. rewrite E in Ho.
      destruct repl as [|x' repl']; [discriminate|].
      cbn [starts_with] in Hx. apply Ascii.eqb_eq in Hx. subst x'.
      cbn [String.append] in Ho. injection Ho as <- _.
      unfold other_than in He. now rewrite Ascii.eqb_refl in He.
    + destruct s as [|c s]; [discriminate|].
      cbn [String.append] in Ho. injection Ho as -> Ho.
      destruct (IH _ _ _ _ _ Hw Ho) as [s2 ->]. now exists s2.
Qed.

Lemma collapse_copies :
  forall w s out,
    go_strings.all_bytes (fun c => negb (go_regexp.perl_s c)) w = true ->
    collapse false s = w +:+ out ->
    exists s2, s = w +:+ s2.
Proof.
  induction w as [|e w IH]; intros s out Hw Ho; [now exists s|].
  cbn [go_strings.all_bytes] in Hw. apply andb_prop in Hw.
  destruct Hw as [He Hw]. apply negb_true_iff in He.
  destruct s as [|c s]; [discriminate|]. cbn [collapse String.append] in Ho.
  destruct (go_regexp.perl_s c) eqn:Ec.
  - injection Ho as <- _. discriminate.
  - injection Ho as -> Ho. destruct (IH _ _ Hw Ho) as [s2 ->]. now exists s2.
Qed.

Section EnclosedNumbers.

Variables opening closing : ascii.

Hypothesis opening_no_digit : go_regexp.perl_d opening = false.
Hypothesis closing_no_digit : go_regexp.perl_d closing = false.
Hypothesis closing_not_opening : closing <> opening.

Local Abbreviation reNum := (num_pattern opening closing).

Lemma num_rest_intro ds r :
  not_empty ds = true -> go_strings.all_bytes go_regexp.perl_d ds = true ->
  num_rest opening closing (String opening (ds +:+ String closing r)) = Some r.
Proof.
  destruct ds as [|d ds]; [discriminate|]. intros _ Hd.
  cbn [go_strings.all_bytes] in Hd. apply andb_prop in Hd. destruct Hd as [Hd Hds].
  cbn [String.append num_rest]. rewrite Ascii.eqb_refl, Hd. cbn [andb].
  rewrite skip_app by exact Hds. cbn [skip].
  now rewrite closing_no_digit, Ascii.eqb_refl.
Qed.

Lemma num_rest_digits t r :
  num_rest opening closing t = Some r ->
  exists ds,
    t = String opening (ds +:+ String closing r)
    /\ not_empty ds = true /\ go_strings.all_bytes go_regexp.perl_d ds = true.
Proof.
  destruct t as [|a [|d t2]]; try discriminate. cbn [num_rest].
  destruct (Ascii.eqb_spec opening a) as [<-|]; [|discriminate].
  destruct (go_regexp.perl_d d) eqn:Ed; [|discriminate]. cbn [andb].
  destruct (skip_split go_regexp.perl_d t2) as (ds & Hs & Hd).
  destruct (skip go_regexp.perl_d t2) as [|e r']; [discriminate|].
  destruct (Ascii.eqb_spec closing e) as [<-|]; [|discriminate].
  intros [= ->]. exists (String d ds).
  split; [cbn [String.append]; now rewrite <- Hs|].
  split; [reflexivity|]. cbn [go_strings.all_bytes]. now rewrite Ed, Hd.
Qed.

(** An integer at the head of a text is at the head of every text that
    goes on from it. *)
Lemma num_rest_app t r tail :
  num_rest opening closing t = Some r ->
  num_rest opening closing (t +:+ tail) = Some (r +:+ tail).
Proof.
  intros H. destruct (num_rest_digits _ _ H) as (ds & -> & Hn & Hd).
  cbn [String.append]. rewrite app_assoc_string. cbn [String.append].
  now apply num_rest_intro.
Qed.

Lemma match_from_num_unfold b t :
  go_regexp.match_from reNum b t
  = match num_rest opening closing t with
    | Some _ => true
    | None =>
        match t with
        | EmptyString => false
        | String _ t' => go_regexp.match_from reNum false t'
        end
    end.
Proof.
  rewrite match_from_unfold. unfold num_pattern.
  now rewrite match_prefix_num by exact closing_no_digit.
Qed.

Lemma match_from_num_prefix t tail :
  forall b,
    go_regexp.match_from reNum b t = true ->
    go_regexp.match_from reNum b (t +:+ tail) = true.
Proof.
  induction t as [|c t IH]; intros b;
    rewrite (match_from_num_unfold b (_ +:+ tail)), (match_from_num_unfold b).
  - discriminate.
  - destruct (num_rest opening closing (String c t)) as [r|] eqn:E.
    + now rewrite (num_rest_app _ _ tail E).
    + intros H. cbn [String.append].
      destruct (num_rest opening closing (String c (t +:+ tail)));
        [reflexivity | now apply IH].
Qed.

Hypothesis opening_not_N : opening <> "N"%char.

(** The occurrence of an integer, byte by byte. *)
Lemma num_occurrence x ds :
  x <> opening -> x <> closing -> go_regexp.perl_d x = false ->
  go_strings.all_bytes go_regexp.perl_d ds = true ->
  go_strings.all_bytes (other_than x)
    (String opening (ds +:+ String closing "")) = true.
Proof.
  intros H1 H2 H3 Hd. cbn [go_strings.all_bytes].
  rewrite other_than_neq by congruence. cbn [andb].
  rewrite all_bytes_app, (digits_other_than x ds H3 Hd). cbn.
  rewrite other_than_neq by congruence. reflexivity.
Qed.

(** After [[N]] has been written for the integers in brackets, the text
    holds no integer in brackets (and the same for parentheses). *)
Lemma replace_loop_num_gone fuel :
  forall bot am s b,
    (String.length s < fuel)%nat ->
    go_regexp.match_from reNum b
      (go_regexp.replace_loop fuel reNum (num_placeholder opening closing)
         bot am s)
    = false.
Proof.
  induction fuel as [|fuel IH]; intros bot am s b Hl; [lia|].
  rewrite replace_loop_unfold. unfold num_pattern at 2.
  rewrite match_prefix_num by exact closing_no_digit. fold (num_pattern opening closing).
  destruct (num_rest opening closing s) as [rest|] eqn:E.
  - destruct (num_rest_digits _ _ E) as (ds & -> & _ & _).
    cbn [String.length] in Hl |- *. rewrite app_length_string in Hl |- *.
    cbn [String.length] in Hl |- *.
    destruct (Nat.ltb_spec (String.length rest)
                (S (String.length ds + S (String.length rest)))); [|lia].
    unfold num_placeholder. cbn [String.append].
    rewrite match_from_num_unfold. cbn [num_rest]. rewrite andb_false_r.
    rewrite match_from_num_unfold. cbn [num_rest].
    destruct (Ascii.eqb_spec opening "N"); [contradiction|]. cbn [andb].
    rewrite match_from_num_unfold.
    assert (Hc : num_rest opening closing
                   (String closing
                      (go_regexp.replace_loop fuel reNum
                         (String opening (String "N" (String closing "")))
                         false true rest)) = None).
    { destruct (go_regexp.replace_loop _ _ _ _ _ _); [reflexivity|].
      cbn [num_rest].
      destruct (Ascii.eqb_spec opening closing); [congruence | reflexivity]. }
    rewrite Hc. apply IH. lia.
  - destruct s as [|e s]; [reflexivity|]. cbn [String.length] in Hl.
    remember (go_regexp.replace_loop fuel reNum
                (num_placeholder opening closing) false false s) as out eqn:Hout.
    rewrite match_from_num_unfold.
    destruct (num_rest opening closing (String e out)) as [r|] eqn:Eo;
      [exfalso | subst out; apply IH; lia].
    destruct (num_rest_digits _ _ Eo) as (ds & Ho & Hn & Hd).
    injection Ho as -> Ho.
    assert (Hw : go_strings.all_bytes (other_than opening)
                   (ds +:+ String closing "") = true).
    { rewrite all_bytes_app, (digits_other_than _ _ opening_no_digit Hd). cbn.
      now rewrite other_than_neq. }
    replace (ds +:+ String closing r) with ((ds +:+ String closing "") +:+ r)
      in Ho by now rewrite app_assoc_string.
    rewrite Hout in Ho.
    destruct (replace_loop_copies reNum (num_placeholder opening closing)
                opening eq_refl (Ascii.eqb_refl opening) _ _ _ _ _ _ Hw Ho)
      as [s2 ->].
    rewrite app_assoc_string in E. cbn [String.append] in E.
    rewrite num_rest_intro in E by assumption. discriminate.
Qed.

(** Writing the placeholder of other integers (between [opening2] and
    [closing2]) brings no integer between [opening] and [closing] into the
    text. *)
Section OtherPlaceholder.

Variables opening2 closing2 : ascii.

Hypothesis closing2_no_digit : go_regexp.perl_d closing2 = false.
Hypothesis opening2_no_digit : go_regexp.perl_d opening2 = false.
Hypothesis opening2_other : opening2 <> opening /\ opening2 <> closing.
Hypothesis closing2_other : opening <> closing2.

Lemma replace_loop_num_other fuel :
  forall bot am s b,
    go_regexp.match_from reNum b
      (go_regexp.replace_loop fuel
         (num_pattern opening2 closing2)
         (num_placeholder opening2 closing2) bot am s) = true ->
    go_regexp.match_from reNum b s = true.
Proof.
  set (re2 := num_pattern opening2 closing2).
  induction fuel as [|fuel IH]; intros bot am s b; [exact (fun H => H)|].
  pose proof (replace_loop_unfold (S fuel) re2
                (num_placeholder opening2 closing2) bot am s) as Hstep.
  destruct opening2_other as [Ho1 Ho2].
  destruct (go_regexp.match_prefix re2 bot s) as [rest|] eqn:E.
  - apply (match_prefix_consumes re2 bot s rest eq_refl) in E.
    destruct E as [Hsuf E]. apply Nat.ltb_lt in E. rewrite E in Hstep.
    rewrite Hstep. unfold num_placeholder. cbn [String.append].
    rewrite match_from_num_unfold. cbn [num_rest].
    destruct (Ascii.eqb_spec opening opening2); [congruence|]. cbn [andb].
    rewrite match_from_num_unfold. cbn [num_rest].
    destruct (Ascii.eqb_spec opening "N"); [contradiction|]. cbn [andb].
    rewrite match_from_num_unfold.
    assert (Hc : forall t, num_rest opening closing (String closing2 t) = None).
    { intros [|d t]; [reflexivity|]. cbn [num_rest].
      destruct (Ascii.eqb_spec opening closing2); [congruence | reflexivity]. }
    rewrite Hc. intros H. apply IH in H.
    apply (match_from_suffix reNum rest s false b eq_refl Hsuf H).
  - destruct s as [|e s]; [rewrite Hstep; exact (fun H => H)|].
    intros H. rewrite match_from_num_unfold in H.
    destruct (num_rest opening closing
                (go_regexp.replace_loop (S fuel) re2
                   (num_placeholder opening2 closing2) bot am (String e s)))
      as [r|] eqn:Eo.
    + destruct (num_rest_digits _ _ Eo) as (ds & Ho & Hn & Hd).
      pose proof (num_occurrence opening2 ds Ho1 Ho2 opening2_no_digit Hd) as Hw.
      assert (Hcut : go_regexp.replace_loop (S fuel) re2
                       (num_placeholder opening2 closing2) bot am (String e s)
                     = String opening (ds +:+ String closing "") +:+ r).
      { rewrite Ho. cbn [String.append]. now rewrite app_assoc_string. }
      destruct (replace_loop_copies re2 (num_placeholder opening2 closing2)
                  opening2 eq_refl (Ascii.eqb_refl opening2) _ _ _ _ _ _ Hw Hcut)
        as [s2 Hs].
      rewrite match_from_num_unfold, Hs. cbn [String.append].
      rewrite app_assoc_string. cbn [String.append].
      now rewrite num_rest_intro.
    + rewrite Hstep in H. apply IH in H.
      rewrite match_from_num_unfold.
      destruct (num_rest opening closing (String e s)); [reflexivity | exact H].
Qed.

End OtherPlaceholder.

(** Writing one space for a run of white space brings no integer into the
    text either. *)
Hypothesis no_space : go_regexp.perl_s opening = false
                      /\ go_regexp.perl_s closing = false.

Lemma collapse_num s :
  forall gap b,
    go_regexp.match_from reNum b (collapse gap s) = true ->
    go_regexp.match_from reNum b s = true.
Proof.
  destruct no_space as [Hso Hsc].
  induction s as [|c s IH]; intros gap b; [exact (fun H => H)|].
  assert (Hcopy : go_regexp.match_from reNum b
                    (String c (collapse false s)) = true ->
                  go_strings.all_bytes
                    (fun c => negb (go_regexp.perl_s c)) (String c "") = true ->
                  go_regexp.match_from reNum b (String c s) = true).
  { intros H Hc. rewrite match_from_num_unfold in H.
    destruct (num_rest opening closing (String c (collapse false s)))
      as [r|] eqn:Eo.
    - destruct (num_rest_digits _ _ Eo) as (ds & Ho & Hn & Hd).
      assert (Hw : go_strings.all_bytes (fun c => negb (go_regexp.perl_s c))
                     (String opening (ds +:+ String closing "")) = true).
      { assert (Hds : go_strings.all_bytes
                        (fun c => negb (go_regexp.perl_s c)) ds = true).
        { revert Hd. apply all_bytes_impl. intros x Hx.
          destruct (go_regexp.perl_s x) eqn:Ex; [|reflexivity].
          apply perl_s_no_stamp in Ex. destruct Ex as [Ex _]. congruence. }
        cbn [go_strings.all_bytes]. rewrite Hso. cbn [negb andb].
        rewrite all_bytes_app, Hds. cbn. now rewrite Hsc. }
      assert (Hcut : collapse false (String c s)
                     = String opening (ds +:+ String closing "") +:+ r).
      { cbn [collapse]. cbn in Hc. rewrite andb_true_r in Hc.
        apply negb_true_iff in Hc. rewrite Hc, Ho. cbn [String.append].
        now rewrite app_assoc_string. }
      destruct (collapse_copies _ _ _ Hw Hcut) as [s2 ->].
      rewrite match_from_num_unfold. cbn [String.append].
      rewrite app_assoc_string. cbn [String.append].
      now rewrite num_rest_intro.
    - apply IH in H. rewrite match_from_num_unfold.
      destruct (num_rest opening closing (String c s)); [reflexivity | exact H]. }
  assert (Hskip : forall g b',
            go_regexp.match_from reNum b' (collapse g s) = true ->
            go_regexp.match_from reNum b (String c s) = true).
  { intros g b' H. apply IH in H.
    apply (match_from_suffix reNum s (String c s) b' b eq_refl (suffix_cons c s) H). }
  cbn [collapse]. destruct (go_regexp.perl_s c) eqn:Ec.
  - destruct gap; [apply Hskip|].
    rewrite match_from_num_unfold.
    assert (Hn : num_rest opening closing (String " " (collapse true s)) = None).
    { destruct (collapse true s); [reflexivity|]. cbn [num_rest].
      destruct (Ascii.eqb_spec opening " ") as [->|]; [discriminate Hso|].
      reflexivity. }
    rewrite Hn. apply Hskip.
  - intros H. apply Hcopy; [exact H|]. cbn. now rewrite Ec.
Qed.

(** Lower case, and cutting at either end, bring none either. *)
Hypothesis lower_keeps :
  forall a, (opening =? go_strings.lower_byte a)%char = (opening =? a)%char
            /\ (closing =? go_strings.lower_byte a)%char = (closing =? a)%char.

Lemma skip_digits_lower t :
  skip go_regexp.perl_d (go_strings.map_bytes go_strings.lower_byte t)
  = go_strings.map_bytes go_strings.lower_byte (skip go_regexp.perl_d t).
Proof.
  induction t as [|c t IH]; [reflexivity|].
  cbn [go_strings.map_bytes skip]. rewrite lower_byte_digit.
  destruct (go_regexp.perl_d c); [exact IH | reflexivity].
Qed.

Lemma num_rest_lower t :
  num_rest opening closing (go_strings.map_bytes go_strings.lower_byte t)
  = option_map (go_strings.map_bytes go_strings.lower_byte)
      (num_rest opening closing t).
Proof.
  destruct t as [|a [|d t2]]; try reflexivity.
  cbn [go_strings.map_bytes num_rest].
  rewrite (proj1 (lower_keeps a)), lower_byte_digit, skip_digits_lower.
  destruct ((opening =? a)%char && go_regexp.perl_d d); [|reflexivity].
  destruct (skip go_regexp.perl_d t2) as [|e r]; [reflexivity|].
  cbn [go_strings.map_bytes]. rewrite (proj2 (lower_keeps e)).
  destruct (closing =? e)%char; reflexivity.
Qed.

Lemma match_from_num_lower t :
  forall b,
    go_regexp.match_from reNum b
      (go_strings.map_bytes go_strings.lower_byte t)
    = go_regexp.match_from reNum b t.
Proof.
  induction t as [|c t IH]; intros b; [reflexivity|].
  rewrite (match_from_num_unfold b (String c t)), match_from_num_unfold.
  rewrite num_rest_lower.
  destruct (num_rest opening closing (String c t)); [reflexivity|].
  cbn [option_map go_strings.map_bytes]. apply IH.
Qed.

(** None of the steps of [finish] brings an integer between [opening] and
    [closing] into an ASCII text. *)
Lemma finish_num `{GoUnicode} z b :
  go_strings.isASCII z = true ->
  go_regexp.match_from reNum b (finish z) = true ->
  go_regexp.match_from reNum b z = true.
Proof.
  intros Hz Hm. destruct (finish_ascii z Hz) as [k Hk]. rewrite Hk in Hm.
  set (u := go_strings.map_bytes go_strings.lower_byte (collapse false z)) in *.
  set (r := skip go_strings.asciiSpace u) in *.
  set (t := go_strings.drop_trailing_space r) in *.
  apply (match_from_num_prefix (take k t) (drop k t)) in Hm.
  rewrite take_drop in Hm.
  destruct (drop_trailing_space_prefix r) as [tail Ht]. fold t in Ht.
  apply (match_from_num_prefix t tail) in Hm. rewrite <- Ht in Hm.
  apply (match_from_suffix reNum r u b b eq_refl
           (skip_suffix go_strings.asciiSpace u)) in Hm.
  unfold u in Hm. rewrite match_from_num_lower in Hm.
  now apply collapse_num in Hm.
Qed.

End EnclosedNumbers.

(** ** Normal forms *)

Lemma strip_ascii m :
  go_strings.isASCII m = true -> go_strings.isASCII (strip m) = true.
Proof. apply ReplaceAllString_all_bytes. reflexivity. Qed.

Lemma scrub_ascii m :
  go_strings.isASCII m = true -> go_strings.isASCII (scrub m) = true.
Proof.
  intros H. unfold scrub. cbv zeta.
  repeat (apply ReplaceAllString_all_bytes; [reflexivity|]). exact H.
Qed.






Lemma lower_keeps_delimiters a :
  (("[" =? go_strings.lower_byte a)%char = ("[" =? a)%char
   /\ ("]" =? go_strings.lower_byte a)%char = ("]" =? a)%char)
  /\ (("(" =? go_strings.lower_byte a)%char = ("(" =? a)%char
      /\ (")" =? go_strings.lower_byte a)%char = (")" =? a)%char).
Proof. destruct a as [[] [] [] [] [] [] [] []]; repeat split. Qed.




Example NormalizeMessage_twice `{GoUnicode} :
  analysis.NormalizeMessage "segfault at 0x7fff5fc00000 in main"
  = "segfault at 0xaddr in main"
  /\ analysis.NormalizeMessage "segfault at 0xaddr in main"
     = "segfault at 0xaddrr in main".
Proof. split; vm_compute; reflexivity. Qed.

(** ** sort.Slice *)

Section InsertionSort.
Context {A : Type} (less : A -> A -> bool).

Hypothesis less_asym : forall x y, less x y = true -> less y x = false.
Hypothesis may_precede_trans :
  forall x y z,
    may_precede less x y -> may_precede less y z -> may_precede less x z.

Lemma sift_elements x acc y : In y (go_sort.sift less x acc) <-> y = x \/ In y acc.
Proof.
  induction acc as [|a acc IH]; simpl.
  - intuition.
  - destruct (less x a); simpl; [rewrite IH|]; intuition.
Qed.

Lemma sift_sorted x acc :
  StronglySorted (fun u v => may_precede less v u) acc ->
  StronglySorted (fun u v => may_precede less v u) (go_sort.sift less x acc).
Proof.
  induction acc as [|a acc IH]; intros Hs; simpl.
  - constructor; constructor.
  - inversion Hs as [|? ? Hacc Hall]; subst.
    destruct (less x a) eqn:E.
    + constructor; [auto|].
      apply List.Forall_forall. intros y Hy. apply sift_elements in Hy.
      destruct Hy as [->|Hy].
      * apply less_asym. exact E.
      * rewrite List.Forall_forall in Hall. auto.
    + constructor; [exact Hs|].
      constructor; [exact E|].
      rewrite List.Forall_forall in Hall |- *. intros y Hy.
      apply (may_precede_trans _ a); auto.
Qed.

Lemma sorted_snoc (P : A -> A -> Prop) l a :
  StronglySorted P l -> Forall (fun x => P x a) l ->
  StronglySorted P (l ++ [a]).
Proof.
  induction l as [|b l IH]; intros Hs Hall; simpl.
  - constructor; constructor.
  - inversion Hs; subst. inversion Hall; subst.
    constructor; [auto|].
    apply Forall_app. split; [assumption | constructor; [assumption | constructor]].
Qed.

Lemma sorted_rev (P : A -> A -> Prop) l :
  StronglySorted (fun u v => P v u) l -> StronglySorted P (rev l).
Proof.
  induction 1 as [|a l Hs IH Hall]; simpl; [constructor|].
  apply sorted_snoc; [exact IH|].
  apply List.Forall_forall. intros x Hx. apply in_rev in Hx.
  rewrite List.Forall_forall in Hall. auto.
Qed.

(** Insertion sort leaves no element after one it is [less] than. *)
Lemma Slice_sorted x : StronglySorted (may_precede less) (go_sort.Slice less x).
Proof.
  unfold go_sort.Slice. apply sorted_rev.
  assert (G : forall acc,
             StronglySorted (fun u v => may_precede less v u) acc ->
             StronglySorted (fun u v => may_precede less v u)
               (fold_left (fun prefix_rev e => go_sort.sift less e prefix_rev) x acc)).
  { induction x as [|e x IH]; intros acc Hacc; simpl; [exact Hacc|].
    apply IH. apply sift_sorted. exact Hacc. }
  apply G. constructor.
Qed.

Lemma sift_perm x acc : Permutation (go_sort.sift less x acc) (x :: acc).
Proof.
  induction acc as [|a acc IH]; simpl; [reflexivity|].
  destruct (less x a); [|reflexivity].
  rewrite IH. apply perm_swap.
Qed.

(** It only reorders the elements. *)
Lemma Slice_perm x : Permutation (go_sort.Slice less x) x.
Proof.
  unfold go_sort.Slice. rewrite <- Permutation_rev.
  assert (G : forall acc,
             Permutation
               (fold_left (fun prefix_rev e => go_sort.sift less e prefix_rev) x acc)
               (x ++ acc)).
  { induction x as [|e x IH]; intros acc; simpl; [reflexivity|].
    rewrite IH, sift_perm. symmetry. apply Permutation_middle. }
  rewrite G, app_nil_r. reflexivity.
Qed.
End InsertionSort.

(** ** LevelSeverity and Cluster *)

(** The table of [TestLevelSeverity]. *)
Example LevelSeverity_tests `{GoUnicode} :
  map analysis.LevelSeverity
    ["fatal"; "FATAL"; "critical"; "CRITICAL"; "error"; "ERROR"; "warn";
     "WARN"; "warning"; "WARNING"; "info"; "debug"; "unknown"]
  = [4; 4; 3; 3; 2; 2; 1; 1; 1; 1; 0; 0; 0].
Proof. vm_compute. reflexivity. Qed.

Lemma less_spec `{GoUnicode} a b :
  analysis.less a b = true <->
  models.ErrorCluster.Count b < models.ErrorCluster.Count a
  \/ (models.ErrorCluster.Count a = models.ErrorCluster.Count b
      /\ analysis.LevelSeverity (models.ErrorCluster.Level b)
         < analysis.LevelSeverity (models.ErrorCluster.Level a)).
Proof.
  unfold analysis.less.
  destruct (models.ErrorCluster.Count a =? models.ErrorCluster.Count b) eqn:E; simpl.
  - apply Z.eqb_eq in E. rewrite Z.ltb_lt. lia.
  - apply Z.eqb_neq in E. rewrite Z.ltb_lt. lia.
Qed.

Lemma less_false_key_ge `{GoUnicode} a b :
  analysis.less b a = false <-> key_ge a b.
Proof.
  unfold key_ge. split.
  - intros Hf.
    destruct (Z.lt_trichotomy (models.ErrorCluster.Count a) (models.ErrorCluster.Count b)) as [Hlt|[Heq|Hgt]].
    + assert (analysis.less b a = true) by (apply less_spec; lia). congruence.
    + destruct (Z.lt_ge_cases (analysis.LevelSeverity (models.ErrorCluster.Level a))
                  (analysis.LevelSeverity (models.ErrorCluster.Level b))) as [Hs|Hs]; [|lia].
      assert (analysis.less b a = true) by (apply less_spec; lia). congruence.
    + lia.
  - intros Hk. destruct (analysis.less b a) eqn:E; [|reflexivity].
    apply less_spec in E. lia.
Qed.

(** Whatever algorithm [sort.Slice] runs, an output in which no element
    stands after one it is [less] than is ordered by (count, severity),
    non-increasingly. *)
Lemma sorted_by_less_is_ordered `{GoUnicode} (out : list models.ErrorCluster.t) :
  StronglySorted (may_precede analysis.less) out -> StronglySorted key_ge out.
Proof.
  induction 1 as [|a l Hs IH Hall]; constructor; [exact IH|].
  rewrite List.Forall_forall in Hall |- *. intros b Hb.
  apply less_false_key_ge. apply Hall. exact Hb.
Qed.

Lemma Slice_less_ordered `{GoUnicode} (x : list models.ErrorCluster.t) :
  StronglySorted key_ge (go_sort.Slice analysis.less x).
Proof.
  apply sorted_by_less_is_ordered. apply Slice_sorted.
  - intros a b Hab. apply less_spec in Hab.
    destruct (analysis.less b a) eqn:E; [|reflexivity].
    apply less_spec in E. lia.
  - unfold may_precede. intros a b c Hab Hbc.
    apply less_false_key_ge. apply less_false_key_ge in Hab, Hbc.
    unfold key_ge in *. lia.
Qed.

Lemma LevelSeverity_range `{GoUnicode} l :
  0 <= analysis.LevelSeverity l <= 4.
Proof.
  unfold analysis.LevelSeverity.
  repeat match goal with |- context [if ?c then _ else _] => destruct c end; lia.
Qed.

Lemma LevelSeverity_zero `{GoUnicode} l :
  analysis.LevelSeverity l = 0 <->
  ~ In (go_strings.ToUpper l) ["FATAL"; "CRITICAL"; "ERROR"; "WARN"; "WARNING"].
Proof.
  unfold analysis.LevelSeverity. simpl In.
  repeat match goal with
         | |- context [String.eqb ?a ?b] =>
             let E := fresh "E" in
             destruct (String.eqb a b) eqn:E;
             [apply String.eqb_eq in E | apply String.eqb_neq in E]
         end; simpl; split; intros Hx; try lia; try congruence; intuition congruence.
Qed.

(** C7. For every batch of log lines (and whatever order the runtime
    visits the groups in), [Cluster] returns a non-nil slice that is sorted
    non-increasingly by (count, severity): each cluster has a larger count
    than every later one, or the same count and a severity at least as high.
    Severities order the levels as FATAL > CRITICAL > ERROR > WARN = WARNING
    > everything else (0 exactly for the levels that are none of the five,
    case apart).  For an empty input the result is the empty, non-nil
    slice. *)
Theorem Cluster_sorted_by_count_then_severity `{GoUnicode} `{GoRuntime}
    (lines : list models.LogLine.t) (service namespace : string) :
  StronglySorted key_ge (slice_elems (analysis.Cluster lines service namespace))
  /\ is_nil (analysis.Cluster lines service namespace) = false
  /\ (length lines = 0%nat ->
      analysis.Cluster lines service namespace = mk_slice [])
  /\ (analysis.LevelSeverity "FATAL" > analysis.LevelSeverity "CRITICAL"
      /\ analysis.LevelSeverity "CRITICAL" > analysis.LevelSeverity "ERROR"
      /\ analysis.LevelSeverity "ERROR" > analysis.LevelSeverity "WARN"
      /\ analysis.LevelSeverity "WARN" = analysis.LevelSeverity "WARNING"
      /\ analysis.LevelSeverity "WARNING" > 0)
  /\ (forall l,
        0 <= analysis.LevelSeverity l
        /\ (analysis.LevelSeverity l = 0 <->
            ~ In (go_strings.ToUpper l)
                ["FATAL"; "CRITICAL"; "ERROR"; "WARN"; "WARNING"])).
Proof.
  split; [|split; [|split; [|split]]].
  - unfold analysis.Cluster.
    destruct (length lines =? 0)%nat; simpl; [constructor|].
    apply Slice_less_ordered.
  - unfold analysis.Cluster. destruct (length lines =? 0)%nat; reflexivity.
  - intros ->%length_zero_iff_nil. reflexivity.
  - vm_compute. repeat split; reflexivity.
  - intros l. split; [apply LevelSeverity_range | apply LevelSeverity_zero].
Qed.

(** ** The job state machine *)

Lemma contains_In allowed status :
  store.contains allowed status = true <-> In status allowed.
Proof.
  induction allowed as [|a allowed IH]; simpl.
  - split; [discriminate | tauto].
  - destruct (String.eqb a status) eqn:E.
    + apply String.eqb_eq in E. tauto.
    + apply String.eqb_neq in E. rewrite IH. intuition congruence.
Qed.

Lemma validTransitions_permitted old new :
  store.contains (default [] (store.validTransitions !! old)) new = true
  <-> permitted old new.
Proof.
  rewrite contains_In. unfold store.validTransitions, permitted.
  destruct (decide (old = "pending")) as [->|Hp].
  { rewrite lookup_insert_eq. simpl. intuition congruence. }
  rewrite lookup_insert_ne by congruence.
  destruct (decide (old = "running")) as [->|Hr].
  { rewrite lookup_singleton_eq. simpl. intuition congruence. }
  rewrite lookup_singleton_ne by congruence. simpl. intuition congruence.
Qed.



(** The transition of [TestJob_UpdateStatusInvalidTransition]. *)
Example UpdateJobStatus_pending_to_completed :
  snd (store.UpdateJobStatus store_with_pending_job 2000 7%N "completed" [])
  = Some (store.Errorf "invalid job status transition: pending -> completed").
Proof. reflexivity. Qed.

(** ** UpsertErrorCluster *)

(** The row an upsert leaves on a conflict with [row]. *)
Lemma upsert_conflict s now c row s' r :
  store.error_clusters s !! store.key_of c = Some row ->
  store.UpsertErrorCluster s now c = (s', inl r) ->
  models.ErrorCluster.ID r = models.ErrorCluster.ID row
  /\ models.ErrorCluster.Level r = models.ErrorCluster.Level row
  /\ models.ErrorCluster.Count r
     = models.ErrorCluster.Count row + models.ErrorCluster.Count c
  /\ models.ErrorCluster.LastSeenAt r
     = Z.max (models.ErrorCluster.LastSeenAt row) (models.ErrorCluster.LastSeenAt c)
  /\ models.ErrorCluster.FirstSeenAt r = models.ErrorCluster.FirstSeenAt row
  /\ models.ErrorCluster.SampleMessage r = models.ErrorCluster.SampleMessage row
  /\ models.ErrorCluster.UpdatedAt r = now
  /\ store.error_clusters s' = <[store.key_of c := r]> (store.error_clusters s).
Proof.
  intros Hrow. unfold store.UpsertErrorCluster. rewrite Hrow.
  repeat match goal with
         | |- context [if ?b then _ else _] => destruct b
         end; intros H; inversion H; subst; clear H; cbn.
  repeat split; reflexivity.
Qed.

(** The row an upsert leaves when its key is new. *)
Lemma upsert_insert s now c s' r :
  store.error_clusters s !! store.key_of c = None ->
  store.UpsertErrorCluster s now c = (s', inl r) ->
  r = c
  /\ store.error_clusters s' = <[store.key_of c := c]> (store.error_clusters s).
Proof.
  intros Hrow. unfold store.UpsertErrorCluster. rewrite Hrow.
  repeat match goal with
         | |- context [if ?b then _ else _] => destruct b
         end; intros H; inversion H; subst; clear H; cbn.
  split; reflexivity.
Qed.

Lemma upsert_error s now c s' e :
  store.UpsertErrorCluster s now c = (s', inr e) -> s' = s.
Proof.
  unfold store.UpsertErrorCluster.
  repeat match goal with
         | |- context [if ?b then _ else _] => destruct b
         | |- context [match ?o with Some _ => _ | None => _ end] => destruct o
         end; intros H; inversion H; subst; reflexivity.
Qed.

(** An upsert touches no row under another key. *)
Lemma upsert_other_key s now c k :
  k <> store.key_of c ->
  store.error_clusters (fst (store.UpsertErrorCluster s now c)) !! k
  = store.error_clusters s !! k.
Proof.
  intros Hk. unfold store.UpsertErrorCluster.
  repeat match goal with
         | |- context [if ?b then _ else _] => destruct b
         | |- context [match ?o with Some _ => _ | None => _ end] => destruct o
         end; cbn; try reflexivity; apply lookup_insert_ne; congruence.
Qed.

(** A stored row keeps its identifier and its level through any upsert. *)
Lemma upsert_keeps_level s now c k row :
  store.error_clusters s !! k = Some row ->
  exists row',
    store.error_clusters (fst (store.UpsertErrorCluster s now c)) !! k = Some row'
    /\ models.ErrorCluster.Level row' = models.ErrorCluster.Level row
    /\ models.ErrorCluster.ID row' = models.ErrorCluster.ID row.
Proof.
  intros Hrow.
  destruct (decide (k = store.key_of c)) as [->|Hne].
  - destruct (store.UpsertErrorCluster s now c) as [s' [r|e]] eqn:E; cbn.
    + destruct (upsert_conflict _ _ _ _ _ _ Hrow E) as (Hid & Hl & _ & _ & _ & _ & _ & Hs).
      exists r. rewrite Hs, lookup_insert_eq. auto.
    + apply upsert_error in E. subst s'. eauto.
  - rewrite upsert_other_key by exact Hne. eauto.
Qed.

Lemma upserts_keep_level calls :
  forall s k row,
    store.error_clusters s !! k = Some row ->
    exists row',
      store.error_clusters (upserts s calls) !! k = Some row'
      /\ models.ErrorCluster.Level row' = models.ErrorCluster.Level row
      /\ models.ErrorCluster.ID row' = models.ErrorCluster.ID row.
Proof.
  induction calls as [|[now c] calls IH]; intros s k row Hrow; cbn.
  - eauto.
  - destruct (upsert_keeps_level s now c k row Hrow) as (row1 & H1 & Hl1 & Hi1).
    destruct (IH _ _ _ H1) as (row2 & H2 & Hl2 & Hi2).
    exists row2. repeat split; [exact H2 | congruence | congruence].
Qed.









(** C1, as the code has it.  When [UpsertErrorCluster] hits an existing
    (tenant, service, namespace, fingerprint) row, the canonical row it
    returns (and stores) carries the level and the identifier of the stored
    row, whatever the level of the incoming cluster; and whatever is
    upserted afterwards, in any number of calls, the row keeps the level it
    was inserted with. *)
Theorem upsert_conflict_keeps_stored_level (s : store.PostgresStore)
    (now : Time) (c row : models.ErrorCluster.t) :
  store.error_clusters s !! store.key_of c = Some row ->
  (forall s' r,
      store.UpsertErrorCluster s now c = (s', inl r) ->
      models.ErrorCluster.Level r = models.ErrorCluster.Level row
      /\ models.ErrorCluster.ID r = models.ErrorCluster.ID row
      /\ store.error_clusters s' !! store.key_of c = Some r)
  /\ (forall calls,
        exists row',
          store.error_clusters (upserts s calls) !! store.key_of c = Some row'
          /\ models.ErrorCluster.Level row' = models.ErrorCluster.Level row).
Proof.
  intros Hrow. split.
  - intros s' r E.
    destruct (upsert_conflict _ _ _ _ _ _ Hrow E) as (Hid & Hl & _ & _ & _ & _ & _ & Hs).
    repeat split; [exact Hl | exact Hid |].
    rewrite Hs. apply lookup_insert_eq.
  - intros calls.
    destruct (upserts_keep_level calls _ _ _ Hrow) as (row' & H1 & H2 & _).
    eauto.
Qed.

(** The theorem on a stored row of level ERROR and an incoming cluster of
    level FATAL: the call succeeds and the returned row is at level
    ERROR. *)
Lemma upsert_conflict_keeps_stored_level_witness :
  store.error_clusters store_with_error_row
    !! store.key_of (merge_cluster 12%N "FATAL" 1300 7)
  = Some (merge_cluster 11%N "ERROR" 1000 3)
  /\ exists s' r,
       store.UpsertErrorCluster store_with_error_row 1300
         (merge_cluster 12%N "FATAL" 1300 7) = (s', inl r)
       /\ models.ErrorCluster.Level r = "ERROR".
Proof.
  assert (H : store.error_clusters store_with_error_row
                !! store.key_of (merge_cluster 12%N "FATAL" 1300 7)
              = Some (merge_cluster 11%N "ERROR" 1000 3))
    by (vm_compute; reflexivity).
  split; [exact H|].
  destruct (store.UpsertErrorCluster store_with_error_row 1300
              (merge_cluster 12%N "FATAL" 1300 7)) as [s' [r|e]] eqn:E.
  - exists s', r. split; [reflexivity|].
    apply (proj1 (upsert_conflict_keeps_stored_level
                    store_with_error_row 1300 _ _ H) s' r E).
  - vm_compute in E. discriminate.
Defined.

(** C1, as the claim has it, fails: the stored row is at level ERROR, the
    incoming cluster at FATAL (a strictly higher severity), and the row
    returned is not at the level of the incoming cluster. *)
Lemma upsert_higher_severity_counterexample :
  ~ (forall (U : GoUnicode) s' r row,
       store.error_clusters store_with_error_row
         !! store.key_of (merge_cluster 12%N "FATAL" 1300 7) = Some row ->
       analysis.LevelSeverity (models.ErrorCluster.Level row)
       < analysis.LevelSeverity
           (models.ErrorCluster.Level (merge_cluster 12%N "FATAL" 1300 7)) ->
       store.UpsertErrorCluster store_with_error_row 1300
         (merge_cluster 12%N "FATAL" 1300 7) = (s', inl r) ->
       models.ErrorCluster.Level r
       = models.ErrorCluster.Level (merge_cluster 12%N "FATAL" 1300 7)).
Proof.
  intros H.
  assert (Hrow : store.error_clusters store_with_error_row
                   !! store.key_of (merge_cluster 12%N "FATAL" 1300 7)
                 = Some (merge_cluster 11%N "ERROR" 1000 3))
    by (vm_compute; reflexivity).
  destruct (store.UpsertErrorCluster store_with_error_row 1300
              (merge_cluster 12%N "FATAL" 1300 7)) as [s' [r|e]] eqn:E.
  - specialize (H ascii_tables s' r _ Hrow).
    assert (Hl : models.ErrorCluster.Level r = "ERROR")
      by apply (upsert_conflict _ _ _ _ _ _ Hrow E).
    rewrite Hl in H. cbn in H.
    assert (Hsev : @analysis.LevelSeverity ascii_tables "ERROR"
                   < @analysis.LevelSeverity ascii_tables "FATAL")
      by (vm_compute; reflexivity).
    specialize (H Hsev eq_refl). discriminate.
  - vm_compute in E. discriminate.
Qed.

(** ** The analysis service *)


Lemma SFcompare_one_antisym (m : positive) (e : Z) :
  SFcompare (S754_finite false m e) ai.float_one
  = option_map CompOpp (SFcompare ai.float_one (S754_finite false m e)).
Proof.
  cbv beta iota delta [SFcompare ai.float_one option_map].
  rewrite (Z.compare_antisym e (-52)).
  destruct (e ?= -52); cbn [CompOpp]; try reflexivity.
  f_equal. symmetry. apply (Pos.compare_cont_antisym (2 ^ 52) m Eq).
Qed.

(** NaN apart, the clamp yields a confidence the table accepts. *)
Lemma clamp_passes_check c :
  c <> S754_nan -> store.confidence_check (ai.clamp c) = true.
Proof.
  intros Hnan.
  destruct c as [[]|[]| |[] m e]; try reflexivity; try congruence.
  assert (H0 : SFltb (S754_finite false m e) ai.float_zero = false) by reflexivity.
  assert (Hge : store.float8_ge (S754_finite false m e) store.float8_zero = true)
    by reflexivity.
  assert (Hle : store.float8_le (S754_finite false m e) store.float8_one
                = match SFcompare (S754_finite false m e) ai.float_one with
                  | Some Gt => false
                  | _ => true
                  end).
  { unfold store.float8_le, store.float8_cmp.
    change store.float8_one with ai.float_one.
    destruct (SFcompare (S754_finite false m e) ai.float_one) as [[]|] eqn:E;
      unfold ai.float_one in *; cbn in E |- *; rewrite ?E; reflexivity. }
  unfold ai.clamp. rewrite H0. unfold SFltb.
  pose proof (SFcompare_one_antisym m e) as Ha.
  destruct (SFcompare ai.float_one (S754_finite false m e)) as [[]|] eqn:E;
    try reflexivity;
    unfold store.confidence_check; rewrite Hge, Hle, Ha; reflexivity.
Qed.

Example clamp_one_and_a_half : ai.clamp float_1_5 = ai.float_one.
Proof. reflexivity. Qed.




(** The truncated text, in terms of the text of the provider. *)
Lemma truncated_text (s : string) (maxBytes : Z) :
  0 <= maxBytes ->
  let r := default s (ai.truncateString s maxBytes) in
  len r <= maxBytes
  /\ (exists t, s = r +:+ t)
  /\ rune_boundary s (String.length r)
  /\ (go_utf8.ValidString s = true -> go_utf8.ValidString r = true).
Proof.
  intros Hm r. subst r. rewrite ai_truncateString_eq.
  destruct (truncateString_spec s maxBytes Hm) as (k & Hk & Hle & Hkm & Hb & _).
  rewrite Hk. change (default s (Some (take k s))) with (take k s).
  assert (Hlen : String.length (take k s) = k) by (rewrite take_length; lia).
  split; [unfold len; rewrite Hlen; lia|]. split.
  { exists (drop k s). symmetry. apply take_drop. }
  split; [rewrite Hlen; exact Hb|].
  intros Hv.
  apply (ValidString_cut (String.length s) s k (Nat.le_refl _) Hv Hle Hb).
Qed.


(** The run of [TestRunAnalysis_ClampsConfidence] on the store with the
    pending job: the provider answers 1.5 and the result is persisted with
    confidence 1.0. *)
Example runAnalysis_clamps_confidence :
  map models.AnalysisResult.Confidence
    (store.analysis_results
       (ai.db
          (@ai.runAnalysis _ _ ascii_tables (mock_service float_1_5)
             {| ai.now_running := 2000; ai.result_id := 21%N;
                ai.now_result := 3000; ai.now_last := 4000 |}
             (merge_cluster 11%N "ERROR" 1000 3) 7%N 1%N
             {| ai.db := store_with_pending_job; ai.ca := empty_cache |})))
  = [ai.float_one].
Proof. vm_compute. reflexivity. Qed.

(** C10. For every successful [Summarize] call, the result names the
    provider ([provider.Name()]) and its [Model] field is the empty string:
    nothing fills it in. *)
Theorem Summarize_provider_set_model_empty `{GoUnicode}
    (s : ai.AnalysisService) (params : ai.SummarizeParams)
    (r : ai.SummarizeResult) :
  ai.Summarize s params = returns r ->
  ai.Provider r = models.AIProvider.Name (ai.provider s)
  /\ ai.Model r = "".
Proof.
  unfold ai.Summarize.
  destruct (ai.loki_ s _) as [logs|err|v]; try discriminate.
  destruct (length logs =? 0)%nat; try discriminate.
  destruct (models.AIProvider.Summarize (ai.provider s) _) as [summary|err|v];
    try discriminate.
  intros Hr. inversion Hr; subst. split; reflexivity.
Qed.

(** The theorem on the service of [TestSummarize_Success], cut down to one
    line. *)
Lemma Summarize_provider_set_model_empty_witness :
  @ai.Summarize ascii_tables (mock_service float_1_5) mock_params
  = returns
      {| ai.Summary := "Summary of 1 log line";
         ai.LinesAnalyzed := 1;
         ai.From := 0;
         ai.To := 3600 * Second;
         ai.Provider := "mock";
         ai.Model := "" |}
  /\ ai.Provider
       {| ai.Summary := "Summary of 1 log line";
          ai.LinesAnalyzed := 1;
          ai.From := 0;
          ai.To := 3600 * Second;
          ai.Provider := "mock";
          ai.Model := "" |}
     = models.AIProvider.Name (ai.provider (mock_service float_1_5))
  /\ ai.Model
       {| ai.Summary := "Summary of 1 log line";
          ai.LinesAnalyzed := 1;
          ai.From := 0;
          ai.To := 3600 * Second;
          ai.Provider := "mock";
          ai.Model := "" |}
     = "".
Proof.
  assert (E : @ai.Summarize ascii_tables (mock_service float_1_5) mock_params
              = returns
                  {| ai.Summary := "Summary of 1 log line";
                     ai.LinesAnalyzed := 1;
                     ai.From := 0;
                     ai.To := 3600 * Second;
                     ai.Provider := "mock";
                     ai.Model := "" |})
    by reflexivity.
  split; [exact E|].
  exact (@Summarize_provider_set_model_empty ascii_tables _ _ _ E).
Defined.

(** ** The rate-limit middleware *)

Lemma wrap64_small z : min_int64 <= z <= max_int64 -> wrap64 z = z.
Proof.
  unfold wrap64, min_int64, max_int64. intros Hz.
  rewrite Z.mod_small; lia.
Qed.

Lemma Unix_Add_seconds now n :
  Unix (Time_Add now (n * Second)) = Unix now + n.
Proof.
  unfold Unix, Time_Add, Second. apply Z.div_add. lia.
Qed.

(** The canonical forms of the header names of the middleware. *)
Lemma canonical_header_keys :
  middleware.CanonicalMIMEHeaderKey "X-RateLimit-Limit" = "X-Ratelimit-Limit"
  /\ middleware.CanonicalMIMEHeaderKey "X-RateLimit-Remaining"
     = "X-Ratelimit-Remaining"
  /\ middleware.CanonicalMIMEHeaderKey "X-RateLimit-Reset" = "X-Ratelimit-Reset"
  /\ middleware.CanonicalMIMEHeaderKey "Retry-After" = "Retry-After"
  /\ middleware.CanonicalMIMEHeaderKey "Content-Type" = "Content-Type".
Proof. repeat split; reflexivity. Qed.

Lemma Header_Get_Set_same h key value :
  middleware.Header_Get (middleware.Header_Set h key value) key = value.
Proof.
  unfold middleware.Header_Get, middleware.Header_Set.
  rewrite lookup_insert_eq. reflexivity.
Qed.

Lemma Header_Get_Set_other h key key' value :
  middleware.CanonicalMIMEHeaderKey key <> middleware.CanonicalMIMEHeaderKey key' ->
  middleware.Header_Get (middleware.Header_Set h key value) key'
  = middleware.Header_Get h key'.
Proof.
  intros Hne. unfold middleware.Header_Get, middleware.Header_Set.
  rewrite lookup_insert_ne by exact Hne. reflexivity.
Qed.

Lemma NewRateLimit_positive configured :
  configured <= max_int64 ->
  0 < middleware.requestsPerMin (middleware.NewRateLimit configured) <= max_int64.
Proof.
  unfold middleware.NewRateLimit, middleware.defaultRequestsPerMinute, max_int64.
  cbn. destruct (configured <=? 0) eqn:E; [lia|].
  apply Z.leb_gt in E. lia.
Qed.

#[local] Ltac header_get :=
  repeat first
    [ rewrite Header_Get_Set_same
    | rewrite Header_Get_Set_other by (vm_compute; discriminate) ].

(** C8. A request with a key prefix (an authenticated one), a limiter made
    by [NewRateLimit] from any configured value, and a cache whose counter
    holds what an increment yields (a count from 0 up): when the increment
    fails, the request goes on to the next handler with the response
    untouched, so without rate-limit headers.  Otherwise the response carries
    X-RateLimit-Limit = limit, X-RateLimit-Remaining = max(limit - count, 0)
    and X-RateLimit-Reset = the Unix time of now plus 60; when count > limit
    the request is rejected with status 429, the code RATE_LIMIT_EXCEEDED and
    Retry-After: 60, and when count <= limit it goes on to the next handler:
    it is rejected if and only if count > limit. *)
Theorem Limit_headers_and_rejection {C} `{cache.Cache C} (configured : Z)
    (c : C) (prefix : string) (now : Time) (w : middleware.ResponseWriter) :
  let rl := middleware.NewRateLimit configured in
  let limit := middleware.requestsPerMin rl in
  let incr := cache.IncrWithExpiry c (cache.RateLimitKey prefix) (60 * Second) in
  let count := fst (snd incr) in
  let out := middleware.Limit rl c (Some prefix) now w in
  min_int64 <= configured <= max_int64 ->
  0 <= count <= max_int64 ->
  (snd (snd incr) <> None -> out = (fst incr, middleware.next w))
  /\ (snd (snd incr) = None ->
      exists w',
        (out = (fst incr, middleware.next w')
         \/ out = (fst incr, middleware.rejected w'))
        /\ middleware.Header_Get (middleware.header w') "X-RateLimit-Limit"
           = Itoa limit
        /\ middleware.Header_Get (middleware.header w') "X-RateLimit-Remaining"
           = Itoa (Z.max (limit - count) 0)
        /\ middleware.Header_Get (middleware.header w') "X-RateLimit-Reset"
           = Itoa (Unix now + 60)
        /\ (limit < count ->
            out = (fst incr, middleware.rejected w')
            /\ middleware.status w' = Some 429
            /\ option_map middleware.Code (middleware.body w')
               = Some "RATE_LIMIT_EXCEEDED"
            /\ middleware.Header_Get (middleware.header w') "Retry-After" = "60")
        /\ (count <= limit ->
            out = (fst incr, middleware.next w')
            /\ middleware.status w' = middleware.status w
            /\ middleware.body w' = middleware.body w)).
Proof.
  intros rl limit incr count out Hconf Hcount.
  pose proof (NewRateLimit_positive configured (proj2 Hconf)) as Hlimit.
  fold rl in Hlimit. fold limit in Hlimit.
  subst out. unfold middleware.Limit. fold incr.
  destruct incr as [c' [n err]] eqn:E. cbn [fst snd] in *. subst count.
  split.
  - intros Herr. destruct err; [reflexivity | congruence].
  - intros ->.
    assert (Hrem : (if wrap64 (limit - n) <? 0 then 0 else wrap64 (limit - n))
                   = Z.max (limit - n) 0).
    { rewrite wrap64_small by (unfold min_int64, max_int64 in *; lia).
      destruct (limit - n <? 0) eqn:E0;
        [apply Z.ltb_lt in E0 | apply Z.ltb_ge in E0]; lia. }
    fold limit. rewrite Hrem. rewrite Unix_Add_seconds.
    destruct (limit <? n) eqn:Hover;
      [apply Z.ltb_lt in Hover | apply Z.ltb_ge in Hover].
    + eexists. split; [right; reflexivity|].
      cbn [middleware.header middleware.status middleware.body
           middleware.response_Error middleware.Code option_map].
      header_get.
      repeat split; try reflexivity; lia.
    + eexists. split; [left; reflexivity|].
      cbn [middleware.header middleware.status middleware.body].
      header_get.
      repeat split; try reflexivity; lia.
Qed.

(** The theorem on the first request of a key, with a limit of 10 and a
    Redis cache that holds nothing yet: the count is 1, the request goes on
    and 9 requests remain. *)
Lemma Limit_headers_and_rejection_witness :
  exists w',
    middleware.Limit (middleware.NewRateLimit 10) empty_cache (Some "lh_test1")
      1700000000123456789 empty_writer
    = (fst (cache.IncrWithExpiry empty_cache (cache.RateLimitKey "lh_test1")
              (60 * Second)),
       middleware.next w')
    /\ middleware.Header_Get (middleware.header w') "X-RateLimit-Limit" = "10"
    /\ middleware.Header_Get (middleware.header w') "X-RateLimit-Remaining" = "9"
    /\ middleware.Header_Get (middleware.header w') "X-RateLimit-Reset"
       = "1700000060".
Proof.
  destruct (Limit_headers_and_rejection 10 empty_cache "lh_test1"
              1700000000123456789 empty_writer) as [_ Hok].
  - unfold min_int64, max_int64. lia.
  - vm_compute. split; discriminate.
  - destruct (Hok eq_refl) as (w' & _ & H1 & H2 & H3 & _ & Hnext).
    exists w'. split.
    + apply Hnext. vm_compute. discriminate.
    + split; [exact H1|]. split; [exact H2|]. exact H3.
Defined.

(** The request of [TestRateLimit_RejectsOverLimit]: the counter holds 60,
    the limit is 60, the request is the 61st. *)
Example Limit_rejects_over_limit :
  match
    snd (middleware.Limit (middleware.NewRateLimit 60)
           {| cache.keys := {[ "ratelimit:lh_over1" := (cache.Int 60, 60 * Second) ]};
              cache.job_status := ∅ |}
           (Some "lh_over1") 1700000000123456789 empty_writer)
  with
  | middleware.rejected w =>
      middleware.status w = Some 429
      /\ middleware.Header_Get (middleware.header w) "Retry-After" = "60"
      /\ middleware.Header_Get (middleware.header w) "X-RateLimit-Remaining" = "0"
      /\ option_map middleware.Code (middleware.body w)
         = Some "RATE_LIMIT_EXCEEDED"
  | middleware.next _ => False
  end.
Proof. vm_compute. repeat split; reflexivity. Qed.

(** A counter of Redis that is not negative stays so, and the count an
    increment returns is at least 1. *)
Lemma Redis_IncrWithExpiry_count (c : cache.RedisCache) key expiry c' count :
  (forall n ttl, cache.keys c !! key = Some (cache.Int n, ttl) -> 0 <= n) ->
  cache.Redis_IncrWithExpiry c key expiry = (c', (count, None)) ->
  1 <= count <= max_int64
  /\ cache.keys c' !! key = Some (cache.Int count, expiry).
Proof.
  intros Hpos. unfold cache.Redis_IncrWithExpiry.
  destruct (cache.keys c !! key) as [[[s|n] ttl]|] eqn:E.
  - discriminate.
  - specialize (Hpos n ttl eq_refl).
    destruct (max_int64 <=? n) eqn:Emax; [discriminate|].
    apply Z.leb_gt in Emax. intros Hr. inversion Hr; subst. cbn.
    rewrite lookup_insert_eq. split; [lia | reflexivity].
  - cbn. intros Hr. inversion Hr; subst. cbn.
    rewrite lookup_insert_eq. split; [unfold max_int64; lia | reflexivity].
Qed.

(** ** Normal forms and white space *)



Lemma perl_s_separator c : go_regexp.perl_s c = true -> separator c = true.
Proof.
  intros H. apply perl_s_cases in H.
  destruct H as [->|[->|[->|[->| ->]]]]; reflexivity.
Qed.

Lemma scrub_empty : scrub "" = "".
Proof. reflexivity. Qed.

Lemma scrub_leading_space ws b :
  go_strings.all_bytes go_regexp.perl_s ws = true ->
  scrub (ws +:+ b) = ws +:+ scrub b.
Proof.
  induction ws as [|c ws IH]; [reflexivity|].
  cbn [go_strings.all_bytes]. intros H. apply andb_prop in H.
  destruct H as [Hc Hws].
  change (String c ws +:+ b) with ("" +:+ String c (ws +:+ b)).
  rewrite scrub_separator by now apply perl_s_separator.
  rewrite scrub_empty, (IH Hws). reflexivity.
Qed.

(** [scrub] does not look across white space. *)
Lemma scrub_gap a ws b :
  not_empty ws = true -> go_strings.all_bytes go_regexp.perl_s ws = true ->
  scrub (a +:+ ws +:+ b) = scrub a +:+ ws +:+ scrub b.
Proof.
  destruct ws as [|c ws]; [discriminate|]. intros _ H.
  cbn [go_strings.all_bytes] in H. apply andb_prop in H. destruct H as [Hc Hws].
  cbn [String.append].
  rewrite scrub_separator by now apply perl_s_separator.
  now rewrite scrub_leading_space.
Qed.

Lemma collapse_all_space ws b :
  go_strings.all_bytes go_regexp.perl_s ws = true ->
  collapse true (ws +:+ b) = collapse true b.
Proof.
  intros H. rewrite !collapse_gap, skip_app by exact H. reflexivity.
Qed.

(** A run of white space collapses to the same text whatever its length
    and its bytes. *)
Lemma collapse_run a ws1 ws2 b :
  not_empty ws1 = true -> go_strings.all_bytes go_regexp.perl_s ws1 = true ->
  not_empty ws2 = true -> go_strings.all_bytes go_regexp.perl_s ws2 = true ->
  forall gap,
    collapse gap (a +:+ ws1 +:+ b) = collapse gap (a +:+ ws2 +:+ b).
Proof.
  intros N1 H1 N2 H2.
  induction a as [|d a IH]; intros gap.
  - destruct ws1 as [|c1 ws1]; [discriminate|].
    destruct ws2 as [|c2 ws2]; [discriminate|].
    cbn [go_strings.all_bytes] in H1, H2.
    apply andb_prop in H1. destruct H1 as [Hc1 H1].
    apply andb_prop in H2. destruct H2 as [Hc2 H2].
    cbn [String.append collapse]. rewrite Hc1, Hc2.
    rewrite !collapse_all_space by assumption. reflexivity.
  - cbn [String.append collapse]. now rewrite !IH.
Qed.

(** X2.  White space inside a message does not matter: two messages that
    differ only in a run of white space (its length, its bytes) have the
    same normal form and the same fingerprint, provided the text before
    the run does not begin with a digit (else the run may stand inside a
    leading timestamp, which has exactly one byte between date and
    time). *)
Theorem NormalizeMessage_white_space_run `{GoUnicode} (a ws1 ws2 b : string) :
  starts_with go_regexp.perl_d a = false ->
  not_empty ws1 = true -> go_strings.all_bytes go_regexp.perl_s ws1 = true ->
  not_empty ws2 = true -> go_strings.all_bytes go_regexp.perl_s ws2 = true ->
  analysis.NormalizeMessage (a +:+ ws1 +:+ b)
  = analysis.NormalizeMessage (a +:+ ws2 +:+ b)
  /\ analysis.Fingerprint (a +:+ ws1 +:+ b)
     = analysis.Fingerprint (a +:+ ws2 +:+ b).
Proof.
  intros Ha N1 H1 N2 H2.
  assert (Hstart : forall ws,
            not_empty ws = true ->
            go_strings.all_bytes go_regexp.perl_s ws = true ->
            starts_with go_regexp.perl_d (a +:+ ws +:+ b) = false).
  { intros ws Hn Hws. destruct a as [|d a]; [|exact Ha].
    destruct ws as [|c ws]; [discriminate|]. cbn in Hws |- *.
    apply andb_prop in Hws. destruct Hws as [Hc _].
    apply perl_s_no_stamp in Hc. tauto. }
  assert (Hn : analysis.NormalizeMessage (a +:+ ws1 +:+ b)
               = analysis.NormalizeMessage (a +:+ ws2 +:+ b)).
  { rewrite !NormalizeMessage_steps.
    rewrite !strip_no_digit by now apply Hstart.
    rewrite !scrub_gap by assumption.
    unfold finish. cbv zeta. rewrite !ReplaceAllString_reWhitespace.
    now rewrite (collapse_run (scrub a) ws1 ws2 (scrub b)). }
  split; [exact Hn|].
  unfold analysis.Fingerprint. cbv zeta. now rewrite Hn.
Qed.

Lemma NormalizeMessage_white_space_run_witness :
  @analysis.Fingerprint ascii_tables "too   many    spaces"
  = @analysis.Fingerprint ascii_tables
      (String "t" (String "o" (String "o" (String "009" "many    spaces")))).
Proof.
  exact (proj2 (@NormalizeMessage_white_space_run ascii_tables
                  "too" "   " (String "009" "") "many    spaces"
                  eq_refl eq_refl eq_refl eq_refl eq_refl)).
Defined.

(** X3.  The normal form of an ASCII message holds no integer in brackets
    and none in parentheses ([reBracketNum] and [reParenNum] do not match
    in it): the placeholders [[n]] and [(n)] are not integers, and no later
    step of [NormalizeMessage] writes one. *)
Theorem NormalizeMessage_no_numbers `{GoUnicode} x :
  go_strings.isASCII x = true ->
  go_regexp.MatchString analysis.reBracketNum (analysis.NormalizeMessage x)
  = false
  /\ go_regexp.MatchString analysis.reParenNum (analysis.NormalizeMessage x)
     = false.
Proof.
  intros Hx. rewrite NormalizeMessage_steps.
  assert (Ha : go_strings.isASCII (scrub (strip x)) = true)
    by now apply scrub_ascii, strip_ascii.
  unfold go_regexp.MatchString.
  split.
  - destruct (go_regexp.match_from analysis.reBracketNum true
                (finish (scrub (strip x)))) eqn:E; [|reflexivity].
    apply (finish_num "[" "]") in E;
      [| reflexivity | reflexivity | discriminate | discriminate
       | split; reflexivity | intros a; apply lower_keeps_delimiters
       | exact Ha].
    unfold scrub in E. cbv zeta in E.
    apply (replace_loop_num_other "[" "]" eq_refl) in E;
      [| discriminate | reflexivity | split; discriminate | discriminate].
    match type of E with
    | context [go_regexp.ReplaceAllString analysis.reBracketNum ?t _] =>
        pose proof (replace_loop_num_gone "[" "]" eq_refl eq_refl
                      ltac:(discriminate) ltac:(discriminate)
                      (S (String.length t)) true false t true
                      (Nat.lt_succ_diag_r _)) as Hg
    end.
    enough (true = false) by discriminate. rewrite <- E. exact Hg.
  - destruct (go_regexp.match_from analysis.reParenNum true
                (finish (scrub (strip x)))) eqn:E; [|reflexivity].
    apply (finish_num "(" ")") in E;
      [| reflexivity | reflexivity | discriminate | discriminate
       | split; reflexivity | intros a; apply lower_keeps_delimiters
       | exact Ha].
    unfold scrub in E. cbv zeta in E.
    match type of E with
    | context [go_regexp.ReplaceAllString analysis.reParenNum ?t _] =>
        pose proof (replace_loop_num_gone "(" ")" eq_refl eq_refl
                      ltac:(discriminate) ltac:(discriminate)
                      (S (String.length t)) true false t true
                      (Nat.lt_succ_diag_r _)) as Hg
    end.
    enough (true = false) by discriminate. rewrite <- E. exact Hg.
Qed.

Lemma NormalizeMessage_no_numbers_witness :
  go_regexp.MatchString analysis.reBracketNum
    (@analysis.NormalizeMessage ascii_tables "goroutine [42] panic (500) [ 7 ]")
  = false.
Proof.
  exact (proj1 (@NormalizeMessage_no_numbers ascii_tables
                  "goroutine [42] panic (500) [ 7 ]" eq_refl)).
Defined.

(** ** The store keeps its constraints *)

Lemma ids_insert_fresh m k c :
  m !! k = None ->
  Permutation (ids_of (<[k := c]> m)) (models.ErrorCluster.ID c :: ids_of m).
Proof.
  intros Hk. unfold ids_of.
  now rewrite (map_to_list_insert m k c Hk).
Qed.

Lemma ids_insert_same m k c row :
  m !! k = Some row ->
  models.ErrorCluster.ID c = models.ErrorCluster.ID row ->
  Permutation (ids_of (<[k := c]> m)) (ids_of m).
Proof.
  intros Hk Hid. unfold ids_of.
  rewrite <- (insert_delete_eq m k c).
  rewrite (map_to_list_insert (delete k m) k c (lookup_delete_eq m k)).
  rewrite <- (map_to_list_delete m k row Hk).
  cbn [map snd]. now rewrite Hid.
Qed.

Lemma cluster_exists_elem s id :
  store.cluster_exists s id = true <-> id ∈ store.cluster_ids s.
Proof.
  unfold store.cluster_exists. rewrite existsb_exists. split.
  - intros (x & Hin & Heq). apply N.eqb_eq in Heq. subst x.
    now apply list_elem_of_In.
  - intros Hin. exists id. split; [now apply list_elem_of_In | apply N.eqb_refl].
Qed.

(** What a store with other clusters keeps, when every identifier stays. *)
Lemma constraints_other_clusters s m :
  constraints_hold s ->
  (forall id, id ∈ store.cluster_ids s -> id ∈ ids_of m) ->
  (forall k c, m !! k = Some c ->
     store.key_of c = k
     /\ store.level_check (models.ErrorCluster.Level c) = true
     /\ store.int4 (models.ErrorCluster.Count c) = true) ->
  NoDup (ids_of m) ->
  constraints_hold (store.set_error_clusters s m).
Proof.
  intros [H1 H2 H3 H4 H5 H6] Hids Hkeys Hnd.
  assert (Hex : forall id, store.cluster_exists s id = true ->
                  store.cluster_exists (store.set_error_clusters s m) id = true).
  { intros id Hid. apply cluster_exists_elem. apply cluster_exists_elem in Hid.
    now apply Hids. }
  split; cbn [store.set_error_clusters store.error_clusters store.jobs
              store.analysis_results]; try assumption.
  - intros id j Hj. destruct (H3 id j Hj) as (Ha & Hb & Hc).
    split; [exact Ha|]. split; [exact Hb|]. intros cid Hcid. now apply Hex, Hc.
  - intros r Hr. destruct (H6 r Hr) as [Ha Hb]. split; [exact Ha | now apply Hex].
Qed.

Lemma UpsertErrorCluster_constraints s now c :
  constraints_hold s ->
  constraints_hold (fst (store.UpsertErrorCluster s now c)).
Proof.
  intros Hs. pose proof Hs as [H1 H2 _ _ _ _].
  unfold store.UpsertErrorCluster.
  destruct (store.level_check (models.ErrorCluster.Level c)) eqn:El;
    [|exact Hs]. cbn [negb].
  destruct (store.int4 (models.ErrorCluster.Count c)) eqn:Ec; [|exact Hs].
  cbn [negb].
  destruct (store.error_clusters s !! store.key_of c) as [row|] eqn:Ek.
  - destruct (store.int4 (models.ErrorCluster.Count row
                          + models.ErrorCluster.Count c)) eqn:Es; [|exact Hs].
    cbn [negb fst].
    destruct (H1 _ _ Ek) as (Hk & Hl & _).
    apply constraints_other_clusters; [exact Hs | | |].
    + intros id Hid.
      erewrite ids_insert_same; [exact Hid | exact Ek | reflexivity].
    + intros k c' Hc'. destruct (decide (k = store.key_of c)) as [->|Hne].
      * rewrite lookup_insert_eq in Hc'. injection Hc' as <-.
        cbn. split; [exact Hk|]. split; [exact Hl | exact Es].
      * rewrite lookup_insert_ne in Hc' by congruence. now apply H1.
    + erewrite ids_insert_same; [exact H2 | exact Ek | reflexivity].
  - destruct (store.cluster_exists s (models.ErrorCluster.ID c)) eqn:Ex;
      [exact Hs|]. cbn [fst].
    apply constraints_other_clusters; [exact Hs | | |].
    + intros id Hid. rewrite (ids_insert_fresh _ _ _ Ek).
      now apply list_elem_of_further.
    + intros k c' Hc'. destruct (decide (k = store.key_of c)) as [->|Hne].
      * rewrite lookup_insert_eq in Hc'. injection Hc' as <-. tauto.
      * rewrite lookup_insert_ne in Hc' by congruence. now apply H1.
    + rewrite (ids_insert_fresh _ _ _ Ek). apply NoDup_cons. split; [|exact H2].
      intros Hin. apply cluster_exists_elem in Hin. congruence.
Qed.

Lemma status_check_permitted old new :
  permitted old new -> store.status_check new = true.
Proof.
  unfold permitted. intros [[_ ->]|[[_ ->]|[_ ->]]]; reflexivity.
Qed.

Lemma constraints_other_jobs s m :
  constraints_hold s ->
  (forall id j, m !! id = Some j ->
     models.Job.ID j = id
     /\ store.status_check (models.Job.Status j) = true
     /\ (forall cid, models.Job.ClusterID j = Some cid ->
                     store.cluster_exists s cid = true)) ->
  constraints_hold (store.set_jobs s m).
Proof.
  intros [H1 H2 H3 H4 H5 H6] Hm.
  split; cbn [store.set_jobs store.error_clusters store.jobs
              store.analysis_results]; assumption.
Qed.

Lemma CreateJob_constraints s job :
  constraints_hold s -> constraints_hold (fst (store.CreateJob s job)).
Proof.
  intros Hs. pose proof Hs as [_ _ H3 _ _ _]. unfold store.CreateJob.
  destruct (store.status_check (models.Job.Status job)) eqn:Est; [|exact Hs].
  cbn [negb].
  destruct (store.jobs s !! models.Job.ID job) eqn:Ej; [exact Hs|].
  match goal with
  | |- context [negb ?b] => destruct b eqn:Er; [|exact Hs]
  end.
  cbn [negb fst]. apply constraints_other_jobs; [exact Hs|].
  intros id j Hj. destruct (decide (id = models.Job.ID job)) as [->|Hne].
  - rewrite lookup_insert_eq in Hj. injection Hj as <-. cbn.
    split; [reflexivity|]. split; [exact Est|].
    intros cid Hcid. now rewrite Hcid in Er.
  - rewrite lookup_insert_ne in Hj by congruence. now apply H3.
Qed.

Lemma UpdateJobStatus_constraints s now id status opts :
  constraints_hold s ->
  constraints_hold (fst (store.UpdateJobStatus s now id status opts)).
Proof.
  intros Hs. pose proof Hs as [_ _ H3 _ _ _]. unfold store.UpdateJobStatus.
  cbv zeta.
  destruct (store.jobs s !! id) as [job|] eqn:Ej; [|exact Hs].
  destruct (store.contains _ status) eqn:Ec; [|exact Hs].
  apply validTransitions_permitted in Ec. cbn [negb].
  match goal with
  | |- context [negb ?b] => destruct b eqn:Er; [|exact Hs]
  end.
  cbn [negb fst]. apply constraints_other_jobs; [exact Hs|].
  destruct (H3 _ _ Ej) as (Hid & _ & Hfk).
  intros id' j Hj. destruct (decide (id' = id)) as [->|Hne].
  - rewrite lookup_insert_eq in Hj. injection Hj as <-. cbn.
    split; [exact Hid|]. split; [now apply (status_check_permitted _ _ Ec)|].
    intros cid. destruct (store.ClusterID _) as [cid'|].
    + intros [= <-]. exact Er.
    + apply Hfk.
  - rewrite lookup_insert_ne in Hj by congruence. now apply H3.
Qed.

Lemma CreateAnalysisResult_constraints s r :
  constraints_hold s ->
  constraints_hold (fst (store.CreateAnalysisResult s r)).
Proof.
  intros Hs. pose proof Hs as [H1 H2 H3 H4 H5 H6].
  unfold store.CreateAnalysisResult.
  destruct (store.confidence_check (models.AnalysisResult.Confidence r)) eqn:Ec;
    [|exact Hs]. cbn [negb].
  destruct (existsb _ (store.analysis_results s)) eqn:Eu; [exact Hs|].
  destruct (store.cluster_exists s (models.AnalysisResult.ClusterID r)) eqn:Ef;
    [|exact Hs]. cbn [negb fst].
  assert (Hfresh : forall r', r' ∈ store.analysis_results s ->
            models.AnalysisResult.ID r' <> models.AnalysisResult.ID r
            /\ models.AnalysisResult.JobID r' <> models.AnalysisResult.JobID r).
  { intros r' Hr'. apply list_elem_of_In in Hr'.
    destruct (N.eqb (models.AnalysisResult.ID r') (models.AnalysisResult.ID r)
              || N.eqb (models.AnalysisResult.JobID r')
                   (models.AnalysisResult.JobID r)) eqn:E.
    - assert (existsb
                (fun r0 =>
                   N.eqb (models.AnalysisResult.ID r0) (models.AnalysisResult.ID r)
                   || N.eqb (models.AnalysisResult.JobID r0)
                        (models.AnalysisResult.JobID r))
                (store.analysis_results s) = true)
        by (apply existsb_exists; eauto).
      congruence.
    - apply orb_false_iff in E. destruct E as [E1 E2].
      apply N.eqb_neq in E1, E2. tauto. }
  split; cbn [store.set_analysis_results store.error_clusters store.jobs
              store.analysis_results]; try assumption.
  - rewrite map_app. apply NoDup_app. split; [exact H4|]. split.
    + intros x Hx Hx'. cbn in Hx'. apply list_elem_of_singleton in Hx'. subst x.
      apply list_elem_of_fmap in Hx. destruct Hx as (r' & Hid & Hr').
      destruct (Hfresh r' Hr') as [Hne _]. congruence.
    + apply NoDup_singleton.
  - rewrite map_app. apply NoDup_app. split; [exact H5|]. split.
    + intros x Hx Hx'. cbn in Hx'. apply list_elem_of_singleton in Hx'. subst x.
      apply list_elem_of_fmap in Hx. destruct Hx as (r' & Hid & Hr').
      destruct (Hfresh r' Hr') as [_ Hne]. congruence.
    + apply NoDup_singleton.
  - intros r' Hr'. apply in_app_or in Hr'. destruct Hr' as [Hr'|[<-|[]]].
    + now apply H6.
    + split; [exact Ec | exact Ef].
Qed.

Lemma empty_store_constraints : constraints_hold empty_store.
Proof.
  split; cbn.
  - intros k c Hc. now rewrite lookup_empty in Hc.
  - unfold store.cluster_ids. cbn. rewrite map_to_list_empty. constructor.
  - intros id j Hj. now rewrite lookup_empty in Hj.
  - constructor.
  - constructor.
  - intros r [].
Qed.

(** X4.  The store keeps the constraints of its tables: starting from a
    store in which they hold (the empty store is one), whatever series of
    calls to [UpsertErrorCluster], [CreateJob], [UpdateJobStatus] and
    [CreateAnalysisResult] is made, with whatever arguments and whether
    the calls succeed or fail, afterwards every cluster row is filed under
    its own (tenant, service, namespace, fingerprint) with a level the
    table accepts and a count that fits its column, no two clusters share
    an identifier, every job is filed under its identifier with one of the
    four statuses and refers to a cluster that exists if to any, no two
    results share an identifier or a job, and every result has a
    confidence between 0 and 1 and refers to a cluster that exists. *)
Theorem store_keeps_constraints (s : store.PostgresStore) (calls : list call) :
  constraints_hold s -> constraints_hold (fold_left after calls s).
Proof.
  revert s. induction calls as [|c calls IH]; intros s Hs; [exact Hs|].
  cbn [fold_left]. apply IH. destruct c; cbn [after].
  - now apply UpsertErrorCluster_constraints.
  - now apply CreateJob_constraints.
  - now apply UpdateJobStatus_constraints.
  - now apply CreateAnalysisResult_constraints.
Qed.

Lemma store_keeps_constraints_witness :
  constraints_hold
    (fold_left after
       [call_UpsertErrorCluster 1000 (merge_cluster 11%N "ERROR" 1000 3);
        call_CreateJob pending_job;
        call_UpdateJobStatus 1100 (models.Job.ID pending_job) "running" [];
        call_UpsertErrorCluster 1300 (merge_cluster 12%N "FATAL" 1300 7)]
       empty_store).
Proof.
  apply store_keeps_constraints. exact empty_store_constraints.
Defined.

(** ** Reading back what was written *)



(** X6.  [UpdateJobStatus] touches the row of the job it is called for and
    nothing else: for an identifier without a job it returns [ErrNotFound]
    and leaves the store as it was; in every case the clusters, the
    results and all other jobs stay as they were, and the job keeps its
    identifier, its tenant, its type and its creation time. *)
Theorem UpdateJobStatus_touches_one_job (s : store.PostgresStore) (now : Time)
    (id : uuid) (status : string) (opts : list store.JobUpdateOption) :
  let out := store.UpdateJobStatus s now id status opts in
  (store.jobs s !! id = None -> out = (s, Some store.ErrNotFound))
  /\ store.error_clusters (fst out) = store.error_clusters s
  /\ store.analysis_results (fst out) = store.analysis_results s
  /\ (forall id', id' <> id -> store.jobs (fst out) !! id' = store.jobs s !! id')
  /\ (forall j, store.jobs s !! id = Some j ->
        exists j',
          store.jobs (fst out) !! id = Some j'
          /\ models.Job.ID j' = models.Job.ID j
          /\ models.Job.TenantID j' = models.Job.TenantID j
          /\ models.Job.Type_ j' = models.Job.Type_ j
          /\ models.Job.CreatedAt j' = models.Job.CreatedAt j
          /\ (snd out <> None -> j' = j)).
Proof.
  cbv zeta. unfold store.UpdateJobStatus. cbv zeta.
  destruct (store.jobs s !! id) as [job|] eqn:Ej.
  2:{ repeat split; try reflexivity. intros j [=]. }
  destruct (store.contains _ status); cbn [negb].
  2:{ repeat split; try reflexivity; try discriminate.
      intros j [= <-]. exists job. repeat split; auto. }
  match goal with
  | |- context [negb ?b] => destruct b; cbn [negb]
  end.
  2:{ repeat split; try reflexivity; try discriminate.
      intros j [= <-]. exists job. repeat split; auto. }
  cbn [fst snd store.set_jobs store.jobs store.error_clusters
       store.analysis_results].
  repeat split; try reflexivity; try discriminate.
  - intros id' Hne. now rewrite lookup_insert_ne by congruence.
  - intros j [= <-]. eexists. rewrite lookup_insert_eq.
    split; [reflexivity|]. cbn. repeat split. congruence.
Qed.

(** In a list without two rows of the same identifier, looking a row up by
    its identifier and another condition finds that row or nothing. *)
Lemma filter_by_id {A} (f : A -> uuid) (p : A -> bool) (l : list A) (x : A) :
  NoDup (map f l) -> x ∈ l ->
  filter (fun y => N.eqb (f y) (f x) && p y) l = if p x then [x] else [].
Proof.
  induction l as [|y l IH]; intros Hnd Hx; [now apply elem_of_nil in Hx|].
  cbn [map] in Hnd. apply NoDup_cons in Hnd. destruct Hnd as [Hy Hnd].
  rewrite filter_cons. apply elem_of_cons in Hx. destruct Hx as [->|Hx].
  - rewrite N.eqb_refl. cbn [andb].
    assert (Hrest : filter (fun y0 => N.eqb (f y0) (f y) && p y0) l = []).
    { clear IH Hnd. induction l as [|z l IHl]; [reflexivity|].
      rewrite filter_cons. destruct (N.eqb_spec (f z) (f y)) as [E|E].
      - exfalso. apply Hy. cbn [map]. rewrite <- E. apply list_elem_of_here.
      - cbn [andb]. rewrite decide_False by (intros []).
        apply IHl. intros Hin. apply Hy. cbn [map].
        now apply list_elem_of_further. }
    rewrite Hrest. destruct (p y).
    + now rewrite decide_True by exact I.
    + now rewrite decide_False by (intros []).
  - destruct (N.eqb_spec (f y) (f x)) as [E|E].
    + exfalso. apply Hy. rewrite E. now apply list_elem_of_fmap_2.
    + cbn [andb]. rewrite decide_False by (intros []). now apply IH.
Qed.

Lemma cluster_rows_ids s :
  map models.ErrorCluster.ID (map snd (map_to_list (store.error_clusters s)))
  = store.cluster_ids s.
Proof. unfold store.cluster_ids. now rewrite map_map. Qed.

(** What [GetErrorCluster] returns in a store whose constraints hold: the
    row with that identifier and tenant, when there is one. *)
Lemma GetErrorCluster_found s id tenant c :
  constraints_hold s ->
  store.GetErrorCluster s id tenant = inl c
  <-> store.error_clusters s !! store.key_of c = Some c
      /\ models.ErrorCluster.ID c = id
      /\ models.ErrorCluster.TenantID c = tenant.
Proof.
  intros Hs. unfold store.GetErrorCluster. split.
  - destruct (filter _ _) as [|c0 rest] eqn:E; [discriminate|].
    intros [= ->].
    assert (Hc : c ∈ filter
                   (fun c0 => N.eqb (models.ErrorCluster.ID c0) id
                              && N.eqb (models.ErrorCluster.TenantID c0) tenant)
                   (map snd (map_to_list (store.error_clusters s))))
      by (rewrite E; apply list_elem_of_here).
    apply list_elem_of_filter in Hc. destruct Hc as [Hp Hc].
    apply Is_true_true, andb_true_iff in Hp. destruct Hp as [Hi Ht].
    apply N.eqb_eq in Hi. apply N.eqb_eq in Ht.
    apply list_elem_of_fmap in Hc. destruct Hc as ([k c1] & -> & Hk).
    apply elem_of_map_to_list in Hk. cbn [snd] in *.
    destruct (clusters_keyed _ Hs _ _ Hk) as (-> & _).
    repeat split; assumption.
  - intros (Hk & <- & <-).
    assert (Hin : c ∈ map snd (map_to_list (store.error_clusters s))).
    { apply elem_of_map_to_list in Hk.
      now apply (list_elem_of_fmap_2 snd) in Hk. }
    assert (Hnd : NoDup (map models.ErrorCluster.ID
                           (map snd (map_to_list (store.error_clusters s)))))
      by (rewrite cluster_rows_ids; apply (clusters_primary_key _ Hs)).
    rewrite (filter_by_id models.ErrorCluster.ID
               (fun c0 => N.eqb (models.ErrorCluster.TenantID c0)
                            (models.ErrorCluster.TenantID c)) _ c Hnd Hin).
    now rewrite N.eqb_refl.
Qed.

Lemma GetErrorCluster_cases s id tenant :
  (exists c, store.GetErrorCluster s id tenant = inl c)
  \/ store.GetErrorCluster s id tenant = inr store.ErrNotFound.
Proof.
  unfold store.GetErrorCluster. destruct (filter _ _); eauto.
Qed.

(** X7.  In a store whose constraints hold, the row [UpsertErrorCluster]
    returns (the inserted one, or the stored one with its count and last
    seen time brought up to date) is what [GetErrorCluster] then returns
    for its identifier and tenant; no other tenant can read it, and what
    [GetErrorCluster] returns for any other identifier is what it returned
    before the upsert. *)
Theorem UpsertErrorCluster_GetErrorCluster (s s' : store.PostgresStore)
    (now : Time) (c r : models.ErrorCluster.t) :
  constraints_hold s ->
  store.UpsertErrorCluster s now c = (s', inl r) ->
  store.GetErrorCluster s' (models.ErrorCluster.ID r)
    (models.ErrorCluster.TenantID r) = inl r
  /\ (forall tenant, tenant <> models.ErrorCluster.TenantID r ->
        store.GetErrorCluster s' (models.ErrorCluster.ID r) tenant
        = inr store.ErrNotFound)
  /\ (forall id tenant, id <> models.ErrorCluster.ID r ->
        store.GetErrorCluster s' id tenant = store.GetErrorCluster s id tenant).
Proof.
  intros Hs Hup.
  pose proof (UpsertErrorCluster_constraints s now c Hs) as Hs'.
  rewrite Hup in Hs'. cbn [fst] in Hs'.
  assert (Hrow : store.error_clusters s' !! store.key_of c = Some r
                 /\ store.error_clusters s'
                    = <[store.key_of c := r]> (store.error_clusters s)
                 /\ forall row, store.error_clusters s !! store.key_of c = Some row ->
                      models.ErrorCluster.ID row = models.ErrorCluster.ID r).
  { destruct (store.error_clusters s !! store.key_of c) as [row|] eqn:Ek.
    - destruct (upsert_conflict _ _ _ _ _ _ Ek Hup)
        as (Hid & _ & _ & _ & _ & _ & _ & ->).
      split; [apply lookup_insert_eq|]. split; [reflexivity|].
      intros row' [= <-]. now symmetry.
    - destruct (upsert_insert _ _ _ _ _ Ek Hup) as (-> & ->).
      split; [apply lookup_insert_eq|]. split; [reflexivity|]. discriminate. }
  destruct Hrow as (Hrow & Hmap & Hold).
  assert (Hkey : store.key_of r = store.key_of c)
    by (now destruct (clusters_keyed _ Hs' _ _ Hrow)).
  split; [|split].
  - apply GetErrorCluster_found; [exact Hs'|]. rewrite Hkey. auto.
  - intros tenant Hne.
    destruct (GetErrorCluster_cases s' (models.ErrorCluster.ID r) tenant)
      as [[c1 H1]|H1]; [|exact H1].
    exfalso. pose proof H1 as H2.
    apply GetErrorCluster_found in H2; [|exact Hs'].
    destruct H2 as (_ & _ & Ht).
    assert (Hr : store.GetErrorCluster s' (models.ErrorCluster.ID r)
                   (models.ErrorCluster.TenantID r) = inl r)
      by (apply GetErrorCluster_found; [exact Hs'|]; rewrite Hkey; auto).
    unfold store.GetErrorCluster in H1, Hr.
    assert (Hin : r ∈ map snd (map_to_list (store.error_clusters s'))).
    { apply elem_of_map_to_list in Hrow.
      now apply (list_elem_of_fmap_2 snd) in Hrow. }
    assert (Hnd : NoDup (map models.ErrorCluster.ID
                           (map snd (map_to_list (store.error_clusters s')))))
      by (rewrite cluster_rows_ids; apply (clusters_primary_key _ Hs')).
    rewrite (filter_by_id models.ErrorCluster.ID
               (fun c0 => N.eqb (models.ErrorCluster.TenantID c0) tenant)
               _ r Hnd Hin) in H1.
    destruct (N.eqb_spec (models.ErrorCluster.TenantID r) tenant);
      [congruence | discriminate].
  - intros id tenant Hne.
    assert (Hiff : forall c1,
              store.GetErrorCluster s' id tenant = inl c1
              <-> store.GetErrorCluster s id tenant = inl c1).
    { intros c1.
      rewrite (GetErrorCluster_found s' id tenant c1 Hs').
      rewrite (GetErrorCluster_found s id tenant c1 Hs).
      rewrite Hmap.
      destruct (decide (store.key_of c1 = store.key_of c)) as [E|E].
      - rewrite E, lookup_insert_eq. split.
        + intros ([= ->] & Hid & _). congruence.
        + intros (Hk & Hid & _). exfalso. apply Hne.
          rewrite <- Hid. apply Hold. exact Hk.
      - rewrite lookup_insert_ne by congruence. reflexivity. }
    destruct (GetErrorCluster_cases s' id tenant) as [[c1 H1]|H1].
    + rewrite H1. symmetry. now apply Hiff.
    + destruct (GetErrorCluster_cases s id tenant) as [[c2 H2]|H2].
      * apply Hiff in H2. congruence.
      * congruence.
Qed.

Lemma UpsertErrorCluster_GetErrorCluster_witness :
  store.GetErrorCluster store_with_error_row 11%N 1%N
  = inl (merge_cluster 11%N "ERROR" 1000 3)
  /\ store.GetErrorCluster store_with_error_row 11%N 2%N
     = inr store.ErrNotFound.
Proof.
  assert (Hup : store.UpsertErrorCluster empty_store 1000
                  (merge_cluster 11%N "ERROR" 1000 3)
                = (store_with_error_row, inl (merge_cluster 11%N "ERROR" 1000 3)))
    by (vm_compute; reflexivity).
  destruct (UpsertErrorCluster_GetErrorCluster _ _ _ _ _
              empty_store_constraints Hup) as (Hget & Hother & _).
  split; [exact Hget|]. apply Hother. discriminate.
Defined.

(** ** Analysis results by job *)





(** ** The life of a job *)

(** The row of a job after a call that is not an update of its status. *)
Lemma UpsertErrorCluster_jobs s now c :
  store.jobs (fst (store.UpsertErrorCluster s now c)) = store.jobs s.
Proof.
  unfold store.UpsertErrorCluster.
  repeat match goal with
         | |- context [if ?b then _ else _] => destruct b
         | |- context [match ?o with Some _ => _ | None => _ end] => destruct o
         end; reflexivity.
Qed.

Lemma CreateAnalysisResult_jobs s r :
  store.jobs (fst (store.CreateAnalysisResult s r)) = store.jobs s.
Proof.
  unfold store.CreateAnalysisResult.
  repeat match goal with
         | |- context [if ?b then _ else _] => destruct b
         end; reflexivity.
Qed.

Lemma CreateJob_keeps_job s job id j :
  store.jobs s !! id = Some j ->
  store.jobs (fst (store.CreateJob s job)) !! id = Some j.
Proof.
  intros Hj. unfold store.CreateJob.
  destruct (store.status_check _); cbn [negb fst]; [|exact Hj].
  destruct (store.jobs s !! models.Job.ID job) eqn:E; [exact Hj|].
  match goal with
  | |- context [negb ?b] => destruct b; cbn [negb fst]; [|exact Hj]
  end.
  cbn [store.set_jobs store.jobs].
  rewrite lookup_insert_ne by congruence. exact Hj.
Qed.

Lemma UpdateJobStatus_other_job s now id status opts id' :
  id' <> id ->
  store.jobs (fst (store.UpdateJobStatus s now id status opts)) !! id'
  = store.jobs s !! id'.
Proof.
  intros Hne. unfold store.UpdateJobStatus. cbv zeta.
  destruct (store.jobs s !! id); [|reflexivity].
  destruct (store.contains _ status); cbn [negb]; [|reflexivity].
  match goal with
  | |- context [negb ?b] => destruct b; cbn [negb fst]; [|reflexivity]
  end.
  cbn [store.set_jobs store.jobs]. now rewrite lookup_insert_ne by congruence.
Qed.

(** The row of a job after an update of its status: as it was, or moved
    along a permitted transition and stamped. *)
Lemma UpdateJobStatus_same_job s now id status opts j :
  store.jobs s !! id = Some j ->
  store.jobs (fst (store.UpdateJobStatus s now id status opts)) !! id = Some j
  \/ (permitted (models.Job.Status j) status
      /\ exists j',
           store.jobs (fst (store.UpdateJobStatus s now id status opts)) !! id
           = Some j'
           /\ models.Job.Status j' = status
           /\ models.Job.StartedAt j'
              = (if String.eqb status "running" then Some now
                 else models.Job.StartedAt j)
           /\ models.Job.CompletedAt j'
              = (if String.eqb status "completed" || String.eqb status "failed"
                 then Some now else models.Job.CompletedAt j)).
Proof.
  intros Hj. unfold store.UpdateJobStatus. cbv zeta. rewrite Hj.
  destruct (store.contains _ status) eqn:Hc; cbn [negb fst]; [|now left].
  apply validTransitions_permitted in Hc.
  match goal with
  | |- context [negb ?b] => destruct b; cbn [negb fst]; [|now left]
  end.
  right. split; [exact Hc|]. eexists.
  cbn [store.set_jobs store.jobs]. rewrite lookup_insert_eq.
  split; [reflexivity|]. cbn. repeat split.
Qed.

Lemma after_other_job s c id j :
  store.jobs s !! id = Some j ->
  match c with
  | call_UpdateJobStatus _ id' _ _ => id' <> id
  | _ => True
  end ->
  store.jobs (after s c) !! id = Some j.
Proof.
  intros Hj Hc. destruct c; cbn [after].
  - now rewrite UpsertErrorCluster_jobs.
  - now apply CreateJob_keeps_job.
  - rewrite UpdateJobStatus_other_job by congruence. exact Hj.
  - now rewrite CreateAnalysisResult_jobs.
Qed.

(** A job that is completed or failed is not moved. *)
Lemma permitted_from_terminal old new :
  old = "completed" \/ old = "failed" -> ~ permitted old new.
Proof.
  unfold permitted. intros [-> | ->] H; intuition discriminate.
Qed.

(** X9.  A job that is completed or failed is final: whatever calls to
    [UpsertErrorCluster], [CreateJob], [UpdateJobStatus] and
    [CreateAnalysisResult] follow, with whatever arguments, its row stays
    exactly as it is. *)
Theorem terminal_job_is_final (s : store.PostgresStore) (calls : list call)
    (id : uuid) (j : models.Job.t) :
  store.jobs s !! id = Some j ->
  models.Job.Status j = "completed" \/ models.Job.Status j = "failed" ->
  store.jobs (fold_left after calls s) !! id = Some j.
Proof.
  intros Hj Hst. revert s Hj.
  induction calls as [|c calls IH]; intros s Hj; [exact Hj|].
  cbn [fold_left]. apply IH.
  destruct c as [now c | job | now id' status opts | r];
    try (apply after_other_job; [exact Hj | exact I]).
  destruct (decide (id' = id)) as [->|Hne];
    [|apply after_other_job; [exact Hj | exact Hne]].
  cbn [after].
  destruct (UpdateJobStatus_same_job s now id status opts j Hj)
    as [Hsame | (Hp & _)]; [exact Hsame|].
  now apply permitted_from_terminal in Hp.
Qed.

Lemma terminal_job_is_final_witness :
  store.jobs
    (fold_left after
       [call_UpdateJobStatus 1300 7%N "running" [];
        call_CreateJob pending_job;
        call_UpdateJobStatus 1400 7%N "failed" [store.WithErrorMessage "late"]]
       store_with_completed_job) !! 7%N
  = Some completed_job.
Proof.
  apply terminal_job_is_final; [reflexivity | left; reflexivity].
Defined.

(** The stamps of a job stay coherent when the clock does not run
    backwards between the updates of its status. *)
Lemma stamps_stay_coherent (calls : list call) (id : uuid) :
  forall (s : store.PostgresStore) (j : models.Job.t),
  store.jobs s !! id = Some j ->
  stamps_coherent j ->
  (forall t, models.Job.StartedAt j = Some t ->
             Forall (Z.le t) (update_times id calls)) ->
  StronglySorted Z.le (update_times id calls) ->
  exists j',
    store.jobs (fold_left after calls s) !! id = Some j'
    /\ stamps_coherent j'.
Proof.
  induction calls as [|c calls IH]; intros s j Hj Hco Hst Hso; [eauto|].
  cbn [fold_left].
  assert (Hskip :
            update_times id (c :: calls) = update_times id calls ->
            store.jobs (after s c) !! id = Some j ->
            exists j',
              store.jobs (fold_left after calls (after s c)) !! id = Some j'
              /\ stamps_coherent j').
  { intros E Hj'. rewrite E in Hst, Hso. exact (IH _ j Hj' Hco Hst Hso). }
  destruct c as [now c | job | now id' status opts | r];
    try (apply Hskip; [reflexivity | apply after_other_job; [exact Hj | exact I]]).
  cbn [update_times] in *.
  destruct (N.eqb_spec id' id) as [->|Hne].
  2:{ apply Hskip; [reflexivity|]. now apply after_other_job. }
  clear Hskip. apply StronglySorted_inv in Hso. destruct Hso as [Hso Hnow].
  cbn [after].
  destruct (UpdateJobStatus_same_job s now id status opts j Hj)
    as [Hsame | (Hp & j' & Hj' & Hs' & Hstart & Hdone)].
  - apply (IH _ j Hsame Hco); [|exact Hso].
    intros t Ht. specialize (Hst t Ht). now apply Forall_inv_tail in Hst.
  - destruct Hp as [[Hold ->] | [[Hold ->] | [Hold ->]]];
      cbn in Hstart, Hdone;
      destruct Hco as [(Hc & Hc1 & Hc2) | [(Hc & (t1 & Hc1) & Hc2)
                                          | ([Hc|Hc] & _)]];
      try (rewrite Hold in Hc; discriminate).
    + apply (IH _ j' Hj'); [|intros t Ht|exact Hso].
      * right. left. rewrite Hs', Hstart, Hdone. eauto.
      * rewrite Hstart in Ht. injection Ht as <-. exact Hnow.
    + apply (IH _ j' Hj'); [|intros t Ht|exact Hso].
      * right. right. rewrite Hs', Hstart, Hdone. split; [now left|].
        exists t1, now. repeat split; [exact Hc1|].
        specialize (Hst t1 Hc1). now apply Forall_inv in Hst.
      * rewrite Hstart in Ht. specialize (Hst t Ht).
        now apply Forall_inv_tail in Hst.
    + apply (IH _ j' Hj'); [|intros t Ht|exact Hso].
      * right. right. rewrite Hs', Hstart, Hdone. split; [now right|].
        exists t1, now. repeat split; [exact Hc1|].
        specialize (Hst t1 Hc1). now apply Forall_inv in Hst.
      * rewrite Hstart in Ht. specialize (Hst t Ht).
        now apply Forall_inv_tail in Hst.
Qed.

(** X10.  The time stamps of a job say where it is.  For a job created
    pending by [CreateJob], after any series of calls to the store in
    which the clock of the updates of its status does not run backwards,
    the job is still there and it is pending with no start and no
    completion time, or running with a start time and no completion
    time, or completed or failed with a start time and a completion time
    that is not before it. *)
Theorem job_stamps_coherent (s s0 : store.PostgresStore) (job : models.Job.t)
    (calls : list call) :
  store.CreateJob s job = (s0, None) ->
  models.Job.Status job = "pending" ->
  Sorted Z.le (update_times (models.Job.ID job) calls) ->
  exists j,
    store.jobs (fold_left after calls s0) !! models.Job.ID job = Some j
    /\ stamps_coherent j.
Proof.
  intros Hc Hp Hso.
  assert (Hrow : exists row,
            store.jobs s0 !! models.Job.ID job = Some row
            /\ models.Job.Status row = "pending"
            /\ models.Job.StartedAt row = None
            /\ models.Job.CompletedAt row = None).
  { revert Hc. unfold store.CreateJob.
    destruct (store.status_check _); cbn [negb]; [|discriminate].
    destruct (store.jobs s !! models.Job.ID job); [discriminate|].
    match goal with
    | |- context [negb ?b] => destruct b; cbn [negb]; [|discriminate]
    end.
    intros [= <-]. eexists. cbn [store.set_jobs store.jobs].
    rewrite lookup_insert_eq. split; [reflexivity|]. cbn. auto. }
  destruct Hrow as (row & Hrow & Hst & Hs1 & Hs2).
  apply (stamps_stay_coherent calls _ s0 row Hrow).
  - left. auto.
  - intros t Ht. rewrite Hs1 in Ht. discriminate.
  - apply Sorted_StronglySorted; [|exact Hso].
    intros a b c. apply Z.le_trans.
Qed.

Lemma job_stamps_coherent_witness :
  exists j,
    store.jobs
      (fold_left after
         [call_UpdateJobStatus 1100 7%N "running" [];
          call_UpsertErrorCluster 1150 (merge_cluster 12%N "WARN" 1150 1);
          call_UpdateJobStatus 1200 7%N "completed" [store.WithClusterID 11%N]]
         (fst (store.CreateJob store_with_error_row pending_job))) !! 7%N
    = Some j
    /\ stamps_coherent j.
Proof.
  assert (Hc : store.CreateJob store_with_error_row pending_job
               = (fst (store.CreateJob store_with_error_row pending_job), None))
    by (vm_compute; reflexivity).
  apply (job_stamps_coherent _ _ pending_job _ Hc eq_refl).
  cbn. repeat constructor; lia.
Defined.

(** ** What [Cluster] computes *)

Lemma group_of_snoc `{GoUnicode} fp lines line :
  group_of fp (lines ++ [line])
  = if in_group fp line then group_of fp lines ++ [line] else group_of fp lines.
Proof.
  unfold group_of. rewrite List.filter_app. cbn [List.filter].
  destruct (in_group fp line); [reflexivity | apply app_nil_r].
Qed.

Lemma group_of_length `{GoUnicode} fp lines :
  (length (group_of fp lines) <= length lines)%nat.
Proof. apply List.filter_length_le. Qed.

(** A group of one line. *)
Lemma summarises_one `{GoUnicode} line :
  summarises 1 (seen_at line) (seen_at line) (models.LogLine.Level line)
    (sample_of line) [line].
Proof.
  split; cbn [length In]; try reflexivity; eauto.
  - intros l [<-|[]]. lia.
  - intros l [<-|[]]. lia.
  - intros l [<-|[]]. lia.
Qed.

(** A group that gets one more line. *)
Lemma summarises_snoc `{GoUnicode} count first last level sample g line :
  summarises count first last level sample g ->
  summarises (count + 1)
    (if seen_at line <? first then seen_at line else first)
    (if last <? seen_at line then seen_at line else last)
    (if analysis.LevelSeverity level
        <? analysis.LevelSeverity (models.LogLine.Level line)
     then models.LogLine.Level line else level)
    sample (g ++ [line]).
Proof.
  intros [Hc (l0 & rest & -> & Hs) Hf1 (lf & Hlf & Hf2) Hl1 (ll & Hll & Hl2)
            Hv1 (lv & Hlv & Hv2)].
  split.
  - rewrite length_app. cbn [length] in *. lia.
  - exists l0, (rest ++ [line]). split; [reflexivity | exact Hs].
  - intros l Hl. apply in_app_iff in Hl. destruct Hl as [Hl|[<-|[]]].
    + specialize (Hf1 l Hl). destruct (seen_at line <? first) eqn:E; [|lia].
      apply Z.ltb_lt in E. lia.
    + destruct (seen_at line <? first) eqn:E; [lia|]. apply Z.ltb_ge in E. lia.
  - destruct (seen_at line <? first).
    + exists line. split; [apply in_app_iff; right; now left | reflexivity].
    + exists lf. split; [apply in_app_iff; now left | exact Hf2].
  - intros l Hl. apply in_app_iff in Hl. destruct Hl as [Hl|[<-|[]]].
    + specialize (Hl1 l Hl). destruct (last <? seen_at line) eqn:E; [|lia].
      apply Z.ltb_lt in E. lia.
    + destruct (last <? seen_at line) eqn:E; [lia|]. apply Z.ltb_ge in E. lia.
  - destruct (last <? seen_at line).
    + exists line. split; [apply in_app_iff; right; now left | reflexivity].
    + exists ll. split; [apply in_app_iff; now left | exact Hl2].
  - intros l Hl. apply in_app_iff in Hl. destruct Hl as [Hl|[<-|[]]].
    + specialize (Hv1 l Hl).
      destruct (_ <? _) eqn:E; [|lia]. apply Z.ltb_lt in E. lia.
    + destruct (_ <? _) eqn:E; [lia|]. apply Z.ltb_ge in E. lia.
  - destruct (_ <? _).
    + exists line. split; [apply in_app_iff; right; now left | reflexivity].
    + exists lv. split; [apply in_app_iff; now left | exact Hv2].
Qed.

(** The groups after the loop over the lines: one for each fingerprint
    that occurs, and it summarises the lines with that fingerprint. *)
Lemma observe_groups `{GoUnicode} (lines : list models.LogLine.t) :
  Z.of_nat (length lines) <= max_int64 ->
  forall fp,
    match fold_left analysis.observe lines ∅ !! fp with
    | Some cs =>
        analysis.fingerprint cs = fp
        /\ summarises (analysis.count cs) (analysis.firstSeen cs)
             (analysis.lastSeen cs) (analysis.level cs)
             (analysis.sampleMessage cs) (group_of fp lines)
    | None => group_of fp lines = []
    end.
Proof.
  induction lines as [|line lines IH] using rev_ind; intros Hlen fp.
  { cbn [fold_left]. rewrite lookup_empty. reflexivity. }
  rewrite length_app in Hlen. cbn [length] in Hlen.
  rewrite fold_left_app. cbn [fold_left].
  rewrite group_of_snoc. unfold analysis.observe at 1. cbv zeta.
  unfold in_group.
  destruct (String.eqb_spec
              (analysis.Fingerprint (models.LogLine.Message line)) fp)
    as [<-|Hne].
  2:{ rewrite lookup_insert_ne by exact Hne. apply IH. lia. }
  rewrite lookup_insert_eq. cbn [analysis.fingerprint analysis.count
    analysis.firstSeen analysis.lastSeen analysis.level analysis.sampleMessage].
  specialize (IH ltac:(lia)
                (analysis.Fingerprint (models.LogLine.Message line))).
  pose proof (group_of_length
                (analysis.Fingerprint (models.LogLine.Message line)) lines)
    as Hg.
  destruct (fold_left analysis.observe lines ∅
              !! analysis.Fingerprint (models.LogLine.Message line))
    as [cs|] eqn:E.
  - destruct IH as [Hfp Hsum]. split; [exact Hfp|].
    rewrite wrap64_small
      by (rewrite (group_count _ _ _ _ _ _ Hsum);
          unfold min_int64, max_int64 in *; lia).
    now apply summarises_snoc.
  - rewrite IH. cbn [analysis.fingerprint analysis.count analysis.firstSeen
      analysis.lastSeen analysis.level analysis.sampleMessage app].
    split; [reflexivity|].
    rewrite !Z.ltb_irrefl. apply summarises_one.
Qed.

(** The clusters built from the groups. *)
Lemma build_fingerprints `{GoRuntime} service namespace n groups :
  map models.ErrorCluster.Fingerprint (analysis.build service namespace n groups)
  = map (fun kc => analysis.fingerprint (snd kc)) groups.
Proof.
  revert n. induction groups as [|[k cs] groups IH]; intros n; [reflexivity|].
  cbn [analysis.build map snd models.ErrorCluster.Fingerprint].
  now rewrite IH.
Qed.

Lemma build_In `{GoRuntime} service namespace n groups c :
  In c (analysis.build service namespace n groups) ->
  exists k cs,
    In (k, cs) groups
    /\ models.ErrorCluster.TenantID c = uuid_Nil
    /\ models.ErrorCluster.Service c = service
    /\ models.ErrorCluster.Namespace c = namespace
    /\ models.ErrorCluster.Fingerprint c = analysis.fingerprint cs
    /\ models.ErrorCluster.Level c = analysis.level cs
    /\ models.ErrorCluster.FirstSeenAt c = analysis.firstSeen cs
    /\ models.ErrorCluster.LastSeenAt c = analysis.lastSeen cs
    /\ models.ErrorCluster.Count c = analysis.count cs
    /\ models.ErrorCluster.SampleMessage c = analysis.sampleMessage cs.
Proof.
  revert n. induction groups as [|[k cs] groups IH]; intros n; [intros []|].
  cbn [analysis.build In]. intros [<-|Hin].
  - exists k, cs. cbn. repeat split; auto.
  - destruct (IH _ Hin) as (k' & cs' & Hk & Hrest).
    exists k', cs'. split; [now right | exact Hrest].
Qed.

Lemma group_of_In `{GoUnicode} fp lines line :
  In line (group_of fp lines)
  <-> In line lines /\ analysis.Fingerprint (models.LogLine.Message line) = fp.
Proof.
  unfold group_of, in_group. rewrite List.filter_In, String.eqb_eq. reflexivity.
Qed.

(** The clusters [Cluster] returns are built from the groups of the loop
    over the lines. *)
Lemma Cluster_rows `{GoUnicode} `{GoRuntime} lines service namespace c :
  In c (slice_elems (analysis.Cluster lines service namespace)) ->
  exists k cs,
    fold_left analysis.observe lines ∅ !! k = Some cs
    /\ models.ErrorCluster.TenantID c = uuid_Nil
    /\ models.ErrorCluster.Service c = service
    /\ models.ErrorCluster.Namespace c = namespace
    /\ models.ErrorCluster.Fingerprint c = analysis.fingerprint cs
    /\ models.ErrorCluster.Level c = analysis.level cs
    /\ models.ErrorCluster.FirstSeenAt c = analysis.firstSeen cs
    /\ models.ErrorCluster.LastSeenAt c = analysis.lastSeen cs
    /\ models.ErrorCluster.Count c = analysis.count cs
    /\ models.ErrorCluster.SampleMessage c = analysis.sampleMessage cs.
Proof.
  unfold analysis.Cluster.
  destruct (length lines =? 0)%nat; [intros []|].
  cbv zeta. cbn [slice_elems]. intros Hc.
  apply (Permutation_in _ (Slice_perm _ _)) in Hc. apply build_In in Hc.
  destruct Hc as (k & cs & Hin & Hrest). exists k, cs. split; [|exact Hrest].
  apply (Permutation_in _ (map_range_perm _ _)) in Hin.
  apply list_elem_of_In in Hin. now apply elem_of_map_to_list in Hin.
Qed.

(** Their fingerprints are the keys of the groups, in some order. *)
Lemma Cluster_fingerprints `{GoUnicode} `{GoRuntime} lines service namespace :
  Z.of_nat (length lines) <= max_int64 ->
  Permutation
    (map models.ErrorCluster.Fingerprint
       (slice_elems (analysis.Cluster lines service namespace)))
    (map fst (map_to_list (fold_left analysis.observe lines ∅))).
Proof.
  intros Hlen. unfold analysis.Cluster.
  destruct (length lines =? 0)%nat eqn:E0.
  { apply Nat.eqb_eq, length_zero_iff_nil in E0. subst lines.
    cbn [slice_elems map fold_left]. now rewrite map_to_list_empty. }
  cbv zeta. cbn [slice_elems].
  rewrite (Permutation_map _ (Slice_perm _ _)), build_fingerprints.
  rewrite (map_ext_in _ fst).
  - apply Permutation_map, map_range_perm.
  - intros [k cs] Hin. cbn [fst snd].
    apply (Permutation_in _ (map_range_perm _ _)) in Hin.
    apply list_elem_of_In, elem_of_map_to_list in Hin.
    pose proof (observe_groups lines Hlen k) as Hinv.
    rewrite Hin in Hinv. tauto.
Qed.

(** Each line is in the group of one fingerprint of a list without
    duplicates that holds its fingerprint. *)
Lemma groups_partition `{GoUnicode} (fps : list string)
    (lines : list models.LogLine.t) :
  NoDup fps ->
  (forall line, In line lines ->
     In (analysis.Fingerprint (models.LogLine.Message line)) fps) ->
  fold_right Z.add 0
    (map (fun fp => Z.of_nat (length (group_of fp lines))) fps)
  = Z.of_nat (length lines).
Proof.
  intros Hnd. induction lines as [|line lines IH]; intros Hin.
  { clear Hnd Hin. induction fps as [|fp fps IHf]; [reflexivity|].
    cbn [map fold_right]. rewrite IHf. reflexivity. }
  specialize (IH (fun l Hl => Hin l (or_intror Hl))).
  specialize (Hin line (or_introl eq_refl)).
  set (fp0 := analysis.Fingerprint (models.LogLine.Message line)) in *.
  assert (Hone : fold_right Z.add 0
                   (map (fun fp => Z.of_nat (length (group_of fp (line :: lines))))
                      fps)
                 = 1 + fold_right Z.add 0
                         (map (fun fp => Z.of_nat (length (group_of fp lines)))
                            fps)).
  { clear IH. induction fps as [|fp fps IHf]; [destruct Hin|].
    apply NoDup_cons in Hnd. destruct Hnd as [Hfp Hnd].
    cbn [map fold_right]. unfold group_of at 1. cbn [List.filter].
    fold (group_of fp lines). unfold in_group at 1. fold fp0.
    destruct (String.eqb_spec fp0 fp) as [E|E].
    - assert (Hrest : map (fun fp => Z.of_nat (length (group_of fp (line :: lines))))
                        fps
                      = map (fun fp => Z.of_nat (length (group_of fp lines))) fps).
      { apply map_ext_in. intros fp' Hfp'. unfold group_of. cbn [List.filter].
        unfold in_group at 1. fold fp0.
        destruct (String.eqb_spec fp0 fp') as [E'|E']; [|reflexivity].
        exfalso. apply Hfp. apply list_elem_of_In. congruence. }
      rewrite Hrest. cbn [length]. lia.
    - destruct Hin as [Hin|Hin]; [congruence|].
      rewrite (IHf Hnd Hin). lia. }
  rewrite Hone, IH. cbn [length]. lia.
Qed.

(** X11.  [Cluster] files every line of a batch under exactly one cluster:
    no two clusters it returns have the same fingerprint, the fingerprints
    of the clusters are exactly the fingerprints of the lines, and the
    counts of the clusters add up to the number of lines. *)
Theorem Cluster_counts_every_line `{GoUnicode} `{GoRuntime}
    (lines : list models.LogLine.t) (service namespace : string) :
  Z.of_nat (length lines) <= max_int64 ->
  let out := slice_elems (analysis.Cluster lines service namespace) in
  NoDup (map models.ErrorCluster.Fingerprint out)
  /\ (forall fp,
        In fp (map models.ErrorCluster.Fingerprint out)
        <-> exists line,
              In line lines
              /\ analysis.Fingerprint (models.LogLine.Message line) = fp)
  /\ fold_right Z.add 0 (map models.ErrorCluster.Count out)
     = Z.of_nat (length lines).
Proof.
  intros Hlen out. subst out.
  pose proof (Cluster_fingerprints lines service namespace Hlen) as Hfps.
  pose proof (observe_groups lines Hlen) as Hinv.
  set (out := slice_elems (analysis.Cluster lines service namespace)) in *.
  set (groups := fold_left analysis.observe lines ∅) in *.
  assert (Hnd : NoDup (map models.ErrorCluster.Fingerprint out))
    by (rewrite Hfps; apply NoDup_fst_map_to_list).
  assert (Hfp : forall fp,
            In fp (map models.ErrorCluster.Fingerprint out)
            <-> exists line,
                  In line lines
                  /\ analysis.Fingerprint (models.LogLine.Message line) = fp).
  { intros fp. split.
    - intros Hin. apply (Permutation_in _ Hfps) in Hin.
      apply in_map_iff in Hin. destruct Hin as ([k cs] & <- & Hin).
      apply list_elem_of_In, elem_of_map_to_list in Hin. cbn [fst].
      specialize (Hinv k). rewrite Hin in Hinv. destruct Hinv as [_ Hsum].
      destruct (group_first_seen _ _ _ _ _ _ Hsum) as (line & Hl & _).
      exists line. now apply group_of_In.
    - intros (line & Hl & Hline).
      apply (Permutation_in _ (Permutation_sym Hfps)).
      specialize (Hinv fp).
      destruct (groups !! fp) as [cs|] eqn:Eg.
      + apply in_map_iff. exists (fp, cs). split; [reflexivity|].
        now apply list_elem_of_In, elem_of_map_to_list.
      + exfalso. assert (Hg : In line (group_of fp lines))
          by now apply group_of_In.
        rewrite Hinv in Hg. exact Hg. }
  split; [exact Hnd|]. split; [exact Hfp|].
  rewrite <- (groups_partition (map models.ErrorCluster.Fingerprint out) lines Hnd).
  - rewrite map_map. f_equal. apply map_ext_in. intros c Hc.
    destruct (Cluster_rows lines service namespace c Hc)
      as (k & cs & Hk & _ & _ & _ & Hf & _ & _ & _ & Hcount & _).
    specialize (Hinv k). fold groups in Hk. rewrite Hk in Hinv.
    destruct Hinv as [Hkey Hsum].
    rewrite Hcount, Hf, Hkey. exact (group_count _ _ _ _ _ _ Hsum).
  - intros line Hl. apply Hfp. eauto.
Qed.

(** X12.  Each cluster [Cluster] returns carries the service and the
    namespace given, no tenant, and the summary of the lines of the batch
    that have its fingerprint: its count is their number, its first and
    last seen times are the earliest and the latest of their time stamps,
    its level is the level of one of them with the highest severity among
    them, and its sample is the message of the first of them in the
    batch, cut to 2000 bytes. *)
Theorem Cluster_summarises_each_group `{GoUnicode} `{GoRuntime}
    (lines : list models.LogLine.t) (service namespace : string)
    (c : models.ErrorCluster.t) :
  Z.of_nat (length lines) <= max_int64 ->
  In c (slice_elems (analysis.Cluster lines service namespace)) ->
  models.ErrorCluster.TenantID c = uuid_Nil
  /\ models.ErrorCluster.Service c = service
  /\ models.ErrorCluster.Namespace c = namespace
  /\ summarises (models.ErrorCluster.Count c)
       (models.ErrorCluster.FirstSeenAt c)
       (models.ErrorCluster.LastSeenAt c)
       (models.ErrorCluster.Level c)
       (models.ErrorCluster.SampleMessage c)
       (group_of (models.ErrorCluster.Fingerprint c) lines).
Proof.
  intros Hlen Hc.
  destruct (Cluster_rows lines service namespace c Hc)
    as (k & cs & Hk & Ht & Hs & Hn & Hf & Hl & H1 & H2 & Hcount & Hm).
  pose proof (observe_groups lines Hlen k) as Hinv.
  rewrite Hk in Hinv. destruct Hinv as [Hkey Hsum].
  rewrite Ht, Hs, Hn, Hf, Hl, H1, H2, Hcount, Hm, Hkey. auto.
Qed.

Lemma Cluster_counts_every_line_witness :
  fold_right Z.add 0
    (map models.ErrorCluster.Count
       (slice_elems
          (@analysis.Cluster ascii_tables plain_runtime
             [one_line; one_line] "api" "prod")))
  = 2.
Proof.
  apply (@Cluster_counts_every_line ascii_tables plain_runtime
           [one_line; one_line] "api" "prod").
  unfold max_int64. cbn. lia.
Defined.

Lemma Cluster_summarises_each_group_witness :
  exists c,
    In c (slice_elems
            (@analysis.Cluster ascii_tables plain_runtime
               [one_line; one_line] "api" "prod"))
    /\ models.ErrorCluster.Service c = "api"
    /\ summarises (H := ascii_tables) (models.ErrorCluster.Count c)
         (models.ErrorCluster.FirstSeenAt c)
         (models.ErrorCluster.LastSeenAt c)
         (models.ErrorCluster.Level c)
         (models.ErrorCluster.SampleMessage c)
         (@group_of ascii_tables (models.ErrorCluster.Fingerprint c)
            [one_line; one_line]).
Proof.
  assert (Hc : exists c,
            In c (slice_elems
                    (@analysis.Cluster ascii_tables plain_runtime
                       [one_line; one_line] "api" "prod")))
    by (vm_compute; eexists; left; reflexivity).
  destruct Hc as (c & Hc). exists c. split; [exact Hc|].
  assert (Hlen : Z.of_nat (length [one_line; one_line]) <= max_int64)
    by (unfold max_int64; cbn; lia).
  destruct (@Cluster_summarises_each_group ascii_tables plain_runtime
              [one_line; one_line] "api" "prod" c Hlen Hc)
    as (_ & Hs & _ & Hsum).
  split; [exact Hs | exact Hsum].
Defined.

(** ** The background analysis and its job *)










(** ** TriggerAnalysis *)


(** ** Summarize *)

(** A line as [Summarize] hands it on: the same but for its message, cut to
    500 bytes at a rune boundary. *)
Lemma truncate_message_spec (line : models.LogLine.t) :
  let line' := ai.truncate_message line in
  models.LogLine.Timestamp line' = models.LogLine.Timestamp line
  /\ models.LogLine.Labels line' = models.LogLine.Labels line
  /\ models.LogLine.Level line' = models.LogLine.Level line
  /\ len (models.LogLine.Message line') <= 500
  /\ (exists t,
        models.LogLine.Message line = models.LogLine.Message line' +:+ t)
  /\ (len (models.LogLine.Message line) <= 500 -> line' = line)
  /\ (go_utf8.ValidString (models.LogLine.Message line) = true ->
      go_utf8.ValidString (models.LogLine.Message line') = true).
Proof.
  cbv zeta. unfold ai.truncate_message.
  cbn [models.LogLine.Timestamp models.LogLine.Labels models.LogLine.Level
       models.LogLine.Message].
  destruct (truncated_text (models.LogLine.Message line) 500 ltac:(lia))
    as (Hlen & Hpre & _ & Hv).
  do 3 (split; [reflexivity|]).
  split; [exact Hlen|]. split; [exact Hpre|]. split; [|exact Hv].
  intros Hshort. unfold ai.truncateString.
  apply Z.leb_le in Hshort. rewrite Hshort. now destruct line.
Qed.

(** X15.  A summary is made of all the lines the log backend returns for
    the service, cut to size.  When [Summarize] returns a result, the
    backend was asked for the bare selector of the service and namespace
    (no level and no keyword filter) over the period given, with the
    number of lines given as the limit, and it returned at least one
    line; the summary is what the provider made of these lines, each with
    its time stamp, labels and level unchanged and its message cut to at
    most 500 bytes: a prefix of the message, the whole of it when it has
    at most 500 bytes, and valid UTF-8 when the message is.  The result
    reports the number of lines the backend returned and the period
    asked for. *)
Theorem Summarize_sends_truncated_lines `{GoUnicode} (s : ai.AnalysisService)
    (params : ai.SummarizeParams) (r : ai.SummarizeResult) :
  ai.Summarize s params = returns r ->
  exists logs sent,
    ai.loki_ s
      {| loki.Query :=
           logql.buildSelector (ai.SummarizeParams_Service params)
             (ai.SummarizeParams_Namespace params);
         loki.Start := ai.SummarizeParams_Start params;
         loki.End_ := ai.SummarizeParams_End params;
         loki.Limit := ai.SummarizeParams_MaxLines params;
         loki.Direction := "" |}
    = returns logs
    /\ logs <> []
    /\ models.AIProvider.Summarize (ai.provider s) sent = returns (ai.Summary r)
    /\ ai.LinesAnalyzed r = Z.of_nat (length logs)
    /\ ai.From r = ai.SummarizeParams_Start params
    /\ ai.To r = ai.SummarizeParams_End params
    /\ Forall2
         (fun line line' =>
            models.LogLine.Timestamp line' = models.LogLine.Timestamp line
            /\ models.LogLine.Labels line' = models.LogLine.Labels line
            /\ models.LogLine.Level line' = models.LogLine.Level line
            /\ len (models.LogLine.Message line') <= 500
            /\ (exists t,
                  models.LogLine.Message line
                  = models.LogLine.Message line' +:+ t)
            /\ (len (models.LogLine.Message line) <= 500 -> line' = line)
            /\ (go_utf8.ValidString (models.LogLine.Message line) = true ->
                go_utf8.ValidString (models.LogLine.Message line') = true))
         logs sent.
Proof.
  unfold ai.Summarize. cbv zeta.
  change (logql.BuildSearchQuery _)
    with (logql.buildSelector (ai.SummarizeParams_Service params)
            (ai.SummarizeParams_Namespace params)).
  destruct (ai.loki_ s _) as [logs|err|v]; try discriminate.
  destruct (length logs =? 0)%nat eqn:E0; try discriminate.
  destruct (models.AIProvider.Summarize (ai.provider s) _)
    as [summary|err|v] eqn:Es; try discriminate.
  intros [= <-]. exists logs, (map ai.truncate_message logs).
  cbn [ai.Summary ai.LinesAnalyzed ai.From ai.To].
  split; [reflexivity|]. split.
  { intros ->. discriminate E0. }
  split; [exact Es|]. split; [now rewrite length_map|].
  split; [reflexivity|]. split; [reflexivity|].
  clear. induction logs as [|line logs IH]; [constructor|].
  cbn [map]. constructor; [apply truncate_message_spec | exact IH].
Qed.

Lemma Summarize_sends_truncated_lines_witness :
  exists logs sent,
    ai.loki_ (mock_service float_1_5)
      {| loki.Query := logql.buildSelector "api" "prod";
         loki.Start := 0;
         loki.End_ := 3600 * Second;
         loki.Limit := 500;
         loki.Direction := "" |}
    = returns logs
    /\ models.AIProvider.Summarize (ai.provider (mock_service float_1_5)) sent
       = returns "Summary of 1 log line"
    /\ length sent = length logs.
Proof.
  destruct (@Summarize_sends_truncated_lines ascii_tables
              (mock_service float_1_5) mock_params
              {| ai.Summary := "Summary of 1 log line";
                 ai.LinesAnalyzed := 1;
                 ai.From := 0;
                 ai.To := 3600 * Second;
                 ai.Provider := "mock";
                 ai.Model := "" |} eq_refl)
    as (logs & sent & Hl & _ & Hs & _ & _ & _ & Hall).
  exists logs, sent. split; [exact Hl|]. split; [exact Hs|].
  symmetry. exact (Forall2_length _ _ _ Hall).
Defined.

(** ** Listing clusters *)


Lemma cluster_rows_In s c :
  In c (store.cluster_rows s) <-> exists k, store.error_clusters s !! k = Some c.
Proof.
  unfold store.cluster_rows. rewrite in_map_iff. split.
  - intros ([k c'] & <- & Hin). exists k.
    now apply list_elem_of_In, elem_of_map_to_list in Hin.
  - intros (k & Hk). exists (k, c). split; [reflexivity|].
    now apply list_elem_of_In, elem_of_map_to_list.
Qed.







Lemma appended_elems {A} (rows : list A) :
  slice_elems (appended rows) = rows
  /\ (is_nil (appended rows) = true <-> rows = []).
Proof.
  destruct rows; cbn; split; try reflexivity; split; congruence.
Qed.


(** X17.  [GetClustersByFingerprints] fails only for a fingerprint that
    is not valid text.  Otherwise it returns, in some order and each
    once, the rows of the tenant whose fingerprint is among those given,
    in a store whose constraints hold.  Without fingerprints the slice is
    empty and not nil; with fingerprints of which the tenant has none it
    is nil. *)
Theorem GetClustersByFingerprints_rows `{store.Postgres}
    (s : store.PostgresStore) (tenantID : uuid) (fingerprints : list string) :
  let out := fst (store.GetClustersByFingerprints s tenantID fingerprints) in
  (snd (store.GetClustersByFingerprints s tenantID fingerprints) <> None
   <-> exists fp, In fp fingerprints /\ store.valid_text fp = false)
  /\ (snd (store.GetClustersByFingerprints s tenantID fingerprints) = None ->
  (forall c,
     In c (slice_elems out)
     <-> (exists k, store.error_clusters s !! k = Some c)
         /\ models.ErrorCluster.TenantID c = tenantID
         /\ In (models.ErrorCluster.Fingerprint c) fingerprints)
  /\ (constraints_hold s ->
      NoDup (map models.ErrorCluster.ID (slice_elems out)))
  /\ (is_nil out = true <-> fingerprints <> [] /\ slice_elems out = [])).
Proof.
  cbv zeta. unfold store.GetClustersByFingerprints.
  destruct fingerprints as [|fp fps].
  { cbn [length Nat.eqb slice_elems is_nil fst snd]. split.
    { split; [intros Hne; now contradiction Hne | intros (fp & [] & _)]. }
    intros _. split; [|split].
    - intros c. split; [intros [] | intros (_ & _ & [])].
    - intros _. constructor.
    - split; [discriminate | intros [Hne _]; now contradiction Hne]. }
  cbn [length Nat.eqb].
  destruct (forallb store.valid_text (fp :: fps)) eqn:Ev; cbn [negb fst snd].
  2:{ split; [|intros [=]]. split; [|discriminate]. intros _.
      destruct (forallb_forall store.valid_text (fp :: fps)) as [_ Hall].
      destruct (existsb (fun x => negb (store.valid_text x)) (fp :: fps)) eqn:Ex.
      - apply existsb_exists in Ex. destruct Ex as (x & Hin & Hx).
        exists x. split; [exact Hin|]. now destruct (store.valid_text x).
      - exfalso. rewrite Hall in Ev; [discriminate|]. intros x Hin.
        destruct (store.valid_text x) eqn:Hx; [reflexivity|]. exfalso.
        assert (existsb (fun x => negb (store.valid_text x)) (fp :: fps) = true)
          by (apply existsb_exists; exists x; rewrite Hx; auto).
        congruence. }
  split.
  { split; [intros Hne; now contradiction Hne|]. intros (x & Hin & Hx).
    rewrite forallb_forall in Ev. rewrite (Ev x Hin) in Hx. discriminate. }
  intros _.
  set (keep := fun c : models.ErrorCluster.t =>
                 N.eqb (models.ErrorCluster.TenantID c) tenantID
                 && existsb (String.eqb (models.ErrorCluster.Fingerprint c))
                      (fp :: fps)).
  destruct (appended_elems (store.scan (List.filter keep (store.cluster_rows s))))
    as [-> Hnil].
  split; [|split].
  - intros c.
    assert (Hscan : In c (store.scan (List.filter keep (store.cluster_rows s)))
                    <-> In c (List.filter keep (store.cluster_rows s))).
    { split; apply Permutation_in;
        [|apply Permutation_sym]; apply store.scan_perm. }
    rewrite Hscan, List.filter_In, cluster_rows_In. subst keep. cbv beta.
    rewrite andb_true_iff, N.eqb_eq, existsb_exists.
    split.
    + intros (Hk & Ht & fp' & Hin & Heq). apply String.eqb_eq in Heq.
      subst fp'. auto.
    + intros (Hk & Ht & Hin). split; [exact Hk|]. split; [exact Ht|].
      exists (models.ErrorCluster.Fingerprint c). split; [exact Hin|].
      apply String.eqb_refl.
  - intros Hs. rewrite (Permutation_map _ (store.scan_perm _ _)).
    pose proof (clusters_primary_key _ Hs) as Hnd.
    rewrite <- cluster_rows_ids in Hnd. fold (store.cluster_rows s) in Hnd.
    revert Hnd. generalize (store.cluster_rows s).
    induction l as [|c l IH]; intros Hnd; [constructor|].
    cbn [map] in Hnd. apply NoDup_cons in Hnd. destruct Hnd as [Hc Hnd].
    cbn [List.filter]. destruct (keep c); [|now apply IH].
    cbn [map]. apply NoDup_cons. split; [|now apply IH].
    intros Hin. apply Hc. apply list_elem_of_In in Hin.
    apply list_elem_of_In. apply in_map_iff in Hin.
    destruct Hin as (c' & Hid & Hc'). apply List.filter_In in Hc'.
    apply in_map_iff. exists c'. tauto.
  - rewrite Hnil. split; [intros ->; split; [discriminate | reflexivity]|].
    tauto.
Qed.

(** ** The selector of a LogQL query *)

(** Two texts that agree up to their first double quote. *)
Lemma split_at_quote (a b r1 r2 : string) :
  quote_free a = true -> quote_free b = true ->
  a +:+ String "034" r1 = b +:+ String "034" r2 ->
  a = b /\ r1 = r2.
Proof.
  revert b. induction a as [|c a IH]; intros [|d b] Ha Hb Heq;
    cbn [String.append] in Heq.
  - injection Heq as ->. auto.
  - injection Heq as <- _. cbn in Hb. discriminate.
  - injection Heq as -> _. cbn in Ha. discriminate.
  - injection Heq as -> Heq.
    cbn [quote_free go_strings.all_bytes] in Ha, Hb.
    apply andb_prop in Ha, Hb.
    destruct (IH b (proj2 Ha) (proj2 Hb) Heq) as [-> ->]. auto.
Qed.

(** X18.  The selector [buildSelector] writes determines the service and
    the namespace it was built from as long as neither holds a double
    quote: two such pairs with the same selector are the same pair.  The
    values are written between double quotes as they are, so that with a
    double quote in the service name this is lost: for every service and
    every namespace that is not empty there is a service name that, with
    no namespace, gives the very selector of that service in that
    namespace. *)
Theorem buildSelector_quotes :
  (forall service namespace service' namespace',
     quote_free service = true -> quote_free namespace = true ->
     quote_free service' = true -> quote_free namespace' = true ->
     logql.buildSelector service namespace
     = logql.buildSelector service' namespace' ->
     service = service' /\ namespace = namespace')
  /\ (forall service namespace,
        namespace <> "" ->
        logql.buildSelector
          (service +:+ dquote +:+ ", namespace=" +:+ dquote +:+ namespace) ""
        = logql.buildSelector service namespace).
Proof.
  split.
  - intros s n s' n' Hs Hn Hs' Hn'. unfold logql.buildSelector, dquote.
    destruct (String.eqb_spec n "") as [->|Hne];
      destruct (String.eqb_spec n' "") as [->|Hne']; cbn [negb];
      cbn [String.append]; intros Heq;
      repeat match type of Heq with
             | String ?c _ = String ?c _ => injection Heq as Heq
             end.
    + apply split_at_quote in Heq; tauto.
    + apply split_at_quote in Heq; [|assumption ..].
      destruct Heq as [_ Heq]. discriminate Heq.
    + apply split_at_quote in Heq; [|assumption ..].
      destruct Heq as [_ Heq]. discriminate Heq.
    + apply split_at_quote in Heq; [|assumption ..].
      destruct Heq as [-> Heq]. split; [reflexivity|].
      cbn [String.append] in Heq.
      repeat match type of Heq with
             | String ?c _ = String ?c _ => injection Heq as Heq
             end.
      apply split_at_quote in Heq; tauto.
  - intros s n Hn. unfold logql.buildSelector, dquote.
    destruct (String.eqb_spec n ""); [contradiction|]. cbn [negb String.eqb].
    cbn [String.eqb negb]. f_equal.
    now rewrite !app_assoc_string.
Qed.

(** ** Reading the answer of the log backend *)

Lemma uint_value_ge d acc : 0 <= acc -> acc <= uint_value d acc.
Proof.
  revert acc. induction d; intros acc Hacc; cbn [uint_value]; try lia;
    match goal with
    | |- _ <= uint_value _ ?a => specialize (IHd a ltac:(lia)); lia
    end.
Qed.

Lemma of_uint_acc_value d acc :
  Z.pos (Pos.of_uint_acc d acc) = uint_value d (Z.pos acc).
Proof.
  revert acc. induction d; intros acc; cbn [Pos.of_uint_acc uint_value];
    [reflexivity | rewrite IHd; f_equal; lia ..].
Qed.

Lemma of_uint_value d : Z.of_N (Pos.of_uint d) = uint_value d 0.
Proof.
  induction d; cbn [Pos.of_uint uint_value]; try reflexivity;
    try exact IHd;
    cbn [Z.of_N]; rewrite of_uint_acc_value; reflexivity.
Qed.

Lemma to_uint_value p : uint_value (Pos.to_uint p) 0 = Z.pos p.
Proof.
  rewrite <- of_uint_value, DecimalPos.Unsigned.of_to. reflexivity.
Qed.

(** The loop of [ParseUint] reads a numeral that fits 64 bits. *)
Lemma digits_numeral d n :
  0 <= n -> uint_value d n <= go_strconv.maxUint64 ->
  go_strconv.digits (NilEmpty.string_of_uint d) n = (uint_value d n, None).
Proof.
  revert n. unfold go_strconv.maxUint64.
  induction d; intros n Hn Hv;
    cbn [NilEmpty.string_of_uint uint_value go_strconv.digits] in *;
    [reflexivity | ..];
    match goal with
    | H : uint_value _ ?a <= _ |- _ =>
        pose proof (uint_value_ge d a ltac:(lia)) as Hge
    end;
    change (negb (go_regexp.perl_d _)) with false; cbn match;
    unfold go_strconv.maxUint64;
    change ((2 ^ 64 - 1) / 10 + 1) with 1844674407370955162;
    (destruct (1844674407370955162 <=? n) eqn:Ec;
       [apply Z.leb_le in Ec; lia|]);
    match goal with
    | |- context [Z.of_N (N_of_ascii ?c) - 48] =>
        let v := eval vm_compute in (Z.of_N (N_of_ascii c) - 48) in
        change (Z.of_N (N_of_ascii c) - 48) with v
    end;
    rewrite (Z.mod_small (n * 10)) by lia;
    rewrite Z.mod_small by lia;
    match goal with
    | |- context [(?a <? ?b) || (?c <? ?a)] =>
        destruct (a <? b) eqn:E1; [apply Z.ltb_lt in E1; lia|];
        destruct (c <? a) eqn:E2; [apply Z.ltb_lt in E2; lia|]
    end;
    cbn [orb];
    match goal with
    | |- go_strconv.digits _ ?a = (uint_value _ ?b, None) =>
        assert (Hab : b = a) by lia; rewrite Hab in *; apply IHd; [lia | exact Hv]
    end.
Qed.

Lemma wrap64_range z : min_int64 <= wrap64 z <= max_int64.
Proof.
  unfold wrap64, min_int64, max_int64.
  pose proof (Z.mod_pos_bound (z + 2 ^ 63) (2 ^ 64) ltac:(lia)). lia.
Qed.

(** What the loop of [ParseUint] returns fits 64 bits. *)
Lemma digits_range s n :
  0 <= n <= go_strconv.maxUint64 ->
  0 <= fst (go_strconv.digits s n) <= go_strconv.maxUint64.
Proof.
  revert n. unfold go_strconv.maxUint64.
  induction s as [|c s IH]; intros n Hn; cbn [go_strconv.digits fst]; [lia|].
  destruct (go_regexp.perl_d c); cbn [negb fst]; [|lia].
  cbv zeta. unfold go_strconv.maxUint64.
  destruct (_ <=? n); cbn [fst]; [lia|].
  destruct (_ || _); cbn [fst]; [lia|].
  apply IH.
  pose proof (Z.mod_pos_bound ((n * 10) mod 2 ^ 64
                               + (Z.of_N (N_of_ascii c) - 48)) (2 ^ 64)
                ltac:(lia)).
  lia.
Qed.

(** A numeral begins with a digit. *)
Lemma numeral_head p :
  exists c rest,
    NilEmpty.string_of_uint (Pos.to_uint p) = String c rest
    /\ go_regexp.perl_d c = true.
Proof.
  pose proof (DecimalPos.Unsigned.to_uint_nonnil p) as Hnil.
  destruct (Pos.to_uint p); [contradiction | ..];
    cbn [NilEmpty.string_of_uint]; eauto.
Qed.

Lemma ParseUint_numeral p :
  Z.pos p <= go_strconv.maxUint64 ->
  go_strconv.ParseUint (NilEmpty.string_of_uint (Pos.to_uint p))
  = (Z.pos p, None).
Proof.
  intros Hp. unfold go_strconv.ParseUint.
  destruct (numeral_head p) as (c & rest & E & _).
  rewrite E. cbn [String.eqb]. rewrite <- E.
  rewrite digits_numeral; rewrite ?to_uint_value; [reflexivity | lia | exact Hp].
Qed.

(** [ParseInt] reads the decimal text of a 64-bit integer back. *)
Lemma ParseInt_reads_Itoa z :
  min_int64 <= z <= max_int64 -> go_strconv.ParseInt (Itoa z) = (z, None).
Proof.
  intros Hz. unfold Itoa, min_int64, max_int64 in *.
  destruct z as [|p|p]; cbn [Z.to_int NilEmpty.string_of_int].
  + reflexivity.
  + destruct (numeral_head p) as (c & rest & E & Hc).
    unfold go_strconv.ParseInt. rewrite E. cbv beta iota zeta.
    assert (Hsign : (c =? "+")%char || (c =? "-")%char = false).
    { destruct (Ascii.eqb_spec c "+") as [->|_]; [discriminate Hc|].
      destruct (Ascii.eqb_spec c "-") as [->|_]; [discriminate Hc|].
      reflexivity. }
    apply orb_false_iff in Hsign. destruct Hsign as [Hplus Hminus].
    rewrite Hplus, Hminus. cbn [orb negb andb]. rewrite <- E.
    rewrite ParseUint_numeral by (unfold go_strconv.maxUint64; lia).
    destruct (2 ^ 63 <=? Z.pos p) eqn:E1; [apply Z.leb_le in E1; lia|].
    cbn [andb]. rewrite wrap64_small by (unfold min_int64, max_int64; lia).
    reflexivity.
  + unfold go_strconv.ParseInt.
    change ((NilEmpty.string_of_int (Decimal.Neg (Pos.to_uint p))))
      with (String "-" (NilEmpty.string_of_uint (Pos.to_uint p))).
    cbv beta iota zeta.
    change (("-" =? "-")%char) with true.
    change (("-" =? "+")%char) with false.
    cbn [orb negb andb].
    rewrite ParseUint_numeral by (unfold go_strconv.maxUint64; lia).
    destruct (2 ^ 63 <? Z.pos p) eqn:E1; [apply Z.ltb_lt in E1; lia|].
    f_equal. destruct (Z.eq_dec (Z.pos p) (2 ^ 63)) as [E2|E2].
    * rewrite E2. replace (Z.neg p) with (- 2 ^ 63) by lia. reflexivity.
    * rewrite (wrap64_small (Z.pos p))
        by (unfold min_int64, max_int64; lia).
      rewrite wrap64_small by (unfold min_int64, max_int64; lia).
      reflexivity.
Qed.

(** What [ParseInt] returns when it refuses a text. *)
Lemma ParseInt_refusals s :
  min_int64 <= fst (go_strconv.ParseInt s) <= max_int64
  /\ (snd (go_strconv.ParseInt s) = Some go_strconv.ErrSyntax ->
      fst (go_strconv.ParseInt s) = 0)
  /\ (snd (go_strconv.ParseInt s) = Some go_strconv.ErrRange ->
      fst (go_strconv.ParseInt s) = max_int64
      \/ fst (go_strconv.ParseInt s) = min_int64).
Proof.
  unfold go_strconv.ParseInt.
  destruct s as [|c rest]; cbn [fst snd].
  { unfold min_int64, max_int64. split; [lia|]. split; [reflexivity|].
    discriminate. }
  cbv zeta.
  set (body := if (c =? "+")%char || (c =? "-")%char then rest
               else String c rest).
  assert (Hun : 0 <= fst (go_strconv.ParseUint body) <= go_strconv.maxUint64).
  { unfold go_strconv.ParseUint. destruct (String.eqb body "");
      [unfold go_strconv.maxUint64; cbn [fst]; lia|].
    apply digits_range. unfold go_strconv.maxUint64. lia. }
  destruct (go_strconv.ParseUint body) as [un [[|]|]]; cbn [fst snd] in *.
  + unfold min_int64, max_int64. split; [lia|]. split; [reflexivity|].
    discriminate.
  + destruct (negb (c =? "-")%char && (2 ^ 63 <=? un)); cbn [fst snd].
    { unfold min_int64, max_int64. split; [lia|].
      split; [discriminate | now left]. }
    destruct ((c =? "-")%char && (2 ^ 63 <? un)); cbn [fst snd].
    { unfold min_int64, max_int64. split; [lia|].
      split; [discriminate | now right]. }
    split; [|split; discriminate].
    destruct (c =? "-")%char; apply wrap64_range.
  + destruct (negb (c =? "-")%char && (2 ^ 63 <=? un)); cbn [fst snd].
    { unfold min_int64, max_int64. split; [lia|].
      split; [discriminate | now left]. }
    destruct ((c =? "-")%char && (2 ^ 63 <? un)); cbn [fst snd].
    { unfold min_int64, max_int64. split; [lia|].
      split; [discriminate | now right]. }
    split; [|split; discriminate].
    destruct (c =? "-")%char; apply wrap64_range.
Qed.

(** X19.  [parseStreams] makes one line of each entry of each stream, in
    the order of the streams and, within a stream, of its entries: the
    line has the text of the entry, the labels of the stream and, as its
    level, the label level of the stream (empty when there is none).  The
    slice is never nil.  The time stamp of an entry written as a decimal
    64-bit number of nanoseconds is read back exactly; one that is not a
    number becomes 0, the Unix epoch, without an error. *)
Theorem parseStreams_lines (streams : list loki_http.lokiStream) :
  loki_http.parseStreams streams
  = mk_slice
      (flat_map (fun stream => map (entry_line stream) (loki_http.Values stream))
         streams)
  /\ is_nil (loki_http.parseStreams streams) = false
  /\ (forall stream t text,
        min_int64 <= t <= max_int64 ->
        models.LogLine.Timestamp (entry_line stream (Itoa t, text)) = t
        /\ UnixNano
             (models.LogLine.Timestamp (entry_line stream (Itoa t, text)))
           = t)
  /\ (forall stream stamp text,
        snd (go_strconv.ParseInt stamp) = Some go_strconv.ErrSyntax ->
        models.LogLine.Timestamp (entry_line stream (stamp, text)) = 0).
Proof.
  assert (Hlines : loki_http.parseStreams streams
                   = mk_slice
                       (flat_map
                          (fun stream =>
                             map (entry_line stream) (loki_http.Values stream))
                          streams)).
  { unfold loki_http.parseStreams. cbv zeta.
    assert (Hinner : forall stream vs acc,
              fold_left
                (fun lines v =>
                   lines
                   ++ [{| models.LogLine.Timestamp :=
                            fst (go_strconv.ParseInt (fst v));
                          models.LogLine.Message := snd v;
                          models.LogLine.Labels := loki_http.Stream stream;
                          models.LogLine.Level :=
                            default "" (loki_http.Stream stream !! "level") |}])
                vs acc
              = acc ++ map (entry_line stream) vs).
    { intros stream vs. induction vs as [|v vs IH]; intros acc;
        cbn [fold_left map]; [now rewrite app_nil_r|].
      rewrite IH, <- app_assoc. reflexivity. }
    assert (Houter : forall acc,
              fold_left
                (fun lines stream =>
                   fold_left
                     (fun lines v =>
                        lines
                        ++ [{| models.LogLine.Timestamp :=
                                 fst (go_strconv.ParseInt (fst v));
                               models.LogLine.Message := snd v;
                               models.LogLine.Labels := loki_http.Stream stream;
                               models.LogLine.Level :=
                                 default ""
                                   (loki_http.Stream stream !! "level") |}])
                     (loki_http.Values stream) lines)
                streams acc
              = acc
                ++ flat_map
                     (fun stream =>
                        map (entry_line stream) (loki_http.Values stream))
                     streams).
    { induction streams as [|stream streams IH]; intros acc;
        cbn [fold_left flat_map]; [now rewrite app_nil_r|].
      rewrite IH, Hinner, <- app_assoc. reflexivity. }
    rewrite Houter. cbn [app].
    now destruct (flat_map _ streams). }
  split; [exact Hlines|]. split; [now rewrite Hlines|]. split.
  - intros stream t text Ht. cbn [entry_line models.LogLine.Timestamp fst].
    rewrite (ParseInt_reads_Itoa t Ht). cbn [fst].
    split; [reflexivity|]. unfold UnixNano. now apply wrap64_small.
  - intros stream stamp text Herr.
    cbn [entry_line models.LogLine.Timestamp fst].
    now apply (ParseInt_refusals stamp).
Qed.

(** ** How much truncateString keeps *)

(** The loop of [truncateString] stops at the first rune start it meets:
    no byte after the index it returns, up to the bound, starts a rune. *)
Lemma back_to_rune_start_maximal s n k :
  analysis.back_to_rune_start s n = Some k ->
  forall i, (k < i <= n)%nat ->
    exists b, String.get i s = Some b /\ go_utf8.RuneStart b = false.
Proof.
  induction n as [|n IH]; cbn [analysis.back_to_rune_start].
  - intros [= <-] i Hi. lia.
  - destruct (String.get (S n) s) as [b|] eqn:Hb; [|discriminate].
    destruct (go_utf8.RuneStart b) eqn:Hr.
    + intros [= <-] i Hi. lia.
    + intros Hk i Hi. destruct (Nat.eq_dec i (S n)) as [->|Hne]; [eauto|].
      apply (IH Hk). lia.
Qed.

Lemma drop_length w s : String.length (drop w s) = (String.length s - w)%nat.
Proof.
  revert s. induction w as [|w IH]; intros [|c s]; cbn; try reflexivity.
  apply IH.
Qed.

Lemma get_drop w j s :
  (w <= String.length s)%nat ->
  String.get (w + j) s = String.get j (drop w s).
Proof.
  revert s. induction w as [|w IH]; intros s Hw; [reflexivity|].
  destruct s as [|c s]; cbn in Hw; [lia|]. cbn. apply IH. lia.
Qed.

(** A byte that does not start a rune starts no well-formed sequence. *)
Lemma not_start_leads_nothing b :
  go_utf8.RuneStart b = false ->
  (byte_val b <? go_utf8.RuneSelf) = false
  /\ go_utf8.in_range 194 223 b = false
  /\ go_utf8.in_range 224 224 b = false
  /\ go_utf8.in_range 225 236 b = false
  /\ go_utf8.in_range 237 237 b = false
  /\ go_utf8.in_range 238 239 b = false
  /\ go_utf8.in_range 240 240 b = false
  /\ go_utf8.in_range 241 243 b = false
  /\ go_utf8.in_range 244 244 b = false.
Proof.
  destruct b as [[] [] [] [] [] [] [] []]; vm_compute; intros H;
    first [discriminate H | repeat split].
Qed.

(** Valid UTF-8 begins with the first byte of a rune, which has at most
    four bytes and is followed by valid UTF-8. *)
Lemma valid_head b s :
  go_utf8.ValidString (String b s) = true ->
  go_utf8.RuneStart b = true
  /\ exists w, (1 <= w <= 4)%nat /\ (w <= String.length (String b s))%nat
               /\ go_utf8.ValidString (drop w (String b s)) = true.
Proof.
  intros Hv. split.
  - destruct (go_utf8.RuneStart b) eqn:Hr; [reflexivity|]. exfalso.
    destruct (not_start_leads_nothing b Hr)
      as (H0 & H1 & H2 & H3 & H4 & H5 & H6 & H7 & H8).
    rewrite ValidString_unfold in Hv.
    rewrite H0, H1, H2, H3, H4, H5, H6, H7, H8 in Hv. cbn [andb orb] in Hv.
    destruct s as [|b1 [|b2 [|b3 s]]]; discriminate Hv.
  - rewrite ValidString_unfold in Hv.
    destruct (byte_val b <? go_utf8.RuneSelf).
    { exists 1%nat. cbn. repeat split; try lia. exact Hv. }
    destruct s as [|b1 s]; [discriminate|].
    destruct (go_utf8.in_range 194 223 b && go_utf8.in_range 128 191 b1).
    { exists 2%nat. cbn. repeat split; try lia. exact Hv. }
    destruct s as [|b2 s]; [discriminate|].
    match type of Hv with (if ?c then _ else _) = true => destruct c end.
    { exists 3%nat. cbn. repeat split; try lia. exact Hv. }
    destruct s as [|b3 s]; [discriminate|].
    match type of Hv with (if ?c then _ else _) = true => destruct c end;
      [|discriminate].
    exists 4%nat. cbn. repeat split; try lia. exact Hv.
Qed.

(** In valid UTF-8 every four positions in a row hold a rune boundary. *)
Lemma valid_window (n : nat) :
  forall s i, (String.length s <= n)%nat ->
    go_utf8.ValidString s = true -> (i <= String.length s)%nat ->
    exists j, (i <= j <= i + 3)%nat /\ (j <= String.length s)%nat
              /\ (j = String.length s
                  \/ exists b, String.get j s = Some b
                               /\ go_utf8.RuneStart b = true).
Proof.
  induction n as [|n IH]; intros s i Hn Hv Hi.
  { exists i. destruct s; cbn in *; [|lia]. repeat split; try lia; left; lia. }
  destruct s as [|b s].
  { exists i. cbn in *. repeat split; try lia; left; lia. }
  destruct (valid_head b s Hv) as (Hstart & w & Hw & Hwl & Hrest).
  destruct i as [|i].
  { exists O. repeat split; try lia. right. exists b. auto. }
  destruct (Nat.lt_ge_cases (S i) w) as [Hlt|Hge].
  - exists w. repeat split; try lia.
    destruct (drop w (String b s)) as [|c rest] eqn:Ed.
    + left. pose proof (drop_length w (String b s)) as Hl.
      rewrite Ed in Hl. cbn [String.length] in *. lia.
    + right. exists c. split.
      * replace w with (w + 0)%nat by lia. rewrite get_drop by exact Hwl.
        rewrite Ed. reflexivity.
      * now destruct (valid_head c rest Hrest).
  - pose proof (drop_length w (String b s)) as Hl.
    destruct (IH (drop w (String b s)) (S i - w)%nat) as (j & Hj & Hjl & Hb).
    + rewrite Hl. cbn [String.length] in *. lia.
    + exact Hrest.
    + rewrite Hl. lia.
    + exists (w + j)%nat. rewrite Hl in Hjl. repeat split; try lia.
      destruct Hb as [Hb|(c & Hc & Hr)].
      * left. rewrite Hl in Hb. lia.
      * right. exists c. split; [|exact Hr]. now rewrite get_drop.
Qed.

(** Every byte of an ASCII string starts a rune. *)
Lemma ascii_get_start s i b :
  go_strings.isASCII s = true -> String.get i s = Some b ->
  go_utf8.RuneStart b = true.
Proof.
  revert i. induction s as [|c s IH]; intros i Ha Hg; [discriminate|].
  cbn in Ha. apply andb_prop in Ha. destruct Ha as [Hc Ha].
  destruct i as [|i]; cbn in Hg.
  - injection Hg as <-. unfold go_strings.is_ascii_byte in Hc.
    destruct (go_utf8.RuneStart c) eqn:Hr; [reflexivity|].
    destruct (not_start_leads_nothing c Hr) as (H0 & _). congruence.
  - now apply (IH i).
Qed.

(** X20.  [truncateString] panics exactly when the bound is negative,
    and when it cuts, it cuts as late as it can.  For a string longer
    than the bound, no byte between the cut and the bound starts a rune;
    so the result of cutting valid UTF-8 is at most 3 bytes short of the
    bound, and the result of cutting ASCII text is the first [maxBytes]
    bytes.  The copy of the function in package ai is the same. *)
Theorem truncateString_cuts_late (s : string) (maxBytes : Z) :
  ai.truncateString s maxBytes = analysis.truncateString s maxBytes
  /\ (analysis.truncateString s maxBytes = None <-> maxBytes < 0)
  /\ (forall r,
        analysis.truncateString s maxBytes = Some r -> maxBytes < len s ->
        len r <= maxBytes
        /\ (forall i, len r < Z.of_nat i <= maxBytes ->
              exists b, String.get i s = Some b
                        /\ go_utf8.RuneStart b = false)
        /\ (go_utf8.ValidString s = true -> maxBytes - 3 <= len r)
        /\ (go_strings.isASCII s = true -> r = take (Z.to_nat maxBytes) s)).
Proof.
  split; [reflexivity|].
  pose proof (len_nonneg s) as Hlen0.
  unfold analysis.truncateString.
  destruct (len s <=? maxBytes) eqn:E;
    [apply Z.leb_le in E | apply Z.leb_gt in E].
  { split; [split; [discriminate | lia]|]. intros r _ Hlt. lia. }
  destruct (maxBytes <? 0) eqn:E0;
    [apply Z.ltb_lt in E0 | apply Z.ltb_ge in E0].
  { split; [split; [intros _; exact E0 | reflexivity]|]. discriminate. }
  assert (Hin : (Z.to_nat maxBytes < String.length s)%nat)
    by (unfold len in E; lia).
  destruct (back_to_rune_start_spec s (Z.to_nat maxBytes) Hin)
    as (k & Hk & Hkm & Hb).
  rewrite Hk. split; [split; [discriminate | lia]|].
  intros r [= <-] _.
  assert (Hr : len (take k s) = Z.of_nat k)
    by (unfold len; rewrite take_length; lia).
  rewrite Hr.
  assert (Hmax : forall i, Z.of_nat k < Z.of_nat i <= maxBytes ->
            exists b, String.get i s = Some b /\ go_utf8.RuneStart b = false).
  { intros i Hi. apply (back_to_rune_start_maximal s _ k Hk). lia. }
  assert (Hlate : forall j,
            (j <= Z.to_nat maxBytes)%nat ->
            (exists b, String.get j s = Some b /\ go_utf8.RuneStart b = true) ->
            (j <= k)%nat).
  { intros j Hj (b & Hg & Hs).
    destruct (Nat.le_gt_cases j k) as [Hle|Hgt]; [exact Hle|].
    destruct (Hmax j ltac:(lia)) as (b' & Hg' & Hs'). congruence. }
  split; [lia|]. split; [exact Hmax|]. split.
  - intros Hv.
    destruct (Z_lt_le_dec maxBytes 3) as [Hsmall|Hbig]; [lia|].
    destruct (valid_window (String.length s) s (Z.to_nat maxBytes - 3)
                (Nat.le_refl _) Hv ltac:(lia))
      as (j & Hj & Hjl & [Hend|Hstart]); [lia|].
    specialize (Hlate j ltac:(lia) Hstart). lia.
  - intros Ha. f_equal.
    destruct (get_in_range _ s Hin) as (b & Hg).
    assert (Hle : (Z.to_nat maxBytes <= k)%nat).
    { apply Hlate; [lia|]. exists b. split; [exact Hg|].
      exact (ascii_get_start s _ b Ha Hg). }
    lia.
Qed.

(** ** Levels the store accepts *)



(** ** The summarize handler *)

(** X22.  The summarize handler calls the summarizer only for a request
    that passes its checks, and with parameters in bounds.  Either it
    answers without consulting the summarizer (whatever the summarizer
    is, the answer is the same): 401 when the context holds no tenant,
    400 when the body does not decode, names no service, or gives a start
    or an end that is missing or not an RFC 3339 time.  Or it consults
    the summarizer once, on parameters made of the request: the tenant of
    the context, the service as given (not empty), the namespace as
    given or default when none is given, the start and the end as parsed,
    and a number of lines between 10 and 1000 (the number asked for when
    it lies there, 500 when none is asked for, else the nearer bound);
    it then answers 200 with the result, or 404, 502, 504 or 500 by the
    first of ErrNoLogsFound, ErrProviderUnavailable and
    ErrInferenceTimeout the error is, if any. *)
Theorem NewSummarizeHandler_validates `{handler.GoTime}
    (svc : handler.Summarizer) (tenant : option uuid)
    (body : option handler.request) :
  let out := handler.NewSummarizeHandler svc tenant body in
  ((forall svc', handler.NewSummarizeHandler svc' tenant body = out)
   /\ ((tenant = None /\ handler.status_of out = 401)
       \/ (tenant <> None /\ handler.status_of out = 400)))
  \/ (exists tenantID req p,
        tenant = Some tenantID /\ body = Some req /\ made_of tenantID req p
        /\ (forall svc', svc' p = svc p ->
              handler.NewSummarizeHandler svc' tenant body = out)
        /\ match svc p with
           | inl result =>
               out = handler.response_JSON
                       {| handler.resp_Summary := handler.Summary result;
                          handler.resp_LinesAnalyzed :=
                            handler.LinesAnalyzed result;
                          handler.resp_From :=
                            handler.Format_RFC3339 (handler.From result);
                          handler.resp_To :=
                            handler.Format_RFC3339 (handler.To result);
                          handler.resp_Provider := handler.Provider result;
                          handler.resp_Model := handler.Model result |}
           | inr err =>
               handler.status_of out
               = (if handler.is_ErrNoLogsFound err then 404
                  else if handler.is_ErrProviderUnavailable err then 502
                  else if handler.is_ErrInferenceTimeout err then 504
                  else 500)
           end).
Proof.
  cbv zeta. unfold handler.NewSummarizeHandler.
  destruct tenant as [tenantID|]; [|left; split; [reflexivity | now left]].
  destruct body as [req|];
    [|left; split; [reflexivity | right; split; [discriminate | reflexivity]]].
  destruct (String.eqb_spec (handler.req_Service req) "") as [Es|Es];
    [left; split; [reflexivity | right; split; [discriminate | reflexivity]]|].
  destruct (String.eqb (handler.req_Start req) "");
    [left; split; [reflexivity | right; split; [discriminate | reflexivity]]|].
  destruct (handler.Parse_RFC3339 (handler.req_Start req)) as [startTime|] eqn:E1;
    [|left; split; [reflexivity | right; split; [discriminate | reflexivity]]].
  destruct (String.eqb (handler.req_End req) "");
    [left; split; [reflexivity | right; split; [discriminate | reflexivity]]|].
  destruct (handler.Parse_RFC3339 (handler.req_End req)) as [endTime|] eqn:E2;
    [|left; split; [reflexivity | right; split; [discriminate | reflexivity]]].
  right. cbv zeta.
  set (ns := if String.eqb (handler.req_Namespace req) "" then "default"
             else handler.req_Namespace req).
  set (ml := if 1000 <?
                (if (if handler.req_MaxLines req =? 0 then 500
                     else handler.req_MaxLines req) <? 10
                 then 10
                 else if handler.req_MaxLines req =? 0 then 500
                      else handler.req_MaxLines req)
             then 1000
             else if (if handler.req_MaxLines req =? 0 then 500
                      else handler.req_MaxLines req) <? 10
                  then 10
                  else if handler.req_MaxLines req =? 0 then 500
                       else handler.req_MaxLines req).
  set (p := {| handler.TenantID := tenantID;
               handler.Service := handler.req_Service req;
               handler.Namespace := ns;
               handler.Start := startTime;
               handler.End_ := endTime;
               handler.MaxLines := ml |}).
  exists tenantID, req, p. split; [reflexivity|]. split; [reflexivity|].
  split; [|split].
  - unfold made_of. cbn [p handler.TenantID handler.Service handler.Namespace
                          handler.Start handler.End_ handler.MaxLines].
    split; [reflexivity|]. split; [reflexivity|]. split; [exact Es|].
    split; [reflexivity|]. split.
    { subst ns. destruct (String.eqb_spec (handler.req_Namespace req) "");
        [discriminate | assumption]. }
    split; [exact E1|]. split; [exact E2|].
    subst ml.
    destruct (handler.req_MaxLines req =? 0) eqn:E0;
      [apply Z.eqb_eq in E0 | apply Z.eqb_neq in E0].
    + rewrite E0. cbn. lia.
    + destruct (handler.req_MaxLines req <? 10) eqn:E10;
        [apply Z.ltb_lt in E10 | apply Z.ltb_ge in E10].
      * cbn. lia.
      * destruct (1000 <? handler.req_MaxLines req) eqn:E1000;
          [apply Z.ltb_lt in E1000 | apply Z.ltb_ge in E1000]; lia.
  - intros svc' Heq. now rewrite Heq.
  - destruct (svc p) as [result|err]; [reflexivity|].
    destruct (handler.is_ErrNoLogsFound err); [reflexivity|].
    destruct (handler.is_ErrProviderUnavailable err); [reflexivity|].
    destruct (handler.is_ErrInferenceTimeout err); reflexivity.
Qed.

(** ** API keys *)

Lemma key_rows_In t k :
  In k (apikeys.rows t) <-> exists id, t !! id = Some k.
Proof.
  unfold apikeys.rows. rewrite in_map_iff. split.
  - intros ([id k'] & <- & Hin). exists id.
    now apply list_elem_of_In, elem_of_map_to_list in Hin.
  - intros (id & Hk). exists (id, k). split; [reflexivity|].
    now apply list_elem_of_In, elem_of_map_to_list.
Qed.

(** The calls keep the rows filed under their identifiers. *)
Lemma key_after_keyed t c : keyed t -> keyed (key_after t c).
Proof.
  intros Ht. destruct c as [key | now id | now id tenantID]; cbn [key_after].
  - unfold apikeys.CreateAPIKey.
    destruct (is_nil (apikeys.Scopes key)); [exact Ht|].
    destruct (t !! apikeys.ID key) eqn:E; [exact Ht|].
    destruct (existsb _ _); [exact Ht|]. cbn [fst].
    intros id k. destruct (decide (id = apikeys.ID key)) as [->|Hne].
    + rewrite lookup_insert_eq. now intros [= <-].
    + rewrite lookup_insert_ne by congruence. apply Ht.
  - unfold apikeys.UpdateAPIKeyLastUsed.
    destruct (t !! id) as [k0|] eqn:E; [|exact Ht]. cbn [fst].
    intros id' k. destruct (decide (id' = id)) as [->|Hne].
    + rewrite lookup_insert_eq. intros [= <-]. cbn. now apply Ht.
    + rewrite lookup_insert_ne by congruence. apply Ht.
  - unfold apikeys.RevokeAPIKey.
    destruct (t !! id) as [k0|] eqn:E; [|exact Ht].
    destruct (_ && _); [|exact Ht]. cbn [fst].
    intros id' k. destruct (decide (id' = id)) as [->|Hne].
    + rewrite lookup_insert_eq. intros [= <-]. cbn. now apply Ht.
    + rewrite lookup_insert_ne by congruence. apply Ht.
Qed.

Lemma key_calls_keyed calls t : keyed t -> keyed (fold_left key_after calls t).
Proof.
  revert t. induction calls as [|c calls IH]; intros t Ht; [exact Ht|].
  cbn [fold_left]. apply IH. now apply key_after_keyed.
Qed.

(** A revoked key stays in the table, revoked. *)
Lemma key_after_revoked t c id k :
  t !! id = Some k -> apikeys.DeletedAt k <> None ->
  exists k', key_after t c !! id = Some k' /\ apikeys.DeletedAt k' <> None.
Proof.
  intros Hk Hd. destruct c as [key | now id' | now id' tenantID];
    cbn [key_after].
  - unfold apikeys.CreateAPIKey.
    destruct (is_nil (apikeys.Scopes key)); [eauto|].
    destruct (t !! apikeys.ID key) eqn:E; [eauto|].
    destruct (existsb _ _); [eauto|]. cbn [fst].
    rewrite lookup_insert_ne by congruence. eauto.
  - unfold apikeys.UpdateAPIKeyLastUsed.
    destruct (t !! id') as [k0|] eqn:E; [|eauto]. cbn [fst].
    destruct (decide (id = id')) as [->|Hne].
    + rewrite lookup_insert_eq. eexists. split; [reflexivity|]. cbn.
      congruence.
    + rewrite lookup_insert_ne by congruence. eauto.
  - unfold apikeys.RevokeAPIKey.
    destruct (t !! id') as [k0|] eqn:E; [|eauto].
    destruct (N.eqb _ _ && apikeys.live k0) eqn:El; [|eauto]. cbn [fst].
    destruct (decide (id = id')) as [->|Hne].
    + exfalso. apply andb_prop in El. destruct El as [_ El].
      unfold apikeys.live in El. rewrite Hk in E. injection E as <-.
      destruct (apikeys.DeletedAt k); [discriminate | contradiction].
    + rewrite lookup_insert_ne by congruence. eauto.
Qed.

Lemma key_calls_revoked calls t id k :
  t !! id = Some k -> apikeys.DeletedAt k <> None ->
  exists k', fold_left key_after calls t !! id = Some k'
             /\ apikeys.DeletedAt k' <> None.
Proof.
  revert t k. induction calls as [|c calls IH]; intros t k Hk Hd; [eauto|].
  cbn [fold_left].
  destruct (key_after_revoked t c id k Hk Hd) as (k1 & Hk1 & Hd1).
  exact (IH _ k1 Hk1 Hd1).
Qed.

(** The keys [GetAPIKeyByPrefix] returns. *)
Lemma GetAPIKeyByPrefix_In `{store.Postgres} t prefix k :
  keyed t ->
  In k (slice_elems (fst (apikeys.GetAPIKeyByPrefix t prefix)))
  <-> store.valid_text prefix = true
      /\ t !! apikeys.ID k = Some k
      /\ apikeys.KeyPrefix k = prefix
      /\ apikeys.DeletedAt k = None.
Proof.
  intros Ht. unfold apikeys.GetAPIKeyByPrefix.
  destruct (store.valid_text prefix); cbn [negb fst slice_elems].
  2:{ split; [intros [] | intros (Hf & _); discriminate]. }
  rewrite (proj1 (appended_elems _)).
  assert (Hscan : forall l, In k (store.scan l) <-> In k l).
  { intros l. split; apply Permutation_in;
      [|apply Permutation_sym]; apply store.scan_perm. }
  rewrite Hscan, List.filter_In, key_rows_In, andb_true_iff, String.eqb_eq.
  unfold apikeys.live. split.
  - intros ((id & Hk) & Hp & Hl). split; [reflexivity|].
    rewrite (Ht _ _ Hk). split; [exact Hk|]. split; [exact Hp|].
    now destruct (apikeys.DeletedAt k).
  - intros (_ & Hk & Hp & Hl). split; [eauto|]. split; [exact Hp|].
    now rewrite Hl.
Qed.

Lemma first_match_spec `{GoCrypto} keys rawKey :
  match apikeys.first_match keys rawKey with
  | Some k =>
      In k keys /\ CompareHashAndPassword (apikeys.KeyHash k) rawKey = true
  | None =>
      forall k, In k keys ->
        CompareHashAndPassword (apikeys.KeyHash k) rawKey = false
  end.
Proof.
  induction keys as [|key keys IH]; cbn [apikeys.first_match].
  - intros k [].
  - destruct (CompareHashAndPassword (apikeys.KeyHash key) rawKey) eqn:E.
    + split; [now left | exact E].
    + destruct (apikeys.first_match keys rawKey) as [k|].
      * destruct IH as [Hin Hc]. split; [now right | exact Hc].
      * intros k [<-|Hin]; [exact E | now apply IH].
Qed.

(** Whom [Authenticate] lets through. *)
Lemma Authenticate_admits_lemma `{GoUnicode} `{GoCrypto} `{store.Postgres}
    (t : apikeys.table) (auth : string) :
  keyed t ->
  let rawKey := apikeys.extractBearerToken auth in
  let out := apikeys.Authenticate t auth in
  (forall tenantID prefix scopes id,
     out = apikeys.next tenantID prefix scopes id ->
     (apikeys.keyPrefixLen <= String.length rawKey)%nat
     /\ prefix = take apikeys.keyPrefixLen rawKey
     /\ exists k,
          opens t k rawKey /\ apikeys.ID k = id
          /\ apikeys.TenantID k = tenantID /\ apikeys.Scopes k = scopes)
  /\ ((exists k, opens t k rawKey) ->
      (apikeys.keyPrefixLen <= String.length rawKey)%nat ->
      store.valid_text (take apikeys.keyPrefixLen rawKey) = true ->
      exists tenantID prefix scopes id,
        out = apikeys.next tenantID prefix scopes id)
  /\ (forall status code message,
        out = apikeys.refused status code message ->
        status = 401
        \/ (status = 500
            /\ store.valid_text (take apikeys.keyPrefixLen rawKey) = false)).
Proof.
  intros Ht rawKey out. subst out. unfold apikeys.Authenticate. fold rawKey.
  cbv zeta.
  assert (Hkeys : forall k,
            In k (slice_elems
                    (fst (apikeys.GetAPIKeyByPrefix t
                            (take apikeys.keyPrefixLen rawKey))))
            -> CompareHashAndPassword (apikeys.KeyHash k) rawKey = true
            -> opens t k rawKey).
  { intros k Hin Hc. apply (GetAPIKeyByPrefix_In _ _ _ Ht) in Hin.
    destruct Hin as (_ & Hk & Hp & Hd). repeat split; assumption. }
  split; [|split].
  - intros tenantID prefix scopes id.
    destruct (String.eqb rawKey ""); [discriminate|].
    destruct (String.length rawKey <? apikeys.keyPrefixLen)%nat eqn:El;
      [discriminate|].
    apply Nat.ltb_ge in El.
    destruct (apikeys.GetAPIKeyByPrefix t (take apikeys.keyPrefixLen rawKey))
      as [keys [err|]] eqn:Eg; [discriminate|].
    pose proof (first_match_spec (slice_elems keys) rawKey) as Hm.
    destruct (apikeys.first_match (slice_elems keys) rawKey) as [k|];
      [|discriminate].
    intros [= <- <- <- <-]. destruct Hm as [Hin Hc].
    split; [exact El|]. split; [reflexivity|].
    exists k. cbn [fst] in Hkeys. auto.
  - intros (k & Hk & Hd & Hp & Hc) Hlen Hvalid.
    destruct (String.eqb_spec rawKey "") as [E|_].
    { rewrite E in Hlen. cbn in Hlen. unfold apikeys.keyPrefixLen in Hlen. lia. }
    destruct (String.length rawKey <? apikeys.keyPrefixLen)%nat eqn:El;
      [apply Nat.ltb_lt in El; lia|].
    assert (Hin : In k (slice_elems
                          (fst (apikeys.GetAPIKeyByPrefix t
                                  (take apikeys.keyPrefixLen rawKey)))))
      by (apply (GetAPIKeyByPrefix_In _ _ _ Ht); auto).
    unfold apikeys.GetAPIKeyByPrefix in *. rewrite Hvalid in *.
    cbn [negb fst] in *.
    pose proof (first_match_spec
                  (slice_elems
                     (appended
                        (store.scan
                           (List.filter
                              (fun k0 =>
                                 String.eqb (apikeys.KeyPrefix k0)
                                   (take apikeys.keyPrefixLen rawKey)
                                 && apikeys.live k0)
                              (apikeys.rows t)))))
                  rawKey) as Hm.
    destruct (apikeys.first_match _ rawKey) as [k1|]; [eauto|].
    rewrite (Hm k Hin) in Hc. discriminate.
  - intros status code message.
    destruct (String.eqb rawKey ""); [intros [= <- _ _]; now left|].
    destruct (String.length rawKey <? apikeys.keyPrefixLen)%nat;
      [intros [= <- _ _]; now left|].
    unfold apikeys.GetAPIKeyByPrefix.
    destruct (store.valid_text (take apikeys.keyPrefixLen rawKey));
      cbn [negb].
    + destruct (apikeys.first_match _ rawKey); [discriminate|].
      intros [= <- _ _]. now left.
    + intros [= <- _ _]. right. auto.
Qed.

(** X23.  [Authenticate] lets a request through exactly for a key that
    opens the door.  With the raw key the Authorization header carries
    (the text after the scheme Bearer, in any case, and a space, without
    the white space around it): when the next handler is called, the
    table holds a key that is not revoked, has the first eight bytes of
    the raw key as its prefix and a hash that bcrypt accepts for the raw
    key, and the context gets the tenant and the scopes of that key and
    the prefix; when the table holds such a key, and the prefix is text
    the database accepts, the next handler is called; and a request that
    is refused gets 401, or 500 when the prefix is not text the database
    accepts. *)
Theorem Authenticate_admits `{GoUnicode} `{GoCrypto} `{store.Postgres}
    (t : apikeys.table) (auth : string) :
  keyed t ->
  let rawKey := apikeys.extractBearerToken auth in
  let out := apikeys.Authenticate t auth in
  (forall tenantID prefix scopes id,
     out = apikeys.next tenantID prefix scopes id ->
     (apikeys.keyPrefixLen <= String.length rawKey)%nat
     /\ prefix = take apikeys.keyPrefixLen rawKey
     /\ exists k,
          opens t k rawKey /\ apikeys.ID k = id
          /\ apikeys.TenantID k = tenantID /\ apikeys.Scopes k = scopes)
  /\ ((exists k, opens t k rawKey) ->
      (apikeys.keyPrefixLen <= String.length rawKey)%nat ->
      store.valid_text (take apikeys.keyPrefixLen rawKey) = true ->
      exists tenantID prefix scopes id,
        out = apikeys.next tenantID prefix scopes id)
  /\ (forall status code message,
        out = apikeys.refused status code message ->
        status = 401
        \/ (status = 500
            /\ store.valid_text (take apikeys.keyPrefixLen rawKey) = false))
  /\ (forall token,
        apikeys.extractBearerToken ("Bearer " +:+ token)
        = go_strings.TrimSpace token
        /\ apikeys.extractBearerToken ("bearer " +:+ token)
           = go_strings.TrimSpace token
        /\ apikeys.extractBearerToken ("Basic " +:+ token) = "").
Proof.
  intros Ht rawKey out.
  destruct (Authenticate_admits_lemma t auth Ht) as (Hsound & Hcomplete & Hrefused).
  split; [exact Hsound|]. split; [exact Hcomplete|]. split; [exact Hrefused|].
  intros token. unfold apikeys.extractBearerToken.
  cbn [String.append String.eqb Ascii.eqb Bool.eqb apikeys.SplitN_space_2].
  repeat split; reflexivity.
Qed.

Lemma Authenticate_admits_witness :
  @apikeys.Authenticate ascii_tables plain_crypto plain_postgres
    {[ 31%N := test_key ]} "Bearer lh_test1_secret"
  = apikeys.next 1%N "lh_test1" (mk_slice ["read"]) 31%N
  /\ opens (H := plain_crypto) {[ 31%N := test_key ]} test_key
       "lh_test1_secret".
Proof.
  assert (Hkeyed : keyed ({[ 31%N := test_key ]} : apikeys.table)).
  { intros id k Hk. apply lookup_singleton_Some in Hk.
    destruct Hk as [<- <-]. reflexivity. }
  assert (Hout : @apikeys.Authenticate ascii_tables plain_crypto plain_postgres
                   {[ 31%N := test_key ]} "Bearer lh_test1_secret"
                 = apikeys.next 1%N "lh_test1" (mk_slice ["read"]) 31%N)
    by (vm_compute; reflexivity).
  split; [exact Hout|].
  destruct (proj1 (@Authenticate_admits ascii_tables plain_crypto
                     plain_postgres {[ 31%N := test_key ]}
                     "Bearer lh_test1_secret" Hkeyed)
              _ _ _ _ Hout) as (_ & _ & k & Hopen & Hid & _).
  destruct Hopen as (Hk & Hd & Hp & Hc).
  assert (Ek : k = test_key).
  { rewrite Hid in Hk. apply lookup_singleton_Some in Hk. now destruct Hk. }
  rewrite Ek in *. repeat split; assumption.
Defined.

(** What [RevokeAPIKey] does to the key. *)
Lemma RevokeAPIKey_spec t now id tenantID :
  match t !! id with
  | Some k =>
      if N.eqb (apikeys.TenantID k) tenantID && apikeys.live k
      then exists k',
             apikeys.RevokeAPIKey t now id tenantID = (<[id := k']> t, None)
             /\ apikeys.DeletedAt k' = Some now
             /\ apikeys.ID k' = apikeys.ID k
      else apikeys.RevokeAPIKey t now id tenantID = (t, Some store.ErrNotFound)
  | None => apikeys.RevokeAPIKey t now id tenantID = (t, Some store.ErrNotFound)
  end.
Proof.
  unfold apikeys.RevokeAPIKey. destruct (t !! id) as [k|]; [|reflexivity].
  destruct (_ && _); [|reflexivity]. eexists. repeat split; reflexivity.
Qed.

(** The keys [ListAPIKeys] returns. *)
Lemma ListAPIKeys_In `{store.Postgres} t tenantID k :
  keyed t ->
  In k (slice_elems (fst (apikeys.ListAPIKeys t tenantID)))
  <-> t !! apikeys.ID k = Some k
      /\ apikeys.TenantID k = tenantID
      /\ apikeys.DeletedAt k = None.
Proof.
  intros Ht. unfold apikeys.ListAPIKeys. cbn [fst].
  rewrite (proj1 (appended_elems _)).
  assert (Hperm : forall l,
            In k (go_sort.Slice apikeys.newer (store.scan l)) <-> In k l).
  { intros l. split; apply Permutation_in.
    - rewrite Slice_perm. apply store.scan_perm.
    - apply Permutation_sym. rewrite Slice_perm. apply store.scan_perm. }
  rewrite Hperm, List.filter_In, key_rows_In, andb_true_iff, N.eqb_eq.
  unfold apikeys.live. split.
  - intros ((id & Hk) & Hp & Hl).
    rewrite (Ht _ _ Hk). split; [exact Hk|]. split; [exact Hp|].
    now destruct (apikeys.DeletedAt k).
  - intros (Hk & Hp & Hl). split; [eauto|]. split; [exact Hp|].
    now rewrite Hl.
Qed.

(** X24.  Revoking a key is final, and only its tenant can do it.
    [RevokeAPIKey] succeeds just when the table holds the key, it
    belongs to the tenant given and is not yet revoked; otherwise it
    returns [ErrNotFound] and leaves the table as it is.  Once it has
    succeeded, whatever calls to [CreateAPIKey], [UpdateAPIKeyLastUsed]
    and [RevokeAPIKey] follow, neither [GetAPIKeyByPrefix] nor
    [ListAPIKeys] returns the key again, and [Authenticate] lets no
    request through on it. *)
Theorem revoked_key_is_refused `{GoUnicode} `{GoCrypto} `{store.Postgres}
    (t : apikeys.table) (now : Time) (id tenantID : uuid)
    (calls : list key_call) :
  keyed t ->
  let revoked := apikeys.RevokeAPIKey t now id tenantID in
  let t' := fold_left key_after calls (fst revoked) in
  (snd revoked = None
   <-> exists k, t !! id = Some k /\ apikeys.TenantID k = tenantID
                 /\ apikeys.DeletedAt k = None)
  /\ (snd revoked <> None ->
      revoked = (t, Some store.ErrNotFound))
  /\ (snd revoked = None ->
      (forall prefix k,
         In k (slice_elems (fst (apikeys.GetAPIKeyByPrefix t' prefix))) ->
         apikeys.ID k <> id)
      /\ (forall tenant k,
            In k (slice_elems (fst (apikeys.ListAPIKeys t' tenant))) ->
            apikeys.ID k <> id)
      /\ (forall auth tenant prefix scopes,
            apikeys.Authenticate t' auth
            <> apikeys.next tenant prefix scopes id)).
Proof.
  intros Ht revoked t'. subst t' revoked.
  pose proof (RevokeAPIKey_spec t now id tenantID) as Hspec.
  destruct (t !! id) as [k|] eqn:Ek.
  2:{ rewrite Hspec. cbn [fst snd]. split; [|split].
      - split; [discriminate | intros (k & Hk & _); discriminate].
      - reflexivity.
      - discriminate. }
  destruct (N.eqb (apikeys.TenantID k) tenantID && apikeys.live k) eqn:El.
  2:{ rewrite Hspec. cbn [fst snd]. split; [|split].
      - split; [discriminate|]. intros (k0 & [= <-] & Hten & Hd).
        unfold apikeys.live in El. rewrite Hd in El.
        apply N.eqb_eq in Hten. rewrite Hten in El. discriminate.
      - reflexivity.
      - discriminate. }
  destruct Hspec as (k' & -> & Hd' & Hid'). cbn [fst snd].
  rewrite (Ht _ _ Ek) in Hid'.
  apply andb_prop in El. destruct El as [Hten Hlive].
  split; [|split].
  - split; [|reflexivity]. intros _. exists k. split; [reflexivity|].
    apply N.eqb_eq in Hten. split; [exact Hten|].
    unfold apikeys.live in Hlive. now destruct (apikeys.DeletedAt k).
  - intros Hne. now contradiction Hne.
  - intros _.
    assert (Hkeyed : keyed (fold_left key_after calls (<[id := k']> t))).
    { apply key_calls_keyed. intros id0 k0.
      destruct (decide (id0 = id)) as [->|Hne].
      - rewrite lookup_insert_eq. intros [= <-]. exact Hid'.
      - rewrite lookup_insert_ne by congruence. apply Ht. }
    destruct (key_calls_revoked calls (<[id := k']> t) id k')
      as (k1 & Hk1 & Hd1); [apply lookup_insert_eq | congruence |].
    assert (Hgone : forall k0,
              fold_left key_after calls (<[id := k']> t) !! apikeys.ID k0
              = Some k0 ->
              apikeys.DeletedAt k0 = None -> apikeys.ID k0 <> id).
    { intros k0 Hk0 Hd0 Hid. rewrite Hid in Hk0. congruence. }
    split; [|split].
    + intros prefix k0 Hin. apply (GetAPIKeyByPrefix_In _ _ _ Hkeyed) in Hin.
      destruct Hin as (_ & Hk0 & _ & Hd0). now apply Hgone.
    + intros tenant k0 Hin. apply (ListAPIKeys_In _ _ _ Hkeyed) in Hin.
      destruct Hin as (Hk0 & _ & Hd0). now apply Hgone.
    + intros auth tenant prefix scopes Hout.
      pose proof (GetAPIKeyByPrefix_In
                    (fold_left key_after calls (<[id := k']> t))) as Hget.
      revert Hout. unfold apikeys.Authenticate. cbv zeta.
      destruct (String.eqb _ ""); [discriminate|].
      destruct (_ <? _)%nat; [discriminate|].
      match goal with
      | |- context [apikeys.GetAPIKeyByPrefix ?tt ?pp] =>
          specialize (Hget pp);
          destruct (apikeys.GetAPIKeyByPrefix tt pp) as [keys [err|]];
            [discriminate|]
      end.
      match goal with
      | |- context [apikeys.first_match ?l ?r] =>
          pose proof (first_match_spec l r) as Hm;
          destruct (apikeys.first_match l r) as [k0|]; [|discriminate]
      end.
      intros [= _ _ _ Hid]. destruct Hm as [Hin _].
      cbn [fst] in Hget. apply (Hget k0 Hkeyed) in Hin.
      destruct Hin as (_ & Hk0 & _ & Hd0). now apply (Hgone k0).
Qed.

Lemma revoked_key_is_refused_witness :
  @apikeys.Authenticate ascii_tables plain_crypto plain_postgres
    (fold_left key_after
       [call_UpdateAPIKeyLastUsed 1100 31%N; call_CreateAPIKey test_key]
       (fst (apikeys.RevokeAPIKey {[ 31%N := test_key ]} 1000 31%N 1%N)))
    "Bearer lh_test1_secret"
  <> apikeys.next 1%N "lh_test1" (mk_slice ["read"]) 31%N.
Proof.
  assert (Hkeyed : keyed ({[ 31%N := test_key ]} : apikeys.table)).
  { intros id k Hk. apply lookup_singleton_Some in Hk.
    destruct Hk as [<- <-]. reflexivity. }
  destruct (@revoked_key_is_refused ascii_tables plain_crypto plain_postgres
              {[ 31%N := test_key ]} 1000 31%N 1%N
              [call_UpdateAPIKeyLastUsed 1100 31%N; call_CreateAPIKey test_key]
              Hkeyed) as (_ & _ & Hgone).
  destruct (Hgone eq_refl) as (_ & _ & Hauth). apply Hauth.
Defined.


